(** * Shortest-path engine over the hand-written containers

    A shallow embedding of the Python sources

    - [array.py]      ([Array]),
    - [graph.py]      ([Graph], [_Vertex], [_Edge]),
    - [hash_map.py]   ([Pair], [HashMap]),
    - [list_stack.py] ([ListStack]),
    - [program.py]    ([Airport], [Dijkstra]),

    together with the properties of them that the specification states.

    Conventions.  A Python call that may raise is a function into
    [result]; an object that is mutated in place is threaded through
    explicitly.  Python [int] is [Z].  Python [float] is modelled by the
    exact rationals [Q].  In the hash map the floating-point computations
    are [count / capacity > 0.6] and [int(count / 0.6)], and for every
    count below [2^50] the correctly rounded double results compare and
    truncate exactly like the rationals [count / capacity], [3/5] and
    [5 * count / 3].  In the engine, distances are sums of edge weights
    that are compared with each other and with the initial [-1]; the
    concrete runs below use small integer weights, whose sums doubles
    represent exactly, and the general statements do not depend on the
    value of a sum, except those on shortest routes, which read weights
    and sums as exact numbers. *)

From Stdlib Require Import ZArith QArith Qround Znumtheory Lia Lqa Ascii String.
From stdpp Require Import base list strings.

Local Open Scope Z_scope.

(** ** Exceptions and results *)

(** The built-in exceptions the sources can raise.  [RecursionError] is
    what the interpreter raises when calls nest too deeply.  The last two
    are not Python exceptions: [InvalidReference] is the result of
    following a reference that is not in the object store, which no Python
    state allows, and [OutOfFuel] is the result of a [while] loop that has
    not stopped within the bound the model gives it. *)
Inductive exn : Type :=
| TypeError
| ValueError
| KeyError
| IndexError
| AttributeError
| ZeroDivisionError
| RecursionError
| EOFError
| InvalidReference
| OutOfFuel.

Inductive result (A : Type) : Type :=
| Ok (a : A)
| Raise (e : exn).

Arguments Ok {A} a.
Arguments Raise {A} e.

#[global] Instance result_ret : MRet result := @Ok.

#[global] Instance result_bind : MBind result :=
  fun A B f m => match m with Ok a => f a | Raise e => Raise e end.

#[global] Instance exn_eq_dec : EqDecision exn.
Proof. solve_decision. Defined.

(** [for x in xs: acc = body(acc, x)], stopping at the first exception. *)
Fixpoint foldM {A S : Type} (body : S -> A -> result S) (xs : list A) (acc : S)
  : result S :=
  match xs with
  | [] => Ok acc
  | x :: xs' => acc' ← body acc x; foldM body xs' acc'
  end.

Definition is_ok {A : Type} (r : result A) : Prop := exists a, r = Ok a.

(** ** [sympy.nextprime] *)

(** Trial division. *)
Definition is_prime (p : Z) : bool :=
  (1 <? p) && forallb (fun d => negb (p mod d =? 0)) (seqZ 2 (p - 2)).

(** The first prime in the window [[p, p + 2^d)], if there is one.  The
    window is searched from the left, so the search stops at the first
    prime although the window is exponentially wide. *)
Fixpoint first_prime_from (d : nat) (p : Z) : option Z :=
  match d with
  | O => if is_prime p then Some p else None
  | S d' =>
      match first_prime_from d' p with
      | Some q => Some q
      | None => first_prime_from d' (p + 2 ^ Z.of_nat d')
      end
  end.

(** [nextprime(n)]: the smallest prime strictly greater than [n].  The
    library function loops until it meets a prime; here the loop is bounded
    by a window that always contains one (see [nextprime_spec]). *)
Definition nextprime (n : Z) : Z :=
  let m := Z.max n 1 in
  default 2 (first_prime_from (Z.to_nat (m * m)) (m + 1)).

(** [p] is the smallest prime strictly greater than [n]. *)
Definition least_prime_above (n p : Z) : Prop :=
  prime p /\ n < p /\ forall q, prime q -> n < q -> p <= q.

(** [p] is the smallest prime greater than or equal to the rational [x]. *)
Definition least_prime_geq (x : Q) (p : Z) : Prop :=
  prime p /\ (x <= inject_Z p)%Q /\
  forall q, prime q -> (x <= inject_Z q)%Q -> p <= q.

(** ** [array.py]: class [Array] *)

(** An [Array] wraps a numpy object array [_items] and keeps two sizes
    beside it.  Elements are of type [A]; an array created by [Array(n)],
    whose slots start as [None], is an [Array (option X)]. *)
Record Array (A : Type) : Type := mkArray {
  _items : list A;
  _physical_size : Z;
  _logical_size : Z;
  _default_item_value : A
}.

Arguments mkArray {A} _ _ _ _.
Arguments _items {A} _.
Arguments _physical_size {A} _.
Arguments _logical_size {A} _.
Arguments _default_item_value {A} _.

(** [np.array(...)[i] = x] for [i >= 0]: numpy raises [IndexError] out of
    bounds. *)
Definition np_setitem {A : Type} (arr : list A) (i : nat) (x : A) : result (list A) :=
  if decide (i < length arr)%nat then Ok (<[i := x]> arr) else Raise IndexError.

(** [np.delete(arr, i)] for [i >= 0]. *)
Definition np_delete {A : Type} (arr : list A) (i : nat) : result (list A) :=
  if decide (i < length arr)%nat then Ok (delete i arr) else Raise IndexError.

Section ArrayModel.
Context {A : Type}.

(** [Array.__init__]: [[default] * size] is empty for a negative [size]. *)
Definition Array_init (size : Z) (default_item_value : A) : Array A :=
  mkArray (replicate (Z.to_nat size) default_item_value) size size default_item_value.

(** [Array.__getitem__]. *)
Definition Array_getitem (self : Array A) (index : Z) : result A :=
  if (index <? 0) || (Z.of_nat (length (_items self)) <=? index)
  then Raise IndexError
  else match _items self !! Z.to_nat index with
       | Some x => Ok x
       | None => Raise IndexError
       end.

(** [Array.__setitem__]. *)
Definition Array_setitem (self : Array A) (index : Z) (data : A) : result (Array A) :=
  if (index <? 0) || (Z.of_nat (length (_items self)) <=? index)
  then Raise IndexError
  else Ok (mkArray (<[Z.to_nat index := data]> (_items self))
                   (_physical_size self) (_logical_size self)
                   (_default_item_value self)).

(** [Array.__len__], as seen through [len()]: the interpreter rejects a
    negative length with [ValueError]. *)
Definition Array_len (self : Array A) : result Z :=
  if _logical_size self <? 0 then Raise ValueError else Ok (_logical_size self).

(** [Array.__iter__]: iterates the numpy array itself. *)
Definition Array_iter (self : Array A) : list A := _items self.

(** [Array.append]. *)
Definition Array_append (self : Array A) (data : A) : result (Array A) :=
  let new_physical_size :=
    if _logical_size self =? _physical_size self
    then _physical_size self * 2
    else _physical_size self in
  let new_array :=
    replicate (Z.to_nat new_physical_size) (_default_item_value self) in
  new_array ← foldM (fun arr '(i, x) => np_setitem arr i x)
                    (zip (seq 0 (length (_items self))) (_items self)) new_array;
  new_array ← np_setitem new_array (length (_items self)) data;
  Ok (mkArray new_array new_physical_size (_logical_size self + 1)
              (_default_item_value self)).

(** [Array.__delitem__]. *)
Definition Array_delitem (self : Array A) (index : Z) : result (Array A) :=
  if index <? 0 then Raise IndexError
  else
    n ← Array_len self;
    if index <? n
    then items ← np_delete (_items self) (Z.to_nat index);
         Ok (mkArray items (_physical_size self) (_logical_size self - 1)
                     (_default_item_value self))
    else Raise IndexError.

End ArrayModel.

(** ** [linked_list.py]: class [LinkedList] *)

(** The module [linked_list.py] is not part of the sources at hand.  The
    specification describes its class as an ordered sequence container
    with append, remove-by-value (which fails if the value is absent),
    iteration, length and clear; the callers below also use its membership
    test, [pop_back] and [back].  A linked list is modelled by the list of
    its items, from the front to the back. *)
Abbreviation LinkedList := list (only parsing).

Section LinkedListModel.
Context {A : Type} `{EqDecision A}.

(** Modelled from the spec: [LinkedList()], the empty sequence. *)
Definition LinkedList_init : LinkedList A := [].

(** Modelled from the spec: [LinkedList.append] adds the item at the back. *)
Definition LinkedList_append (self : LinkedList A) (item : A) : LinkedList A :=
  self ++ [item].

(** Modelled from the spec: remove-by-value takes out the first node that
    is equal to [item]. *)
Fixpoint remove_first (item : A) (l : list A) : option (list A) :=
  match l with
  | [] => None
  | x :: l' =>
      if decide (x = item) then Some l'
      else l'' ← remove_first item l'; Some (x :: l'')
  end.

(** Modelled from the spec: [LinkedList.extract] is remove-by-value, and
    fails if the value is absent. *)
Definition LinkedList_extract (self : LinkedList A) (item : A) : result (LinkedList A) :=
  match remove_first item self with
  | Some l => Ok l
  | None => Raise ValueError
  end.

(** Modelled from the spec: the membership test [item in self]. *)
Definition LinkedList_contains (self : LinkedList A) (item : A) : bool :=
  bool_decide (item ∈ self).

(** Modelled from the spec: [len(self)]. *)
Definition LinkedList_len (self : LinkedList A) : Z := Z.of_nat (length self).

(** Modelled from the spec: the property [back], the last item, [None]
    when there is none. *)
Definition LinkedList_back (self : LinkedList A) : option A := last self.

(** Modelled from the spec: [LinkedList.pop_back] removes the last item,
    and fails on an empty sequence. *)
Definition LinkedList_pop_back (self : LinkedList A) : result (LinkedList A) :=
  match self with
  | [] => Raise IndexError
  | _ => Ok (removelast self)
  end.

(** Modelled from the spec: [LinkedList.clear]. *)
Definition LinkedList_clear (self : LinkedList A) : LinkedList A := [].

End LinkedListModel.

(** ** [list_stack.py]: class [ListStack] *)

Record ListStack (A : Type) : Type := mkListStack {
  _stack : LinkedList A;
  _top : option A
}.

Arguments mkListStack {A} _ _.
Arguments _stack {A} _.
Arguments _top {A} _.

Section ListStackModel.
Context {A : Type}.

Definition ListStack_init : ListStack A := mkListStack [] None.

(** [ListStack.push].  The class tells an empty stack by a top that is
    [None], so [A] is a type of items other than [None], such as the
    codes of airports that the engine pushes. *)
Definition ListStack_push (self : ListStack A) (item : A) : ListStack A :=
  mkListStack (LinkedList_append (_stack self) item) (Some item).

(** The property [empty]: the stack is empty when [_top] is [None]. *)
Definition ListStack_empty (self : ListStack A) : bool :=
  match _top self with None => true | Some _ => false end.

Definition ListStack_pop (self : ListStack A) : result (A * ListStack A) :=
  match _top self with
  | None => Raise IndexError
  | Some item =>
      stack ← LinkedList_pop_back (_stack self);
      Ok (item,
          if LinkedList_len stack =? 0
          then mkListStack stack None
          else mkListStack stack (LinkedList_back stack))
  end.

End ListStackModel.

(** ** [hash_map.py]: classes [Pair] and [HashMap] *)

(** [x > y] on floats. *)
Definition Qgtb (x y : Q) : bool := negb (Qle_bool x y).

(** [int(x)]: truncation towards zero. *)
Definition Qtrunc (x : Q) : Z := Z.quot (Qnum x) (Zpos (Qden x)).

(** [HashMap.default_load_factor_threshold]. *)
Definition default_load_factor_threshold : Q := 0.6%Q.

Section HashMapModel.
Context {K V : Type} `{EqDecision K} `{EqDecision V}.

(** The number that [default_hash_function] reduces modulo the capacity:
    [hash(key)], or [sum([hash(val) for val in key])] when the key is
    iterable (a [str], a named tuple).  The interpreter salts [hash] per
    process, so the function is a parameter. *)
Variable pyhash : K -> Z.

Record Pair : Type := mkPair {
  key : K;
  value : V
}.

#[global] Instance Pair_eq_dec : EqDecision Pair.
Proof. solve_decision. Defined.

(** A hash map is an [Array] of chains.  A slot of the array is [None]
    only between [Array(capacity)] and the loop of the constructor that
    fills it. *)
Record HashMap : Type := mkHashMap {
  _buckets : Array (option (LinkedList Pair));
  _hash_function : K -> Z -> result Z;
  _load_factor_threshold : Q;
  _count : Z
}.

(** [HashMap.default_hash_function]. *)
Definition default_hash_function (k : K) (capacity : Z) : result Z :=
  if capacity =? 0 then Raise ZeroDivisionError else Ok (pyhash k mod capacity).

(** [HashMap.__init__].  The argument [hash_function] is [None] for a
    Python value that is [None] or not callable.  The argument
    [load_factor_threshold] is not used by the body. *)
Definition HashMap_init (capacity : Z) (hash_function : option (K -> Z -> result Z))
    (load_factor_threshold : Q) : result HashMap :=
  match hash_function with
  | None => Raise TypeError
  | Some f =>
      buckets ← foldM (fun b i => Array_setitem b i (Some LinkedList_init))
                      (seqZ 0 capacity) (Array_init capacity None);
      Ok (mkHashMap buckets f default_load_factor_threshold 0)
  end.

(** The property [capacity]. *)
Definition HashMap_capacity (self : HashMap) : result Z :=
  Array_len (_buckets self).

(** [HashMap.__len__]. *)
Definition HashMap_len (self : HashMap) : Z := _count self.

(** The property [load_factor]. *)
Definition HashMap_load_factor (self : HashMap) : result Q :=
  c ← HashMap_capacity self;
  if c =? 0 then Raise ZeroDivisionError
  else Ok (inject_Z (_count self) / inject_Z c)%Q.

(** The property [load_factor_threshold]. *)
Definition HashMap_load_factor_threshold (self : HashMap) : Q :=
  _load_factor_threshold self.

(** [HashMap._new_bucket_capacity]. *)
Definition _new_bucket_capacity (self : HashMap) : result Z :=
  if Qeq_bool (_load_factor_threshold self) 0 then Raise ZeroDivisionError
  else Ok (nextprime (Qtrunc (inject_Z (_count self) / _load_factor_threshold self)%Q)).

(** [self._buckets[bucket_number]], as a chain that can be iterated. *)
Definition bucket_chain (self : HashMap) (bucket_number : Z) : result (LinkedList Pair) :=
  b ← Array_getitem (_buckets self) bucket_number;
  match b with
  | Some chain => Ok chain
  | None => Raise TypeError
  end.

(** The chain object at [bucket_number] is mutated in place. *)
Definition set_bucket_chain (self : HashMap) (bucket_number : Z)
    (chain : LinkedList Pair) (count : Z) : HashMap :=
  mkHashMap
    (mkArray (<[Z.to_nat bucket_number := Some chain]> (_items (_buckets self)))
             (_physical_size (_buckets self)) (_logical_size (_buckets self))
             (_default_item_value (_buckets self)))
    (_hash_function self) (_load_factor_threshold self) count.

(** [for pair in chain: if pair.key == key: ...]: the first match [pr]. *)
Definition find_pair (k : K) (chain : LinkedList Pair) : option Pair :=
  List.find (fun pr => bool_decide (key pr = k)) chain.

(** [HashMap.__getitem__]. *)
Definition HashMap_getitem (self : HashMap) (k : K) : result V :=
  c ← HashMap_capacity self;
  bucket_number ← _hash_function self k c;
  chain ← bucket_chain self bucket_number;
  match find_pair k chain with
  | Some pr => Ok (value pr)
  | None => Raise KeyError
  end.

(** [HashMap.__contains__]. *)
Definition HashMap_contains (self : HashMap) (k : K) : result bool :=
  c ← HashMap_capacity self;
  bucket_number ← _hash_function self k c;
  chain ← bucket_chain self bucket_number;
  match find_pair k chain with
  | Some _ => Ok true
  | None => Ok false
  end.

(** [HashMap.items]: bucket by bucket, each chain in its order. *)
Definition HashMap_items (self : HashMap) : result (list (K * V)) :=
  foldM (fun items bucket =>
           match bucket with
           | Some chain => Ok (items ++ map (fun pr => (key pr, value pr)) chain)
           | None => Raise TypeError
           end)
        (Array_iter (_buckets self)) [].

(** [HashMap.keys], through [HashMap.__iter__]. *)
Definition HashMap_keys (self : HashMap) : result (list K) :=
  foldM (fun keys bucket =>
           match bucket with
           | Some chain => Ok (keys ++ map key chain)
           | None => Raise TypeError
           end)
        (Array_iter (_buckets self)) [].

(** [HashMap.values].  Each value is passed through [copy.copy]; a copy of
    an immutable value is that value, and a copy of an object has the
    fields of the object. *)
Definition HashMap_values (self : HashMap) : result (list V) :=
  foldM (fun values bucket =>
           match bucket with
           | Some chain => Ok (values ++ map value chain)
           | None => Raise TypeError
           end)
        (Array_iter (_buckets self)) [].

(** [HashMap.resize_and_rehash], given the [__setitem__] that
    [new_hash_map[key] = value] resolves to.  The last statement replaces
    the fields of [self] by those of the new map. *)
Definition resize_and_rehash_with (setitem : HashMap -> K -> V -> result HashMap)
    (self : HashMap) (new_table_size : Z) (new_hash_function : K -> Z -> result Z)
  : result HashMap :=
  new_hash_map ← HashMap_init new_table_size (Some new_hash_function)
                              default_load_factor_threshold;
  items ← HashMap_items self;
  foldM (fun m '(k, v) => setitem m k v) items new_hash_map.

(** [HashMap.__setitem__].  It calls [resize_and_rehash], which calls
    [__setitem__] on the new map; [depth] bounds how deep these calls may
    nest before the interpreter raises [RecursionError]. *)
Fixpoint setitem_rec (depth : nat) (self : HashMap) (k : K) (v : V) : result HashMap :=
  match depth with
  | O => Raise RecursionError
  | S depth' =>
      load_factor ← HashMap_load_factor self;
      self ← (if Qgtb load_factor (HashMap_load_factor_threshold self)
              then n ← _new_bucket_capacity self;
                   resize_and_rehash_with (setitem_rec depth') self n
                                          (_hash_function self)
              else Ok self);
      c ← HashMap_capacity self;
      bucket_number ← _hash_function self k c;
      chain ← bucket_chain self bucket_number;
      match find_pair k chain with
      | Some pr =>
          chain ← LinkedList_extract chain pr;
          Ok (set_bucket_chain self bucket_number
                (LinkedList_append chain (mkPair k v)) (_count self))
      | None =>
          Ok (set_bucket_chain self bucket_number
                (LinkedList_append chain (mkPair k v)) (_count self + 1))
      end
  end.

(** The nesting the interpreter allows: each level of rehashing takes two
    frames of its default limit of 1000. *)
Definition recursion_depth : nat := 500.

Definition HashMap_setitem (self : HashMap) (k : K) (v : V) : result HashMap :=
  setitem_rec recursion_depth self k v.

Definition HashMap_resize_and_rehash (self : HashMap) (new_table_size : Z)
    (new_hash_function : K -> Z -> result Z) : result HashMap :=
  resize_and_rehash_with HashMap_setitem self new_table_size new_hash_function.

(** [HashMap.__delitem__].  [_count] is left as it is. *)
Definition HashMap_delitem (self : HashMap) (k : K) : result HashMap :=
  c ← HashMap_capacity self;
  bucket_number ← _hash_function self k c;
  chain ← bucket_chain self bucket_number;
  match find_pair k chain with
  | Some pr =>
      chain ← LinkedList_extract chain pr;
      Ok (set_bucket_chain self bucket_number chain (_count self))
  | None => Raise KeyError
  end.

(** [HashMap()]: every argument at its default. *)
Definition HashMap_new : result HashMap :=
  HashMap_init 7 (Some default_hash_function) default_load_factor_threshold.

End HashMapModel.

Arguments Pair : clear implicits.
Arguments HashMap : clear implicits.
Arguments mkPair {K V} _ _.
Arguments mkHashMap {K V} _ _ _ _.

(** ** [graph.py]: classes [Graph], [_Vertex] and [_Edge] *)

(** A reference to a [_Vertex] object: its address in the object store. *)
Definition ref : Type := nat.

Section GraphModel.
Context {VD ED : Type} `{EqDecision VD} `{EqDecision ED}.
Variable pyhash : VD -> Z.

Record _Edge : Type := mkEdge {
  _destination_vertex : ref;
  _edge_data : ED;
  _weight : Q
}.

Record _Vertex : Type := mkVertex {
  _vertex_data : VD;
  _edges : LinkedList _Edge
}.

(** A graph owns a hash map from vertex data to [_Vertex] objects.  The
    objects are shared between the map and the edges that point to them,
    so they live in a store, [heap], and are named by their address. *)
Record Graph : Type := mkGraph {
  _vertices : HashMap VD ref;
  heap : list _Vertex
}.

Definition deref (store : list _Vertex) (r : ref) : result _Vertex :=
  match store !! r with
  | Some vertex => Ok vertex
  | None => Raise InvalidReference
  end.

(** [Graph.__init__]. *)
Definition Graph_init : result Graph :=
  vertices ← HashMap_new pyhash;
  Ok (mkGraph vertices []).

(** The property [Graph.vertices].  [HashMap.values] hands out a copy of
    each [_Vertex]: an object with the fields the vertex has at this point. *)
Definition Graph_vertices (self : Graph) : result (Array (option _Vertex)) :=
  values ← HashMap_values (_vertices self);
  foldM (fun vertices '(i, r) =>
           vertex ← deref (heap self) r;
           Array_setitem vertices (Z.of_nat i) (Some vertex))
        (zip (seq 0 (length values)) values)
        (Array_init (HashMap_len (_vertices self)) None).

(** [Graph.add_vertex]: [_Vertex(vertex_data)] is a new object with no
    edges. *)
Definition Graph_add_vertex (self : Graph) (vertex_data : VD) : result Graph :=
  let vertex : ref := length (heap self) in
  vertices ← HashMap_setitem (_vertices self) vertex_data vertex;
  Ok (mkGraph vertices (heap self ++ [mkVertex vertex_data LinkedList_init])).

(** [Graph.remove_vertex]. *)
Definition Graph_remove_vertex (self : Graph) (vertex_data : VD) : result Graph :=
  vertices ← HashMap_delitem (_vertices self) vertex_data;
  Ok (mkGraph vertices (heap self)).

(** The first half of [Graph.add_edge], once for each end: the vertex for
    [vertex_data], created if it is not in the map. *)
Definition vertex_for (self : Graph) (vertex_data : VD) : result (ref * Graph) :=
  present ← HashMap_contains (_vertices self) vertex_data;
  if negb present
  then let vertex : ref := length (heap self) in
       vertices ← HashMap_setitem (_vertices self) vertex_data vertex;
       Ok (vertex, mkGraph vertices (heap self ++ [mkVertex vertex_data LinkedList_init]))
  else vertex ← HashMap_getitem (_vertices self) vertex_data;
       Ok (vertex, self).

(** [_Vertex.add_edge], on the object at address [vertex]. *)
Definition _Vertex_add_edge (store : list _Vertex) (vertex : ref) (edge : _Edge)
  : result (list _Vertex) :=
  v ← deref store vertex;
  Ok (<[vertex := mkVertex (_vertex_data v) (LinkedList_append (_edges v) edge)]> store).

(** [Graph.add_edge]. *)
Definition Graph_add_edge (self : Graph) (vertex1_data vertex2_data : VD)
    (edge_data : ED) (weight : Q) : result Graph :=
  '(vertex1, self) ← vertex_for self vertex1_data;
  '(vertex2, self) ← vertex_for self vertex2_data;
  let edge := mkEdge vertex2 edge_data weight in
  store ← _Vertex_add_edge (heap self) vertex1 edge;
  Ok (mkGraph (_vertices self) store).

(** [Graph.edges_from]. *)
Definition Graph_edges_from (self : Graph) (vertex_data : VD)
  : result (Array (option _Edge)) :=
  present ← HashMap_contains (_vertices self) vertex_data;
  if (present : bool)
  then r ← HashMap_getitem (_vertices self) vertex_data;
       vertex ← deref (heap self) r;
       foldM (fun edges '(i, edge) => Array_setitem edges (Z.of_nat i) (Some edge))
             (zip (seq 0 (length (_edges vertex))) (_edges vertex))
             (Array_init (LinkedList_len (_edges vertex)) None)
  else Raise ValueError.

(** [vertex.data] and [vertex1.edges] in [Graph.remove_edge], where
    [vertex] is what iterating the hash map yields: a key, that is the
    vertex data itself.  Vertex data ([str] in the examples of the
    docstrings, the named tuple [Airport] in the program) has neither
    attribute; what is stated of the two reads is stated of graphs with
    vertex data of these two types. *)
Definition getattr_data (vertex : VD) : result VD := Raise AttributeError.

Definition getattr_edges (vertex : VD) : result (LinkedList _Edge) := Raise AttributeError.

(** [Graph.remove_edge].  The first loop runs over the keys of the map as
    the generator [HashMap.__iter__] yields them.  Its body stops at the
    first key with [AttributeError]; with no key, both [vertex1] and
    [vertex2] are still [None] after it. *)
Definition Graph_remove_edge (self : Graph) (vertex1_data vertex2_data : VD)
    (edge_data : ED) : result Graph :=
  '(vertex1, vertex2) ←
    foldM (fun found bucket =>
             match bucket with
             | None => Raise TypeError
             | Some chain =>
                 foldM (fun '(vertex1, vertex2) vertex =>
                          d ← getattr_data vertex;
                          if decide (d = vertex1_data) then Ok (Some vertex, vertex2)
                          else d ← getattr_data vertex;
                               if decide (d = vertex2_data) then Ok (vertex1, Some vertex)
                               else Ok (vertex1, vertex2))
                       (map key chain) found
             end)
          (Array_iter (_buckets (_vertices self))) (None, None);
  match vertex1, vertex2 with
  | Some vertex1, Some vertex2 =>
      edges ← getattr_edges vertex1;
      Raise AttributeError
  | _, _ => Raise ValueError
  end.

End GraphModel.

Arguments _Edge : clear implicits.
Arguments _Vertex : clear implicits.
Arguments Graph : clear implicits.
Arguments mkEdge {ED} _ _ _.
Arguments mkVertex {VD ED} _ _.
Arguments mkGraph {VD ED} _ _.

(** ** [program.py]: [Airport] and class [Dijkstra] *)

#[global] Instance Q_eq_dec : EqDecision Q.
Proof. solve_decision. Defined.

(** The named tuple [Airport].  A coordinate is the rational its float
    stands for, in lowest terms, so that equal tuples are equal records. *)
Record Airport : Type := mkAirport {
  airport_code : string;
  name : string;
  id : Z;
  city : string;
  country : string;
  latitude : Q;
  longitude : Q
}.

#[global] Instance Airport_eq_dec : EqDecision Airport.
Proof. solve_decision. Defined.

(** [x < y] on numbers. *)
Definition Qltb (x y : Q) : bool := Qgtb y x.

(** [round(x, 2)]: to the nearest multiple of 1/100, ties to even. *)
Definition round2 (x : Q) : Q :=
  let y := (x * 100)%Q in
  let f := Qfloor y in
  let r := (y - inject_Z f)%Q in
  let n := if Qltb r (1 # 2) then f
           else if Qgtb r (1 # 2) then f + 1
           else if Z.even f then f else f + 1 in
  Qred (inject_Z n / 100).

(** [str.upper] and [str.lower].  A [string] holds the bytes of a text.
    The two functions change the ASCII letters and leave every other byte
    as it is, which is what Python does to a text of ASCII characters.
    On other texts [str.upper] does more (it turns a sharp s into SS and
    puts accented letters in upper case), so what is stated of the lines
    that the user types is stated of lines that [ascii_only] accepts. *)
Definition upper_ascii (c : ascii) : ascii :=
  let n := nat_of_ascii c in
  if ((97 <=? n) && (n <=? 122))%nat then ascii_of_nat (n - 32) else c.

Definition lower_ascii (c : ascii) : ascii :=
  let n := nat_of_ascii c in
  if ((65 <=? n) && (n <=? 90))%nat then ascii_of_nat (n + 32) else c.

Fixpoint str_map (f : ascii -> ascii) (s : string) : string :=
  match s with
  | EmptyString => EmptyString
  | String c s' => String (f c) (str_map f s')
  end.

Definition upper (s : string) : string := str_map upper_ascii s.

Definition lower (s : string) : string := str_map lower_ascii s.

(** The texts of ASCII characters: every byte is below 128. *)
Fixpoint ascii_only (s : string) : bool :=
  match s with
  | EmptyString => true
  | String c s' => (nat_of_ascii c <? 128)%nat && ascii_only s'
  end.

(** What [run] prints, one constructor for each [print] of the source,
    with the values that are formatted into the line. *)
Inductive output : Type :=
| NotAvailable (code : string)
| NoCompleteRoute (origin_code destination_code : string)
| ShortestRouteIs (origin_code destination_code : string)
| Leg (previous_airport next_airport : string)
| TotalMiles (miles : Q).

Section ProgramModel.
Context {ED : Type} `{EqDecision ED}.
Variable pyhash_airport : Airport -> Z.
Variable pyhash_str : string -> Z.

Record Dijkstra : Type := mkDijkstra {
  _graph : Graph Airport ED;
  _distances_from_origin : HashMap Airport Q;
  _route_connections : HashMap Airport (option Airport);
  _shortest_route : ListStack string;
  _airports : HashMap string Airport
}.

(** [Dijkstra.__init__].  Reading [vertex_data] from an empty slot of the
    array of vertices is reading an attribute of [None]. *)
Definition Dijkstra_init (graph : Graph Airport ED) : result Dijkstra :=
  distances_from_origin ← HashMap_new pyhash_airport;
  route_connections ← HashMap_new pyhash_airport;
  airports ← HashMap_new pyhash_str;
  vertices ← Graph_vertices graph;
  airports ←
    foldM (fun airports airport =>
             match airport with
             | None => Raise AttributeError
             | Some airport =>
                 HashMap_setitem airports (airport_code (_vertex_data airport))
                                 (_vertex_data airport)
             end)
          (Array_iter vertices) airports;
  vertices ← Graph_vertices graph;
  '(distances_from_origin, route_connections) ←
    foldM (fun '(distances, connections) vertex =>
             match vertex with
             | None => Raise AttributeError
             | Some vertex =>
                 distances ← HashMap_setitem distances (_vertex_data vertex) (-1)%Q;
                 connections ← HashMap_setitem connections (_vertex_data vertex) None;
                 Ok (distances, connections)
             end)
          (Array_iter vertices) (distances_from_origin, route_connections);
  Ok (mkDijkstra graph distances_from_origin route_connections ListStack_init airports).

(** [self._distances_from_origin[vertex]] for an element of the working
    array: an empty slot, [None], is not a key of the table. *)
Definition distance_of (distances : HashMap Airport Q) (vertex : option Airport)
  : result Q :=
  match vertex with
  | Some vertex => HashMap_getitem distances vertex
  | None => Raise KeyError
  end.

(** The first [for] of the [while] body: the vertex of the working array
    with the smallest distance that is not the sentinel. *)
Definition select_minimum (distances : HashMap Airport Q)
    (vertex_array : Array (option Airport)) : result (option Airport) :=
  foldM (fun minimum_distance_vertex vertex =>
           d ← distance_of distances vertex;
           if Qgtb d (-1)
           then match minimum_distance_vertex with
                | None => Ok vertex
                | Some m =>
                    d ← distance_of distances vertex;
                    dm ← HashMap_getitem distances m;
                    if Qltb d dm then Ok vertex else Ok minimum_distance_vertex
                end
           else Ok minimum_distance_vertex)
        (Array_iter vertex_array) None.

(** The second [for]: [del vertex_array[i]] at the first [i] whose element
    equals the selected vertex. *)
Fixpoint delete_selected (indices : list Z) (vertex_array : Array (option Airport))
    (minimum_distance_vertex : option Airport) : result (Array (option Airport)) :=
  match indices with
  | [] => Ok vertex_array
  | i :: indices' =>
      x ← Array_getitem vertex_array i;
      if decide (x = minimum_distance_vertex)
      then Array_delitem vertex_array i
      else delete_selected indices' vertex_array minimum_distance_vertex
  end.

(** The body of the last [for]: one edge out of the selected vertex. *)
Definition relax (graph : Graph Airport ED) (minimum_distance_vertex : Airport)
    (tables : HashMap Airport Q * HashMap Airport (option Airport))
    (route : option (_Edge ED))
  : result (HashMap Airport Q * HashMap Airport (option Airport)) :=
  let '(distances, connections) := tables in
  match route with
  | None => Raise AttributeError
  | Some route =>
      dm ← HashMap_getitem distances minimum_distance_vertex;
      let path := (dm + _weight route)%Q in
      destination ← deref (heap graph) (_destination_vertex route);
      d ← HashMap_getitem distances (_vertex_data destination);
      improves ← (if Qeq_bool d (-1) then Ok true
                  else d ← HashMap_getitem distances (_vertex_data destination);
                       Ok (Qltb path d));
      if (improves : bool)
      then distances ← HashMap_setitem distances (_vertex_data destination) path;
           connections ← HashMap_setitem connections (_vertex_data destination)
                                         (Some minimum_distance_vertex);
           Ok (distances, connections)
      else Ok (distances, connections)
  end.

(** The [while] loop of [find_shortest_paths]. *)
Fixpoint shortest_paths_loop (fuel : nat) (graph : Graph Airport ED)
    (tables : HashMap Airport Q * HashMap Airport (option Airport))
    (vertex_array : Array (option Airport))
  : result (HashMap Airport Q * HashMap Airport (option Airport)) :=
  n ← Array_len vertex_array;
  if n =? 0 then Ok tables
  else
    match fuel with
    | O => Raise OutOfFuel
    | S fuel' =>
        minimum_distance_vertex ← select_minimum (fst tables) vertex_array;
        vertex_array ← delete_selected (seqZ 0 n) vertex_array minimum_distance_vertex;
        match minimum_distance_vertex with
        | None => Ok tables
        | Some u =>
            routes_array ← Graph_edges_from graph u;
            tables ← foldM (relax graph u) (Array_iter routes_array) tables;
            shortest_paths_loop fuel' graph tables vertex_array
        end
    end.

(** [Dijkstra.find_shortest_paths]. *)
Definition find_shortest_paths (self : Dijkstra) (origin : Airport) : result Dijkstra :=
  let vertex_array := Array_init (HashMap_len (_airports self)) None in
  connections ← HashMap_setitem (_route_connections self) origin None;
  distances ← HashMap_setitem (_distances_from_origin self) origin 0%Q;
  values ← HashMap_values (_airports self);
  '(distances, vertex_array) ←
    foldM (fun '(distances, vertex_array) '(index, vertex) =>
             distances ← (if decide (vertex <> origin)
                          then HashMap_setitem distances vertex (-1)%Q
                          else Ok distances);
             vertex_array ← Array_setitem vertex_array (Z.of_nat index) (Some vertex);
             Ok (distances, vertex_array))
          (zip (seq 0 (length values)) values) (distances, vertex_array);
  '(distances, connections) ←
    shortest_paths_loop (S (length (_items vertex_array))) (_graph self)
                        (distances, connections) vertex_array;
  Ok (mkDijkstra (_graph self) distances connections (_shortest_route self)
                 (_airports self)).

(** [ask_origin_airport] and [ask_destination_airport]: lines are read
    until one names an airport.  [inputs] are the lines that [input] will
    return; reading past the last one is [EOFError]. *)
Fixpoint ask_airport (airports : HashMap string Airport) (inputs : list string)
  : result (Airport * list string * list output) :=
  match inputs with
  | [] => Raise EOFError
  | line :: inputs' =>
      let code := upper line in
      present ← HashMap_contains airports code;
      if (present : bool)
      then airport ← HashMap_getitem airports code;
           Ok (airport, inputs', [])
      else '(airport, rest, printed) ← ask_airport airports inputs';
           Ok (airport, rest, NotAvailable code :: printed)
  end.

(** The first [while] of [run]: walk the connections back from the
    destination, pushing the codes.  The flag is [route]. *)
Fixpoint walk_back (fuel : nat) (connections : HashMap Airport (option Airport))
    (stack : ListStack string) (origin_airport vertex : Airport)
  : result (ListStack string * bool) :=
  if decide (vertex = origin_airport) then Ok (stack, true)
  else
    match fuel with
    | O => Raise OutOfFuel
    | S fuel' =>
        let stack := ListStack_push stack (airport_code vertex) in
        previous ← HashMap_getitem connections vertex;
        match previous with
        | None => Ok (stack, false)
        | Some vertex' => walk_back fuel' connections stack origin_airport vertex'
        end
    end.

(** The second [while] of [run]: pop and print the legs. *)
Fixpoint print_legs (fuel : nat) (stack : ListStack string) (previous_airport : string)
  : result (ListStack string * list output) :=
  if ListStack_empty stack then Ok (stack, [])
  else
    match fuel with
    | O => Raise OutOfFuel
    | S fuel' =>
        '(next_airport, stack) ← ListStack_pop stack;
        '(stack, printed) ← print_legs fuel' stack next_airport;
        Ok (stack, Leg previous_airport next_airport :: printed)
    end.

(** [Dijkstra.run].  It returns the object as the call leaves it, the
    lines of input not read and the lines printed.  Each call reads at
    least three lines, so [fuel] need not exceed the number of lines. *)
Fixpoint run_rec (fuel : nat) (self : Dijkstra) (inputs : list string)
  : result (Dijkstra * list string * list output) :=
  match fuel with
  | O => Raise EOFError
  | S fuel' =>
      '(origin_airport, inputs, printed1) ← ask_airport (_airports self) inputs;
      '(destination_airport, inputs, printed2) ← ask_airport (_airports self) inputs;
      self ← find_shortest_paths self origin_airport;
      '(stack, route) ←
        walk_back (S (Z.to_nat (HashMap_len (_route_connections self))))
                  (_route_connections self) (_shortest_route self)
                  origin_airport destination_airport;
      '(stack, printed3) ←
        (if (route : bool)
         then '(stack, legs) ← print_legs (S (length (_stack stack))) stack
                                          (airport_code origin_airport);
              total ← HashMap_getitem (_distances_from_origin self) destination_airport;
              Ok (stack,
                  ShortestRouteIs (airport_code origin_airport)
                                  (airport_code destination_airport)
                  :: legs ++ [TotalMiles (round2 total)])
         else Ok (stack,
                  [NoCompleteRoute (airport_code origin_airport)
                                   (airport_code destination_airport)]));
      let self := mkDijkstra (_graph self) (_distances_from_origin self)
                             (_route_connections self) stack (_airports self) in
      match inputs with
      | [] => Raise EOFError
      | play_again :: inputs =>
          if decide (lower play_again = "yes")
          then '(self, inputs, printed4) ← run_rec fuel' self inputs;
               Ok (self, inputs, printed1 ++ printed2 ++ printed3 ++ printed4)
          else Ok (self, inputs, printed1 ++ printed2 ++ printed3)
      end
  end.

Definition Dijkstra_run (self : Dijkstra) (inputs : list string)
  : result (Dijkstra * list string * list output) :=
  run_rec (length inputs) self inputs.

End ProgramModel.

Arguments Dijkstra : clear implicits.
Arguments mkDijkstra {ED} _ _ _ _ _.

Lemma is_prime_spec p : is_prime p = true <-> prime p.
Proof.
  unfold is_prime. rewrite andb_true_iff, forallb_forall, Z.ltb_lt, <- prime_alt.
  unfold Z.prime. split; intros [Hp H]; split; try done.
  - intros n Hn Hd. specialize (H n).
    rewrite negb_true_iff, Z.eqb_neq in H. apply H.
    + apply list_elem_of_In, elem_of_seqZ. lia.
    + apply Z.mod_divide; [lia | done].
  - intros d Hd%list_elem_of_In%elem_of_seqZ.
    rewrite negb_true_iff, Z.eqb_neq. intros Hm.
    apply (H d); [lia|]. apply Z.mod_divide; [lia | done].
Qed.

Lemma first_prime_from_spec d p :
  match first_prime_from d p with
  | Some q => prime q /\ p <= q < p + 2 ^ Z.of_nat d /\
              forall r, p <= r < q -> ~ prime r
  | None => forall r, p <= r < p + 2 ^ Z.of_nat d -> ~ prime r
  end.
Proof.
  revert p. induction d as [|d IH]; intros p.
  - simpl. destruct (is_prime p) eqn:E.
    + apply is_prime_spec in E. split; [done|]. split; [lia|]. intros; lia.
    + intros r Hr. assert (r = p) as -> by lia.
      rewrite <- is_prime_spec. congruence.
  - cbn [first_prime_from].
    assert (2 ^ Z.of_nat (S d) = 2 ^ Z.of_nat d + 2 ^ Z.of_nat d) as ->.
    { rewrite Nat2Z.inj_succ, Z.pow_succ_r; lia. }
    pose proof (Z.pow_pos_nonneg 2 (Z.of_nat d)) as Hpos.
    pose proof (IH p) as H1. destruct (first_prime_from d p) as [q|].
    + destruct H1 as (? & ? & ?). split; [done|]. split; [lia|]. done.
    + pose proof (IH (p + 2 ^ Z.of_nat d)) as H2.
      destruct (first_prime_from d (p + 2 ^ Z.of_nat d)) as [q|].
      * destruct H2 as (? & ? & H2). split; [done|]. split; [lia|].
        intros r Hr. destruct (decide (r < p + 2 ^ Z.of_nat d)).
        -- apply H1; lia.
        -- apply H2; lia.
      * intros r Hr. destruct (decide (r < p + 2 ^ Z.of_nat d)).
        -- apply H1; lia.
        -- apply H2; lia.
Qed.

Lemma prime_divisor_exists n : 1 < n -> exists q, prime q /\ (q | n).
Proof.
  destruct (decide (0 <= n)) as [H0|]; [|lia]. revert n H0.
  apply (Z_lt_induction (fun n => 1 < n -> exists q, prime q /\ (q | n))).
  intros n IH Hn.
  destruct (prime_dec n) as [|Hnp]; [exists n; split; [done | apply Z.divide_refl]|].
  destruct (not_prime_divide n Hn Hnp) as (m & Hm & Hd).
  destruct (IH m) as (q & Hq & Hqm); [lia | lia |].
  exists q. split; [done|]. by apply Z.divide_trans with m.
Qed.

Lemma divide_fact (k n : nat) : (1 <= k <= n)%nat -> (Z.of_nat k | Z.of_nat (fact n)).
Proof.
  induction n as [|n IH]; [lia|]. intros Hk.
  change (fact (S n)) with (S n * fact n)%nat. rewrite Nat2Z.inj_mul.
  destruct (decide (k = S n)) as [->|].
  - apply Z.divide_mul_l, Z.divide_refl.
  - apply Z.divide_mul_r, IH. lia.
Qed.

Lemma fact_bound (n : nat) : (fact n <= 2 ^ (n * n))%nat.
Proof.
  induction n as [|n IH]; [simpl; lia|].
  change (fact (S n)) with (S n * fact n)%nat.
  assert (S n * S n = S n + (n * n + n))%nat as -> by lia.
  rewrite !Nat.pow_add_r.
  pose proof (Nat.pow_gt_lin_r 2 (S n)).
  assert (1 <= 2 ^ n)%nat by (apply Nat.neq_0_lt_0, Nat.pow_nonzero; lia).
  transitivity (2 ^ S n * 2 ^ (n * n))%nat; [apply Nat.mul_le_mono; lia|].
  apply Nat.mul_le_mono_l. nia.
Qed.

Lemma prime_in_window m :
  1 <= m -> exists q, prime q /\ m + 1 <= q < m + 1 + 2 ^ Z.of_nat (Z.to_nat (m * m)).
Proof.
  intros Hm. set (k := Z.to_nat m).
  destruct (prime_divisor_exists (Z.of_nat (fact k) + 1)) as (q & Hq & Hd).
  { pose proof (lt_O_fact k). lia. }
  assert (2 <= q) as Hq2 by (destruct Hq; lia).
  exists q. split; [done|]. split.
  - destruct (decide (m + 1 <= q)) as [|Hlt]; [done|]. exfalso.
    assert (q | Z.of_nat (fact k)) as Hqf.
    { replace q with (Z.of_nat (Z.to_nat q)) by lia. apply divide_fact. lia. }
    assert (q | 1) as H1.
    { replace 1 with (Z.of_nat (fact k) + 1 - Z.of_nat (fact k)) by lia.
      by apply Z.divide_sub_r. }
    apply Z.divide_1_r_nonneg in H1; lia.
  - apply Z.divide_pos_le in Hd; [|pose proof (lt_O_fact k); lia].
    pose proof (fact_bound k) as Hb. apply Nat2Z.inj_le in Hb.
    rewrite Nat2Z.inj_pow in Hb.
    assert (Z.to_nat (m * m) = (k * k)%nat) as -> by lia.
    change (Z.of_nat 2) with 2 in Hb. lia.
Qed.

Lemma nextprime_spec n : least_prime_above n (nextprime n).
Proof.
  unfold nextprime, least_prime_above.
  set (m := Z.max n 1). assert (1 <= m) as Hm by lia.
  pose proof (first_prime_from_spec (Z.to_nat (m * m)) (m + 1)) as Hs.
  destruct (first_prime_from _ _) as [p|]; simpl.
  - destruct Hs as (Hp & Hr & Hmin). split; [done|]. split; [lia|].
    intros q Hq Hnq. assert (2 <= q) by (destruct Hq; lia).
    destruct (decide (p <= q)); [done|]. exfalso. apply (Hmin q); [lia | done].
  - destruct (prime_in_window m Hm) as (q & Hq & Hw). by destruct (Hs q Hw).
Qed.

(** ** Results *)

Lemma bind_Ok {A B : Type} (f : A -> result B) (a : A) : (Ok a ≫= f) = f a.
Proof. reflexivity. Qed.

Lemma bind_Raise {A B : Type} (f : A -> result B) (e : exn) : (Raise e ≫= f) = Raise e.
Proof. reflexivity. Qed.

Lemma foldM_app {A S : Type} (body : S -> A -> result S) (xs ys : list A) (acc : S) :
  foldM body (xs ++ ys) acc = (foldM body xs acc ≫= foldM body ys).
Proof.
  revert acc. induction xs as [|x xs IH]; intros acc; simpl; [done|].
  destruct (body acc x); simpl; [apply IH | done].
Qed.

(** ** Arrays *)

Lemma Array_setitem_Ok {A : Type} (a : Array A) (i : nat) (x : A) :
  (i < length (_items a))%nat ->
  Array_setitem a (Z.of_nat i) x =
  Ok (mkArray (<[i := x]> (_items a)) (_physical_size a) (_logical_size a)
              (_default_item_value a)).
Proof.
  intros Hi. unfold Array_setitem.
  destruct (Z.ltb_spec (Z.of_nat i) 0); [lia|].
  destruct (Z.leb_spec (Z.of_nat (length (_items a))) (Z.of_nat i)); [lia|].
  simpl. by rewrite Nat2Z.id.
Qed.

Lemma Array_getitem_Ok {A : Type} (a : Array A) (i : nat) (x : A) :
  _items a !! i = Some x -> Array_getitem a (Z.of_nat i) = Ok x.
Proof.
  intros Hi. unfold Array_getitem. apply lookup_lt_Some in Hi as Hlt.
  destruct (Z.ltb_spec (Z.of_nat i) 0); [lia|].
  destruct (Z.leb_spec (Z.of_nat (length (_items a))) (Z.of_nat i)); [lia|].
  simpl. by rewrite Nat2Z.id, Hi.
Qed.

(** ** Floats as rationals *)

Lemma Qgtb_load_factor (n c : Z) :
  0 < c ->
  Qgtb (inject_Z n / inject_Z c) default_load_factor_threshold = (3 * c <? 5 * n).
Proof.
  intros Hc. unfold Qgtb, Qle_bool, default_load_factor_threshold.
  destruct c as [|c|c]; try lia.
  unfold Qdiv, Qinv, Qmult, inject_Z. simpl Qnum. simpl Qden.
  rewrite Pos.mul_1_l.
  destruct (Z.leb_spec (n * 1 * 10) (6 * Z.pos c)), (Z.ltb_spec (3 * Z.pos c) (5 * n));
    simpl; lia.
Qed.

Lemma Qtrunc_new_capacity (n : Z) :
  Qtrunc (inject_Z n / default_load_factor_threshold) = (n * 10) ÷ 6.
Proof. reflexivity. Qed.

Lemma nextprime_above_load (n : Z) :
  0 <= n -> 5 * n < 3 * nextprime ((n * 10) ÷ 6).
Proof.
  intros Hn. rewrite Z.quot_div_nonneg by lia.
  destruct (nextprime_spec ((n * 10) / 6)) as (_ & Hlt & _).
  pose proof (Z.mul_succ_div_gt (n * 10) 6). lia.
Qed.

Lemma nextprime_ge_2 (n : Z) : 2 <= nextprime n.
Proof. destruct (nextprime_spec n) as ([? _] & _). lia. Qed.

(** ** Chains *)

Section Chains.
Context {K V : Type} `{EqDecision K} `{EqDecision V}.
Implicit Types (k : K) (v : V) (p q : Pair K V) (chain : LinkedList (Pair K V)).

(** The chain without the pairs whose key is [k]. *)
Fixpoint drop_key k chain : LinkedList (Pair K V) :=
  match chain with
  | [] => []
  | q :: chain' =>
      if decide (key q = k) then drop_key k chain' else q :: drop_key k chain'
  end.

Lemma elem_of_drop_key k chain q :
  q ∈ drop_key k chain <-> q ∈ chain /\ key q <> k.
Proof.
  induction chain as [|q' chain IH]; simpl.
  - split; [by intros ?%elem_of_nil | by intros [?%elem_of_nil _]].
  - destruct (decide (key q' = k)) as [Hk|Hk]; rewrite ?elem_of_cons, IH.
    + split; [tauto|]. intros [[->|?] ?]; tauto.
    + split; [intros [->|[]]; tauto | tauto].
Qed.

Lemma drop_key_absent k chain : k ∉ key <$> chain -> drop_key k chain = chain.
Proof.
  induction chain as [|q chain IH]; [done|]. rewrite fmap_cons, not_elem_of_cons.
  intros [Hq Hk]. simpl. rewrite decide_False by congruence. by rewrite IH.
Qed.

Lemma NoDup_drop_key k chain :
  NoDup (key <$> chain) -> NoDup (key <$> drop_key k chain).
Proof.
  induction chain as [|q chain IH]; [done|].
  rewrite fmap_cons, NoDup_cons. intros [Hq Hnd]. simpl.
  destruct (decide (key q = k)); [by apply IH|].
  rewrite fmap_cons, NoDup_cons. split; [|by apply IH].
  intros (q' & Hk & [Hin _]%elem_of_drop_key)%list_elem_of_fmap.
  apply Hq. rewrite Hk. by apply list_elem_of_fmap_2.
Qed.

Lemma find_pair_Some k chain p :
  find_pair k chain = Some p -> p ∈ chain /\ key p = k.
Proof.
  unfold find_pair. intros Hf. apply find_some in Hf as [Hin Hk].
  split; [by apply list_elem_of_In | by apply bool_decide_eq_true in Hk].
Qed.

Lemma find_pair_None k chain :
  find_pair k chain = None <-> k ∉ key <$> chain.
Proof.
  unfold find_pair. induction chain as [|q chain IH]; simpl.
  - split; [intros _; apply not_elem_of_nil | done].
  - rewrite not_elem_of_cons. destruct (bool_decide_reflect (key q = k)) as [Hq|Hq].
    + split; [done | intros [? _]; congruence].
    + rewrite IH. split; [intros ?; split; [congruence | done] | by intros [_ ?]].
Qed.

Lemma find_pair_unique k v chain :
  NoDup (key <$> chain) -> mkPair k v ∈ chain -> find_pair k chain = Some (mkPair k v).
Proof.
  unfold find_pair. induction chain as [|q chain IH]; [by intros _ ?%elem_of_nil|].
  rewrite fmap_cons, NoDup_cons, elem_of_cons. intros [Hq Hnd] [<-|Hin]; simpl.
  - by rewrite bool_decide_eq_true_2.
  - rewrite bool_decide_eq_false_2; [by apply IH|].
    intros Hk. apply Hq. rewrite Hk.
    by apply (list_elem_of_fmap_2 key) in Hin.
Qed.

Lemma find_pair_app k chain chain' :
  find_pair k (chain ++ chain') =
  match find_pair k chain with Some p => Some p | None => find_pair k chain' end.
Proof.
  unfold find_pair. induction chain as [|q chain IH]; simpl; [done|].
  by destruct (bool_decide (key q = k)).
Qed.

Lemma find_pair_drop_eq k chain : find_pair k (drop_key k chain) = None.
Proof.
  apply find_pair_None. intros (q & Hq & Hin%elem_of_drop_key)%list_elem_of_fmap.
  destruct Hin as [_ Hne]. by apply Hne.
Qed.

Lemma find_pair_drop_ne k k' chain :
  k' <> k -> find_pair k' (drop_key k chain) = find_pair k' chain.
Proof.
  intros Hne. unfold find_pair. induction chain as [|q chain IH]; [done|].
  simpl. destruct (decide (key q = k)) as [Hq|Hq]; simpl.
  - rewrite bool_decide_eq_false_2 by congruence. exact IH.
  - destruct (bool_decide (key q = k')); [done | exact IH].
Qed.

(** With distinct keys in the chain, extracting the pair that the search
    for [k] has found leaves the chain without [k]. *)
Lemma remove_first_unique k chain p :
  NoDup (key <$> chain) -> find_pair k chain = Some p ->
  remove_first p chain = Some (drop_key k chain) /\
  length chain = S (length (drop_key k chain)).
Proof.
  unfold find_pair. induction chain as [|q chain IH]; simpl; [done|].
  rewrite NoDup_cons. intros [Hq Hnd].
  destruct (bool_decide_reflect (key q = k)) as [Hk|Hk].
  - intros [= ->]. rewrite !decide_True by done.
    rewrite drop_key_absent; [done | by rewrite <- Hk].
  - intros Hf. destruct (IH Hnd Hf) as [Hr Hl].
    apply find_pair_Some in Hf as [_ Hp].
    rewrite !decide_False by congruence.
    rewrite Hr. simpl. by rewrite Hl.
Qed.

Lemma NoDup_keys_put k v chain :
  NoDup (key <$> chain) -> NoDup (key <$> (drop_key k chain ++ [mkPair k v])).
Proof.
  intros Hnd. rewrite fmap_app. apply NoDup_app. split; [|split].
  - by apply NoDup_drop_key.
  - intros x (q & -> & [_ Hq]%elem_of_drop_key)%list_elem_of_fmap.
    simpl. rewrite list_elem_of_singleton. done.
  - simpl. apply NoDup_singleton.
Qed.

End Chains.

(** ** Tables *)

Arguments setitem_rec : simpl never.

Section Tables.
Context {K V : Type} `{EqDecision K} `{EqDecision V}.
Implicit Types (k : K) (v : V) (p q : Pair K V) (chain : LinkedList (Pair K V)).
Implicit Types (cs : list (LinkedList (Pair K V))) (hf : K -> Z -> result Z).

(** The hash map whose buckets hold the chains [cs]: what the constructor
    and the methods build. *)
Definition table cs hf (count : Z) : HashMap K V :=
  mkHashMap (mkArray (Some <$> cs) (Z.of_nat (length cs)) (Z.of_nat (length cs)) None)
            hf default_load_factor_threshold count.

(** A hash function returns a bucket number for every capacity. *)
Definition hash_ok hf : Prop :=
  forall k c, 0 < c -> exists b, hf k c = Ok b /\ 0 <= b < c.

(** The bucket of [k] among [n]. *)
Definition slot hf k (n : nat) : nat :=
  match hf k (Z.of_nat n) with
  | Ok b => Z.to_nat b
  | Raise _ => O
  end.

(** Every pair is in the bucket of its key, and no chain repeats a key. *)
Definition chains_ok cs hf : Prop :=
  (0 < length cs)%nat /\
  (forall i chain p, cs !! i = Some chain -> p ∈ chain ->
                     slot hf (key p) (length cs) = i) /\
  Forall (fun chain => NoDup (key <$> chain)) cs.

(** The number of pairs stored. *)
Definition stored cs : Z := Z.of_nat (length (concat cs)).

(** The value found for [k]. *)
Definition tlookup cs hf k : option V :=
  chain ← cs !! slot hf k (length cs); value <$> find_pair k chain.

(** [cs] with [k] bound to [v], and [cs] without [k]. *)
Definition tput cs hf k v : list (LinkedList (Pair K V)) :=
  let i := slot hf k (length cs) in
  <[i := drop_key k (default [] (cs !! i)) ++ [mkPair k v]]> cs.

Definition tdrop cs hf k : list (LinkedList (Pair K V)) :=
  let i := slot hf k (length cs) in
  <[i := drop_key k (default [] (cs !! i))]> cs.

Lemma hash_slot hf k (n : nat) :
  hash_ok hf -> (0 < n)%nat ->
  hf k (Z.of_nat n) = Ok (Z.of_nat (slot hf k n)) /\ (slot hf k n < n)%nat.
Proof.
  intros Hok Hn. unfold slot. destruct (Hok k (Z.of_nat n)) as (b & -> & Hb); [lia|].
  split; [f_equal|]; lia.
Qed.

Lemma capacity_table cs hf c :
  HashMap_capacity (table cs hf c) = Ok (Z.of_nat (length cs)).
Proof.
  unfold HashMap_capacity, Array_len, table. simpl.
  by destruct (Z.ltb_spec (Z.of_nat (length cs)) 0); [lia|].
Qed.

Lemma bucket_chain_table cs hf c (i : nat) chain :
  cs !! i = Some chain -> bucket_chain (table cs hf c) (Z.of_nat i) = Ok chain.
Proof.
  intros Hi. unfold bucket_chain, Array_getitem, table. simpl.
  apply lookup_lt_Some in Hi as Hlt. rewrite length_fmap.
  destruct (Z.ltb_spec (Z.of_nat i) 0); [lia|].
  destruct (Z.leb_spec (Z.of_nat (length cs)) (Z.of_nat i)); [lia|]. simpl.
  by rewrite Nat2Z.id, list_lookup_fmap, Hi.
Qed.

Lemma set_bucket_chain_table cs hf c (i : nat) chain c' :
  set_bucket_chain (table cs hf c) (Z.of_nat i) chain c' = table (<[i := chain]> cs) hf c'.
Proof.
  unfold set_bucket_chain, table. simpl.
  by rewrite Nat2Z.id, list_fmap_insert, length_insert.
Qed.

Lemma load_factor_table cs hf c :
  (0 < length cs)%nat ->
  HashMap_load_factor (table cs hf c) = Ok (inject_Z c / inject_Z (Z.of_nat (length cs)))%Q.
Proof.
  intros Hn. unfold HashMap_load_factor. rewrite capacity_table. simpl.
  by destruct (Z.eqb_spec (Z.of_nat (length cs)) 0); [lia|].
Qed.

(** The chain that the methods search for [k]. *)
Lemma chain_of_key cs hf c k :
  hash_ok hf -> (0 < length cs)%nat ->
  exists chain, cs !! slot hf k (length cs) = Some chain /\
    (cap ← HashMap_capacity (table cs hf c);
     bucket_number ← hf k cap;
     chain ← bucket_chain (table cs hf c) bucket_number;
     Ok (bucket_number, chain)) = Ok (Z.of_nat (slot hf k (length cs)), chain).
Proof.
  intros Hok Hn. destruct (hash_slot hf k (length cs) Hok Hn) as [Hh Hlt].
  destruct (lookup_lt_is_Some_2 cs _ Hlt) as [chain Hc].
  exists chain. split; [done|].
  rewrite capacity_table. simpl. rewrite Hh. simpl.
  by rewrite (bucket_chain_table _ _ _ _ _ Hc).
Qed.

Lemma getitem_table cs hf c k :
  hash_ok hf -> (0 < length cs)%nat ->
  HashMap_getitem (table cs hf c) k =
  match tlookup cs hf k with Some v => Ok v | None => Raise KeyError end.
Proof.
  intros Hok Hn. destruct (hash_slot hf k (length cs) Hok Hn) as [Hh Hlt].
  destruct (lookup_lt_is_Some_2 cs _ Hlt) as [chain Hc].
  unfold HashMap_getitem, tlookup. rewrite capacity_table. simpl.
  rewrite Hh. simpl. rewrite (bucket_chain_table _ _ _ _ _ Hc), Hc. simpl.
  by destruct (find_pair k chain).
Qed.

Lemma contains_table cs hf c k :
  hash_ok hf -> (0 < length cs)%nat ->
  HashMap_contains (table cs hf c) k =
  Ok (match tlookup cs hf k with Some _ => true | None => false end).
Proof.
  intros Hok Hn. destruct (hash_slot hf k (length cs) Hok Hn) as [Hh Hlt].
  destruct (lookup_lt_is_Some_2 cs _ Hlt) as [chain Hc].
  unfold HashMap_contains, tlookup. rewrite capacity_table. simpl.
  rewrite Hh. simpl. rewrite (bucket_chain_table _ _ _ _ _ Hc), Hc. simpl.
  by destruct (find_pair k chain).
Qed.

Lemma delitem_table cs hf c k :
  hash_ok hf -> chains_ok cs hf ->
  HashMap_delitem (table cs hf c) k =
  match tlookup cs hf k with
  | Some _ => Ok (table (tdrop cs hf k) hf c)
  | None => Raise KeyError
  end.
Proof.
  intros Hok (Hn & _ & Hnd). destruct (hash_slot hf k (length cs) Hok Hn) as [Hh Hlt].
  destruct (lookup_lt_is_Some_2 cs _ Hlt) as [chain Hc].
  unfold HashMap_delitem, tlookup, tdrop. cbv zeta. rewrite Hc, capacity_table. simpl.
  rewrite Hh. simpl. rewrite (bucket_chain_table _ _ _ _ _ Hc). simpl.
  destruct (find_pair k chain) as [p|] eqn:Hf; simpl; [|done].
  rewrite Forall_lookup in Hnd.
  destruct (remove_first_unique k chain p (Hnd _ _ Hc) Hf) as [Hr _].
  unfold LinkedList_extract. rewrite Hr. simpl.
  by rewrite set_bucket_chain_table.
Qed.

(** The statements of [__setitem__] that follow the check of the load
    factor. *)
Definition insert_pair (self : HashMap K V) k v : result (HashMap K V) :=
  c ← HashMap_capacity self;
  bucket_number ← _hash_function self k c;
  chain ← bucket_chain self bucket_number;
  match find_pair k chain with
  | Some pr =>
      chain ← LinkedList_extract chain pr;
      Ok (set_bucket_chain self bucket_number
            (LinkedList_append chain (mkPair k v)) (_count self))
  | None =>
      Ok (set_bucket_chain self bucket_number
            (LinkedList_append chain (mkPair k v)) (_count self + 1))
  end.

Lemma setitem_rec_unfold d (self : HashMap K V) k v :
  setitem_rec (S d) self k v =
  (load_factor ← HashMap_load_factor self;
   self ← (if Qgtb load_factor (HashMap_load_factor_threshold self)
           then n ← _new_bucket_capacity self;
                resize_and_rehash_with (setitem_rec d) self n (_hash_function self)
           else Ok self);
   insert_pair self k v).
Proof. reflexivity. Qed.

Lemma insert_pair_table cs hf c k v :
  hash_ok hf -> chains_ok cs hf ->
  insert_pair (table cs hf c) k v =
  Ok (table (tput cs hf k v) hf
            (match tlookup cs hf k with Some _ => c | None => c + 1 end)).
Proof.
  intros Hok (Hn & _ & Hnd).
  destruct (hash_slot hf k (length cs) Hok Hn) as [Hh Hlt].
  destruct (lookup_lt_is_Some_2 cs _ Hlt) as [chain Hc].
  unfold insert_pair. rewrite capacity_table. simpl. rewrite Hh. simpl.
  rewrite (bucket_chain_table _ _ _ _ _ Hc). simpl.
  unfold tlookup, tput. cbv zeta. rewrite Hc. simpl.
  destruct (find_pair k chain) as [p|] eqn:Hf; simpl.
  - rewrite Forall_lookup in Hnd.
    destruct (remove_first_unique k chain p (Hnd _ _ Hc) Hf) as [Hr _].
    unfold LinkedList_extract. rewrite Hr. simpl.
    by rewrite set_bucket_chain_table.
  - rewrite set_bucket_chain_table. unfold LinkedList_append.
    apply find_pair_None in Hf. by rewrite (drop_key_absent _ _ Hf).
Qed.

Lemma load_check_table cs hf c :
  (0 < length cs)%nat ->
  (load_factor ← HashMap_load_factor (table cs hf c);
   Ok (Qgtb load_factor (HashMap_load_factor_threshold (table cs hf c))))
  = Ok (3 * Z.of_nat (length cs) <? 5 * c).
Proof.
  intros Hn. rewrite load_factor_table by done. simpl.
  unfold HashMap_load_factor_threshold. cbn [_load_factor_threshold table].
  by rewrite Qgtb_load_factor by lia.
Qed.

(** [__setitem__] below the load-factor threshold. *)
Lemma setitem_table_no_resize d cs hf c k v :
  hash_ok hf -> chains_ok cs hf -> 5 * c <= 3 * Z.of_nat (length cs) ->
  setitem_rec (S d) (table cs hf c) k v =
  Ok (table (tput cs hf k v) hf
            (match tlookup cs hf k with Some _ => c | None => c + 1 end)).
Proof.
  intros Hok Hcs Hload. rewrite setitem_rec_unfold.
  destruct Hcs as (Hn & ?). rewrite load_factor_table by done. simpl.
  unfold HashMap_load_factor_threshold. cbn [_load_factor_threshold table].
  rewrite Qgtb_load_factor by lia.
  destruct (Z.ltb_spec (3 * Z.of_nat (length cs)) (5 * c)); [lia|]. simpl.
  by apply insert_pair_table.
Qed.

Lemma length_tput cs hf k v : length (tput cs hf k v) = length cs.
Proof. unfold tput. apply length_insert. Qed.

Lemma length_tdrop cs hf k : length (tdrop cs hf k) = length cs.
Proof. unfold tdrop. apply length_insert. Qed.

Lemma tlookup_tput cs hf k v k' :
  hash_ok hf -> (0 < length cs)%nat ->
  tlookup (tput cs hf k v) hf k' = if decide (k' = k) then Some v else tlookup cs hf k'.
Proof.
  intros Hok Hn. destruct (hash_slot hf k (length cs) Hok Hn) as [_ Hlt].
  destruct (lookup_lt_is_Some_2 cs _ Hlt) as [chain Hc].
  unfold tlookup. rewrite length_tput. unfold tput. cbv zeta. rewrite Hc. simpl.
  destruct (decide (k' = k)) as [->|Hne].
  - rewrite list_lookup_insert_eq by done. simpl.
    rewrite find_pair_app, find_pair_drop_eq. unfold find_pair. simpl.
    by rewrite bool_decide_eq_true_2.
  - destruct (decide (slot hf k' (length cs) = slot hf k (length cs))) as [Hs|Hs].
    + rewrite Hs, list_lookup_insert_eq, Hc by done. simpl.
      rewrite find_pair_app, find_pair_drop_ne by done.
      destruct (find_pair k' chain); [done|]. unfold find_pair. simpl.
      by rewrite bool_decide_eq_false_2 by (simpl; congruence).
    + by rewrite list_lookup_insert_ne.
Qed.

Lemma tlookup_tdrop cs hf k k' :
  hash_ok hf -> (0 < length cs)%nat ->
  tlookup (tdrop cs hf k) hf k' = if decide (k' = k) then None else tlookup cs hf k'.
Proof.
  intros Hok Hn. destruct (hash_slot hf k (length cs) Hok Hn) as [_ Hlt].
  destruct (lookup_lt_is_Some_2 cs _ Hlt) as [chain Hc].
  unfold tlookup. rewrite length_tdrop. unfold tdrop. cbv zeta. rewrite Hc. simpl.
  destruct (decide (k' = k)) as [->|Hne].
  - rewrite list_lookup_insert_eq by done. simpl. by rewrite find_pair_drop_eq.
  - destruct (decide (slot hf k' (length cs) = slot hf k (length cs))) as [Hs|Hs].
    + rewrite Hs, list_lookup_insert_eq, Hc by done. simpl.
      by rewrite find_pair_drop_ne.
    + by rewrite list_lookup_insert_ne.
Qed.

Lemma chains_ok_tput cs hf k v :
  hash_ok hf -> chains_ok cs hf -> chains_ok (tput cs hf k v) hf.
Proof.
  intros Hok (Hn & Hplace & Hnd).
  destruct (hash_slot hf k (length cs) Hok Hn) as [_ Hlt].
  destruct (lookup_lt_is_Some_2 cs _ Hlt) as [chain Hc].
  split; [by rewrite length_tput|]. split.
  - intros i chain' p. rewrite length_tput. unfold tput. cbv zeta. rewrite Hc. simpl.
    destruct (decide (i = slot hf k (length cs))) as [->|Hi].
    + rewrite list_lookup_insert_eq by done. intros [= <-].
      rewrite elem_of_app, elem_of_drop_key, list_elem_of_singleton.
      intros [[Hin _]| ->]; [by apply (Hplace _ chain) | done].
    + rewrite list_lookup_insert_ne by done. apply Hplace.
  - unfold tput. cbv zeta. rewrite Hc. simpl. apply Forall_insert; [done|].
    apply NoDup_keys_put. rewrite Forall_lookup in Hnd. by apply (Hnd _ _ Hc).
Qed.

Lemma chains_ok_tdrop cs hf k :
  hash_ok hf -> chains_ok cs hf -> chains_ok (tdrop cs hf k) hf.
Proof.
  intros Hok (Hn & Hplace & Hnd).
  destruct (hash_slot hf k (length cs) Hok Hn) as [_ Hlt].
  destruct (lookup_lt_is_Some_2 cs _ Hlt) as [chain Hc].
  split; [by rewrite length_tdrop|]. split.
  - intros i chain' p. rewrite length_tdrop. unfold tdrop. cbv zeta. rewrite Hc. simpl.
    destruct (decide (i = slot hf k (length cs))) as [->|Hi].
    + rewrite list_lookup_insert_eq by done. intros [= <-].
      rewrite elem_of_drop_key. intros [Hin _]. by apply (Hplace _ chain).
    + rewrite list_lookup_insert_ne by done. apply Hplace.
  - unfold tdrop. cbv zeta. rewrite Hc. simpl. apply Forall_insert; [done|].
    apply NoDup_drop_key. rewrite Forall_lookup in Hnd. by apply (Hnd _ _ Hc).
Qed.

Lemma elem_of_concat {A : Type} (x : A) (l : list (list A)) :
  x ∈ concat l <-> exists y, y ∈ l /\ x ∈ y.
Proof.
  rewrite list_elem_of_In, in_concat. split; intros (y & Hy & Hx); exists y.
  - by rewrite !list_elem_of_In.
  - by rewrite <- !list_elem_of_In.
Qed.

Lemma length_concat_insert {A : Type} (l : list (list A)) (i : nat) (x y : list A) :
  l !! i = Some y ->
  (length (concat (<[i := x]> l)) + length y = length (concat l) + length x)%nat.
Proof.
  revert i. induction l as [|z l IH]; intros [|i]; try done; simpl.
  - intros [= ->]. rewrite !length_app. lia.
  - intros Hi. specialize (IH _ Hi). rewrite !length_app. lia.
Qed.

Lemma stored_tput cs hf k v :
  hash_ok hf -> chains_ok cs hf ->
  stored (tput cs hf k v) =
  stored cs + match tlookup cs hf k with Some _ => 0 | None => 1 end.
Proof.
  intros Hok (Hn & _ & Hnd).
  destruct (hash_slot hf k (length cs) Hok Hn) as [_ Hlt].
  destruct (lookup_lt_is_Some_2 cs _ Hlt) as [chain Hc].
  unfold stored, tlookup, tput. cbv zeta. rewrite Hc. simpl.
  pose proof (length_concat_insert cs _ (drop_key k chain ++ [mkPair k v]) _ Hc) as Hl.
  rewrite length_app in Hl. simpl in Hl.
  rewrite Forall_lookup in Hnd.
  destruct (find_pair k chain) as [p|] eqn:Hf; simpl.
  - destruct (remove_first_unique k chain p (Hnd _ _ Hc) Hf) as [_ Hlen]. lia.
  - apply find_pair_None in Hf. rewrite (drop_key_absent _ _ Hf) in Hl |- *. lia.
Qed.

Lemma stored_tdrop cs hf k v :
  hash_ok hf -> chains_ok cs hf -> tlookup cs hf k = Some v ->
  stored (tdrop cs hf k) = stored cs - 1.
Proof.
  intros Hok (Hn & _ & Hnd).
  destruct (hash_slot hf k (length cs) Hok Hn) as [_ Hlt].
  destruct (lookup_lt_is_Some_2 cs _ Hlt) as [chain Hc].
  unfold stored, tlookup, tdrop. cbv zeta. rewrite Hc. simpl.
  pose proof (length_concat_insert cs _ (drop_key k chain) _ Hc) as Hl.
  rewrite Forall_lookup in Hnd.
  destruct (find_pair k chain) as [p|] eqn:Hf; simpl; [|done]. intros _.
  destruct (remove_first_unique k chain p (Hnd _ _ Hc) Hf) as [_ Hlen]. lia.
Qed.

(** A pair is stored exactly when looking up its key finds its value. *)
Lemma elem_of_concat_tlookup cs hf k v :
  chains_ok cs hf -> mkPair k v ∈ concat cs <-> tlookup cs hf k = Some v.
Proof.
  intros (Hn & Hplace & Hnd). rewrite Forall_lookup in Hnd. unfold tlookup. split.
  - intros (chain & Hchain & Hin)%elem_of_concat.
    apply list_elem_of_lookup in Hchain as [i Hi].
    pose proof (Hplace i chain _ Hi Hin) as Hs. simpl in Hs.
    rewrite Hs. simpl. rewrite Hi. simpl.
    by rewrite (find_pair_unique k v chain (Hnd _ _ Hi) Hin).
  - destruct (cs !! slot hf k (length cs)) as [chain|] eqn:Hc; [|done]. simpl.
    destruct (find_pair k chain) as [p|] eqn:Hf; [|done]. simpl. intros [= <-].
    apply find_pair_Some in Hf as [Hin <-]. apply elem_of_concat.
    exists chain. split; [by apply list_elem_of_lookup_2 in Hc | by destruct p].
Qed.

Lemma NoDup_keys_concat cs hf : chains_ok cs hf -> NoDup (key <$> concat cs).
Proof.
  intros (_ & Hplace & Hnd).
  assert (forall i chain p, cs !! i = Some chain -> p ∈ chain ->
            slot hf (key p) (length cs) = (0 + i)%nat) as Hp by done.
  clear Hplace. revert Hp Hnd. generalize (length cs) as n. generalize O as o.
  induction cs as [|chain cs IH]; intros o n Hp Hnd; [constructor|].
  apply Forall_cons in Hnd as [Hc Hnd]. simpl. rewrite fmap_app.
  apply NoDup_app. split; [done|]. split.
  - intros x (p & -> & Hin)%list_elem_of_fmap (q & Hk & Hq)%list_elem_of_fmap.
    apply elem_of_concat in Hq as (chain' & Hchain' & Hq).
    apply list_elem_of_lookup in Hchain' as [i Hi].
    pose proof (Hp O chain p eq_refl Hin) as H1.
    pose proof (Hp (S i) chain' q Hi Hq) as H2. rewrite Hk in H1. lia.
  - apply (IH (S o) n); [|done]. intros i chain' p Hi Hin.
    rewrite (Hp (S i) chain' p Hi Hin). lia.
Qed.

(** The constructor. *)
Lemma init_buckets_fold (N : Z) (m j : nat) :
  foldM (fun b i => Array_setitem b i (Some (@LinkedList_init (Pair K V))))
        (Z.of_nat <$> seq j m)
        (mkArray (replicate j (Some []) ++ replicate m None) N N None)
  = Ok (mkArray (replicate (j + m) (Some [])) N N None).
Proof.
  revert j. induction m as [|m IH]; intros j.
  - simpl. by rewrite app_nil_r, Nat.add_0_r.
  - cbn [seq fmap list_fmap foldM].
    rewrite Array_setitem_Ok
      by (cbn [_items]; rewrite length_app, !length_replicate; lia).
    rewrite bind_Ok. cbn [_items _physical_size _logical_size _default_item_value].
    replace (<[j := Some LinkedList_init]> (replicate j (Some []) ++ replicate (S m) None))
      with (replicate (S j) (Some ([] : list (Pair K V))) ++ replicate m None).
    + rewrite (IH (S j)). by replace (S j + m)%nat with (j + S m)%nat by lia.
    + rewrite replicate_S_end, <- app_assoc.
      rewrite insert_app_r_alt by (rewrite length_replicate; lia).
      by rewrite length_replicate, Nat.sub_diag.
Qed.

Lemma init_table (n : Z) hf (t : Q) :
  0 <= n -> HashMap_init n (Some hf) t = Ok (table (replicate (Z.to_nat n) []) hf 0).
Proof.
  intros Hn. unfold HashMap_init, Array_init, seqZ.
  assert (((fun i : nat => Z.of_nat i + 0) <$> seq 0 (Z.to_nat n))
          = Z.of_nat <$> seq 0 (Z.to_nat n)) as ->.
  { apply list_fmap_ext. intros; lia. }
  pose proof (init_buckets_fold n (Z.to_nat n) 0) as Hf. simpl in Hf.
  rewrite Hf. simpl. unfold table.
  by rewrite fmap_replicate, length_replicate, Z2Nat.id.
Qed.

Lemma chains_ok_empty (n : nat) hf :
  (0 < n)%nat -> chains_ok (replicate n []) hf.
Proof.
  intros Hn. split; [by rewrite length_replicate|]. split.
  - intros i chain p [-> _]%lookup_replicate Hin. by apply elem_of_nil in Hin.
  - apply Forall_replicate. constructor.
Qed.

Lemma stored_empty (n : nat) : stored (replicate n ([] : list (Pair K V))) = 0.
Proof. unfold stored. induction n as [|n IH]; [done|]. simpl. exact IH. Qed.

Lemma tlookup_empty (n : nat) hf k : tlookup (replicate n []) hf k = None.
Proof.
  unfold tlookup.
  destruct (replicate n [] !! slot hf k (length (replicate n []))) as [chain|] eqn:Hc;
    [|done].
  by apply lookup_replicate in Hc as [-> _].
Qed.

(** The snapshots. *)
Lemma items_table cs hf c :
  HashMap_items (table cs hf c) = Ok (map (fun p => (key p, value p)) (concat cs)).
Proof.
  unfold HashMap_items, Array_iter, table. cbn [_items _buckets].
  change (map (fun p : Pair K V => (key p, value p)) (concat cs))
    with ([] ++ map (fun p : Pair K V => (key p, value p)) (concat cs)).
  generalize ([] : list (K * V)) as acc.
  induction cs as [|chain cs IH]; intros acc; simpl; [by rewrite app_nil_r|].
  by rewrite IH, map_app, app_assoc.
Qed.

Lemma keys_table cs hf c :
  HashMap_keys (table cs hf c) = Ok (map key (concat cs)).
Proof.
  unfold HashMap_keys, Array_iter, table. cbn [_items _buckets].
  change (map key (concat cs)) with ([] ++ map key (concat cs)).
  generalize ([] : list K) as acc.
  induction cs as [|chain cs IH]; intros acc; simpl; [by rewrite app_nil_r|].
  by rewrite IH, map_app, app_assoc.
Qed.

Lemma values_table cs hf c :
  HashMap_values (table cs hf c) = Ok (map value (concat cs)).
Proof.
  unfold HashMap_values, Array_iter, table. cbn [_items _buckets].
  change (map value (concat cs)) with ([] ++ map value (concat cs)).
  generalize ([] : list V) as acc.
  induction cs as [|chain cs IH]; intros acc; simpl; [by rewrite app_nil_r|].
  by rewrite IH, map_app, app_assoc.
Qed.

(** Rehashing. *)

(** What a lookup finds after the bindings [l] were set one by one. *)
Fixpoint lookup_after (l : list (K * V)) (base : K -> option V) (k : K) : option V :=
  match l with
  | [] => base k
  | (k0, v0) :: l' =>
      lookup_after l' (fun k' => if decide (k' = k0) then Some v0 else base k') k
  end.

Lemma lookup_after_ext l base base' k :
  (forall k', base k' = base' k') -> lookup_after l base k = lookup_after l base' k.
Proof.
  revert base base'. induction l as [|[k0 v0] l IH]; intros base base' Hb; simpl.
  - apply Hb.
  - apply IH. intros k'. by rewrite Hb.
Qed.

Lemma lookup_after_NoDup l base k v :
  NoDup (fst <$> l) ->
  lookup_after l base k = Some v <->
  (k, v) ∈ l \/ ((k ∉ fst <$> l) /\ base k = Some v).
Proof.
  revert base. induction l as [|[k0 v0] l IH]; intros base; simpl.
  - intros _. split; [intros ?; right; split; [apply not_elem_of_nil | done]|].
    by intros [?%elem_of_nil|[_ ?]].
  - rewrite NoDup_cons. intros [Hk0 Hnd]. rewrite (IH _ Hnd).
    rewrite elem_of_cons, not_elem_of_cons. split.
    + intros [Hin|[Hnin Hb]]; [by left; right|].
      destruct (decide (k = k0)) as [->|Hne].
      * left; left. congruence.
      * right. done.
    + intros [[[= -> ->]|Hin]|[[Hne Hnin] Hb]].
      * right. split; [done|]. by rewrite decide_True.
      * by left.
      * right. split; [done|]. by rewrite decide_False.
Qed.

(** The chains after the bindings [l] were put one by one. *)
Definition rehash (l : list (K * V)) cs hf : list (LinkedList (Pair K V)) :=
  foldl (fun cs '(k, v) => tput cs hf k v) cs l.

Lemma rehash_fold d l cs hf :
  hash_ok hf -> chains_ok cs hf ->
  5 * (stored cs + Z.of_nat (length l)) <= 3 * Z.of_nat (length cs) + 5 ->
  foldM (fun m '(k, v) => setitem_rec (S d) m k v) l (table cs hf (stored cs))
  = Ok (table (rehash l cs hf) hf (stored (rehash l cs hf))) /\
  chains_ok (rehash l cs hf) hf /\ length (rehash l cs hf) = length cs /\
  forall k, tlookup (rehash l cs hf) hf k = lookup_after l (tlookup cs hf) k.
Proof.
  intros Hok. revert cs. induction l as [|[k v] l IH]; intros cs Hcs Hload.
  - done.
  - cbn [foldM]. cbn [length] in Hload.
    assert (0 <= stored cs) by (unfold stored; lia).
    rewrite setitem_table_no_resize by (try done; lia).
    rewrite bind_Ok.
    replace (match tlookup cs hf k with Some _ => stored cs | None => stored cs + 1 end)
      with (stored (tput cs hf k v))
      by (rewrite stored_tput by done; destruct (tlookup cs hf k); lia).
    destruct (IH (tput cs hf k v)) as (Hf & Hcs' & Hlen & Hlk).
    + by apply chains_ok_tput.
    + rewrite length_tput, stored_tput by done. destruct (tlookup cs hf k); lia.
    + change (rehash ((k, v) :: l) cs hf) with (rehash l (tput cs hf k v) hf).
      split; [done|]. split; [done|]. split; [by rewrite Hlen, length_tput|].
      intros k'. rewrite Hlk. simpl. apply lookup_after_ext. intros k''.
      destruct Hcs as (Hn & _). by apply tlookup_tput.
Qed.

Lemma lookup_after_items cs hf k :
  chains_ok cs hf ->
  lookup_after (map (fun p => (key p, value p)) (concat cs)) (fun _ => None) k
  = tlookup cs hf k.
Proof.
  intros Hcs. apply option_eq. intros v.
  rewrite lookup_after_NoDup.
  - rewrite <- (elem_of_concat_tlookup cs hf k v Hcs). split.
    + intros [Hin|[_ ?]]; [|done].
      apply list_elem_of_In, in_map_iff in Hin as ([k' v'] & [= -> ->] & Hin).
      by apply list_elem_of_In.
    + intros Hin. left. apply list_elem_of_In, in_map_iff.
      exists (mkPair k v). split; [done | by apply list_elem_of_In].
  - replace (fst <$> map (fun p : Pair K V => (key p, value p)) (concat cs))
      with (key <$> concat cs); [by apply (NoDup_keys_concat cs hf)|].
    generalize (concat cs). intros l. induction l as [|p l IH]; [done|].
    simpl. by f_equal.
Qed.

(** Tables with the same lookups store the same number of pairs. *)
Lemma stored_ext cs hf cs' hf' :
  chains_ok cs hf -> chains_ok cs' hf' ->
  (forall k, tlookup cs hf k = tlookup cs' hf' k) -> stored cs = stored cs'.
Proof.
  intros Hcs Hcs' Hlk. unfold stored. f_equal.
  rewrite <- (length_fmap key (concat cs)), <- (length_fmap key (concat cs')).
  apply Permutation_length, NoDup_Permutation;
    [by apply (NoDup_keys_concat cs hf) | by apply (NoDup_keys_concat cs' hf') |].
  intros k. rewrite !list_elem_of_fmap.
  split; intros ([k' v] & -> & Hin); simpl.
  - apply (elem_of_concat_tlookup cs hf) in Hin; [|done]. rewrite Hlk in Hin.
    apply (elem_of_concat_tlookup cs' hf') in Hin; [|done]. by exists (mkPair k' v).
  - apply (elem_of_concat_tlookup cs' hf') in Hin; [|done]. rewrite <- Hlk in Hin.
    apply (elem_of_concat_tlookup cs hf) in Hin; [|done]. by exists (mkPair k' v).
Qed.

(** The chains of the table that [resize_and_rehash] builds. *)
Definition resized cs hf (n : Z) : list (LinkedList (Pair K V)) :=
  rehash (map (fun p => (key p, value p)) (concat cs)) (replicate (Z.to_nat n) []) hf.

Lemma resize_table d cs hf c (n : Z) :
  hash_ok hf -> chains_ok cs hf -> 0 < n -> 5 * stored cs <= 3 * n + 5 ->
  resize_and_rehash_with (setitem_rec (S d)) (table cs hf c) n hf
  = Ok (table (resized cs hf n) hf (stored (resized cs hf n))) /\
  chains_ok (resized cs hf n) hf /\ Z.of_nat (length (resized cs hf n)) = n /\
  stored (resized cs hf n) = stored cs /\
  forall k, tlookup (resized cs hf n) hf k = tlookup cs hf k.
Proof.
  intros Hok Hcs Hn Hload. unfold resize_and_rehash_with.
  rewrite init_table by lia. rewrite bind_Ok, items_table, bind_Ok.
  rewrite <- (stored_empty (Z.to_nat n)).
  destruct (rehash_fold d (map (fun p => (key p, value p)) (concat cs))
              (replicate (Z.to_nat n) []) hf) as (Hf & Hcs' & Hlen & Hlk);
    [done | apply chains_ok_empty; lia | |].
  { rewrite stored_empty, length_replicate, length_map. unfold stored in Hload. lia. }
  fold (resized cs hf n) in Hf, Hcs', Hlen, Hlk.
  assert (forall k, tlookup (resized cs hf n) hf k = tlookup cs hf k) as Hsame.
  { intros k. rewrite Hlk, <- (lookup_after_items cs hf k Hcs).
    apply lookup_after_ext. intros k'. apply tlookup_empty. }
  split; [exact Hf|]. split; [done|].
  split; [rewrite Hlen, length_replicate; lia|]. split; [|done].
  by apply (stored_ext _ hf cs hf).
Qed.

(** [__setitem__] above the load-factor threshold: the table is rebuilt
    with the new capacity, and the pair goes into the new table. *)
Lemma setitem_table_resize d cs hf c k v :
  hash_ok hf -> chains_ok cs hf -> stored cs <= c ->
  3 * Z.of_nat (length cs) < 5 * c ->
  let n := nextprime ((c * 10) ÷ 6) in
  setitem_rec (S (S d)) (table cs hf c) k v
  = Ok (table (tput (resized cs hf n) hf k v) hf
              (match tlookup cs hf k with
               | Some _ => stored cs
               | None => stored cs + 1
               end)).
Proof.
  intros Hok Hcs Hc Hload n.
  assert (0 <= stored cs) by (unfold stored; lia).
  pose proof (nextprime_ge_2 ((c * 10) ÷ 6)).
  pose proof (nextprime_above_load c ltac:(lia)).
  destruct (resize_table d cs hf c n)
    as (Hr & Hcs1 & Hlen & Hst & Hlk); [done | done | lia | lia |].
  rewrite setitem_rec_unfold. destruct Hcs as (Hn & ?).
  rewrite load_factor_table by done. simpl.
  unfold HashMap_load_factor_threshold. cbn [_load_factor_threshold table].
  rewrite Qgtb_load_factor by lia.
  destruct (Z.ltb_spec (3 * Z.of_nat (length cs)) (5 * c)); [|lia]. simpl.
  unfold _new_bucket_capacity. cbn [_load_factor_threshold _count table].
  change (Qeq_bool default_load_factor_threshold 0) with false. cbn [bind_Ok].
  rewrite Qtrunc_new_capacity. simpl. cbn [_hash_function table].
  fold n. rewrite Hr. simpl. rewrite insert_pair_table by done.
  by rewrite Hlk, Hst.
Qed.

End Tables.

(** ** Well-formed hash maps *)

Section HashMapSpec.
Context {K V : Type} `{EqDecision K} `{EqDecision V}.
Implicit Types (k : K) (v : V) (h : HashMap K V).
Implicit Types (cs : list (LinkedList (Pair K V))) (hf : K -> Z -> result Z).

(** The invariant of a hash map: it is a table of at least one bucket,
    every pair is in the bucket of its key, no key occurs twice, and
    [_count] is at least the number of pairs. *)
Definition hm_wf h : Prop :=
  exists cs hf c, h = table cs hf c /\ hash_ok hf /\ chains_ok cs hf /\ stored cs <= c.

(** A well-formed hash map whose [_count] is the number of pairs. *)
Definition hm_exact h : Prop :=
  exists cs hf, h = table cs hf (stored cs) /\ hash_ok hf /\ chains_ok cs hf.

(** The value bound to [k], if [h[k]] returns one. *)
Definition hm_get h k : option V :=
  match HashMap_getitem h k with
  | Ok v => Some v
  | Raise _ => None
  end.

Lemma table_inj cs hf c cs' hf' c' :
  table cs hf c = table cs' hf' c' -> cs = cs' /\ hf = hf' /\ c = c'.
Proof.
  unfold table. intros Heq.
  assert (Some <$> cs = Some <$> cs') as Hi by congruence.
  apply (inj (fmap Some)) in Hi. split; [done|]. split; congruence.
Qed.

Lemma hm_exact_wf h : hm_exact h -> hm_wf h.
Proof.
  intros (cs & hf & -> & ? & ?). exists cs, hf, (stored cs).
  split; [done|]. split; [done|]. split; [done | lia].
Qed.

Lemma hm_get_table cs hf c k :
  hash_ok hf -> (0 < length cs)%nat -> hm_get (table cs hf c) k = tlookup cs hf k.
Proof.
  intros Hok Hn. unfold hm_get. rewrite getitem_table by done.
  by destruct (tlookup cs hf k).
Qed.

Lemma getitem_wf h k :
  hm_wf h ->
  HashMap_getitem h k = match hm_get h k with Some v => Ok v | None => Raise KeyError end.
Proof.
  intros (cs & hf & c & -> & Hok & (Hn & _) & _).
  rewrite hm_get_table by done. by apply getitem_table.
Qed.

Lemma contains_wf h k :
  hm_wf h ->
  HashMap_contains h k = Ok (match hm_get h k with Some _ => true | None => false end).
Proof.
  intros (cs & hf & c & -> & Hok & (Hn & _) & _).
  rewrite hm_get_table by done. by apply contains_table.
Qed.

Lemma setitem_table d cs hf c k v :
  hash_ok hf -> chains_ok cs hf -> stored cs <= c ->
  exists cs' c',
    setitem_rec (S (S d)) (table cs hf c) k v = Ok (table cs' hf c') /\
    chains_ok cs' hf /\ stored cs' <= c' /\
    (c = stored cs -> c' = stored cs') /\
    (forall k', tlookup cs' hf k' = if decide (k' = k) then Some v else tlookup cs hf k') /\
    stored cs' = stored cs + match tlookup cs hf k with Some _ => 0 | None => 1 end.
Proof.
  intros Hok Hcs Hc. destruct (decide (5 * c <= 3 * Z.of_nat (length cs))) as [Hl|Hl].
  - eexists _, _. split; [by apply setitem_table_no_resize|].
    pose proof (stored_tput cs hf k v Hok Hcs) as Hst.
    split; [by apply chains_ok_tput|].
    split; [destruct (tlookup cs hf k); lia|].
    split; [destruct (tlookup cs hf k); lia|].
    split; [|done]. intros k'. destruct Hcs as (Hn & _). by apply tlookup_tput.
  - assert (0 <= stored cs) by (unfold stored; lia).
    pose proof (nextprime_ge_2 ((c * 10) ÷ 6)).
    pose proof (nextprime_above_load c ltac:(lia)).
    destruct (resize_table d cs hf c (nextprime ((c * 10) ÷ 6)))
      as (_ & Hcs1 & Hlen & Hst1 & Hlk); [done | done | lia | lia |].
    eexists _, _. split; [apply setitem_table_resize; (done || lia)|].
    pose proof (stored_tput _ hf k v Hok Hcs1) as Hst. rewrite Hlk, Hst1 in Hst.
    split; [by apply chains_ok_tput|].
    split; [destruct (tlookup cs hf k); lia|].
    split; [destruct (tlookup cs hf k); lia|].
    split; [|done]. intros k'. destruct Hcs1 as (Hn & _).
    rewrite tlookup_tput by done. by rewrite Hlk.
Qed.

Lemma HashMap_setitem_depth h k v :
  HashMap_setitem h k v = setitem_rec (S (S 498)) h k v.
Proof. reflexivity. Qed.

Lemma setitem_wf h k v :
  hm_wf h ->
  exists h',
    HashMap_setitem h k v = Ok h' /\ hm_wf h' /\ (hm_exact h -> hm_exact h') /\
    _hash_function h' = _hash_function h /\
    forall k', hm_get h' k' = if decide (k' = k) then Some v else hm_get h k'.
Proof.
  intros (cs & hf & c & -> & Hok & Hcs & Hc).
  destruct (setitem_table 498 cs hf c k v Hok Hcs Hc)
    as (cs' & c' & Hs & Hcs' & Hc' & Hex & Hlk & _).
  exists (table cs' hf c'). rewrite HashMap_setitem_depth. split; [done|].
  split; [by exists cs', hf, c'|]. split; [|split; [done|]].
  - intros (cs0 & hf0 & Heq & _). apply table_inj in Heq as (<- & <- & Hcount).
    exists cs', hf. by rewrite <- (Hex Hcount).
  - intros k'. destruct Hcs as (Hn & _), Hcs' as (Hn' & _).
    by rewrite !hm_get_table, Hlk.
Qed.

Lemma delitem_wf h k :
  hm_wf h ->
  match hm_get h k with
  | Some _ =>
      exists h', HashMap_delitem h k = Ok h' /\ hm_wf h' /\
                 HashMap_len h' = HashMap_len h /\
                 _hash_function h' = _hash_function h /\
                 forall k', hm_get h' k' = if decide (k' = k) then None else hm_get h k'
  | None => HashMap_delitem h k = Raise KeyError
  end.
Proof.
  intros (cs & hf & c & -> & Hok & Hcs & Hc). destruct (Hcs) as (Hn & _).
  rewrite hm_get_table, delitem_table by done.
  destruct (tlookup cs hf k) as [v|] eqn:Hk; [|done].
  exists (table (tdrop cs hf k) hf c). split; [done|].
  pose proof (chains_ok_tdrop cs hf k Hok Hcs) as Hcs'.
  split; [|split; [done|split; [done|]]].
  - exists (tdrop cs hf k), hf, c. repeat (split; [done|]).
    rewrite (stored_tdrop cs hf k v) by done. lia.
  - intros k'. destruct Hcs' as (Hn' & _).
    by rewrite !hm_get_table, tlookup_tdrop.
Qed.

Lemma default_hash_function_ok (pyhash : K -> Z) : hash_ok (default_hash_function pyhash).
Proof.
  intros k c Hc. exists (pyhash k mod c). unfold default_hash_function.
  destruct (Z.eqb_spec c 0); [lia|]. split; [done|]. by apply Z.mod_pos_bound.
Qed.

Lemma init_wf (n : Z) hf (t : Q) :
  hash_ok hf -> 0 < n ->
  exists h, HashMap_init n (Some hf) t = Ok h /\ hm_exact h /\
            _hash_function h = hf /\ HashMap_len h = 0 /\ forall k, hm_get h k = None.
Proof.
  intros Hok Hn. exists (table (replicate (Z.to_nat n) []) hf 0).
  split; [by apply init_table; lia|].
  assert (chains_ok (replicate (Z.to_nat n) ([] : list (Pair K V))) hf) as Hcs
    by (apply chains_ok_empty; lia).
  split; [|split; [done|split; [done|]]].
  - exists (replicate (Z.to_nat n) []), hf. by rewrite stored_empty.
  - intros k. destruct Hcs as (Hlen & _). rewrite hm_get_table by done.
    apply tlookup_empty.
Qed.

Lemma HashMap_new_wf (pyhash : K -> Z) :
  exists h, HashMap_new pyhash = Ok h /\ hm_exact h /\
            _hash_function h = default_hash_function pyhash /\
            HashMap_len h = 0 /\ forall k, hm_get h k = None.
Proof. apply init_wf; [apply default_hash_function_ok | lia]. Qed.

(** The snapshots of a well-formed hash map list each binding once. *)
Lemma snapshots_wf h :
  hm_wf h ->
  exists l : list (K * V),
    HashMap_items h = Ok l /\ HashMap_keys h = Ok (map fst l) /\
    HashMap_values h = Ok (map snd l) /\ NoDup (fst <$> l) /\
    (forall k v, (k, v) ∈ l <-> hm_get h k = Some v) /\
    Z.of_nat (length l) <= HashMap_len h /\
    (hm_exact h -> HashMap_len h = Z.of_nat (length l)).
Proof.
  intros (cs & hf & c & -> & Hok & Hcs & Hc).
  exists (map (fun p => (key p, value p)) (concat cs)).
  split; [apply items_table|].
  split; [by rewrite keys_table, map_map|].
  split; [by rewrite values_table, map_map|].
  assert (fst <$> map (fun p : Pair K V => (key p, value p)) (concat cs)
          = key <$> concat cs) as Hkeys.
  { generalize (concat cs). intros l. induction l as [|p l IH]; [done|].
    simpl. by f_equal. }
  split; [rewrite Hkeys; by apply (NoDup_keys_concat cs hf)|].
  split; [|split].
  - intros k v. destruct (Hcs) as (Hn & _). rewrite hm_get_table by done.
    rewrite <- (elem_of_concat_tlookup cs hf k v Hcs). split.
    + intros Hin. apply list_elem_of_In, in_map_iff in Hin as ([k' v'] & [= -> ->] & Hin).
      by apply list_elem_of_In.
    + intros Hin. apply list_elem_of_In, in_map_iff.
      exists (mkPair k v). split; [done | by apply list_elem_of_In].
  - rewrite length_map. exact Hc.
  - intros (cs0 & hf0 & Heq & _). apply table_inj in Heq as (<- & <- & Hcount).
    rewrite length_map. exact Hcount.
Qed.

End HashMapSpec.

(** ** Maps built by the methods *)

Lemma bind_Ok_inv {A B : Type} (r : result A) (f : A -> result B) (b : B) :
  (r ≫= f) = Ok b -> exists a, r = Ok a /\ f a = Ok b.
Proof. destruct r as [a|e]; [by exists a | done]. Qed.

Section HashMapBuilt.
Context {K V : Type} `{EqDecision K} `{EqDecision V}.
Implicit Types (k : K) (v : V) (h : HashMap K V).

Lemma init_wf_Ok (n : Z) (hf : K -> Z -> result Z) (t : Q) h :
  hash_ok hf -> 0 < n -> HashMap_init n (Some hf) t = Ok h -> hm_exact h.
Proof.
  intros Hok Hn Hi. destruct (init_wf (V:=V) n hf t Hok Hn) as (h' & Hi' & Hex & _).
  congruence.
Qed.

Lemma HashMap_new_wf_Ok (pyhash : K -> Z) h : HashMap_new pyhash = Ok h -> hm_exact h.
Proof. apply init_wf_Ok; [apply default_hash_function_ok | lia]. Qed.

Lemma setitem_wf_Ok h k v h' : hm_wf h -> HashMap_setitem h k v = Ok h' -> hm_wf h'.
Proof.
  intros Hwf Hs. destruct (setitem_wf h k v Hwf) as (h'' & Hs' & Hwf' & _). congruence.
Qed.

Lemma setitem_exact_Ok h k v h' :
  hm_exact h -> HashMap_setitem h k v = Ok h' -> hm_exact h'.
Proof.
  intros Hex Hs.
  destruct (setitem_wf h k v (hm_exact_wf h Hex)) as (h'' & Hs' & _ & Hex' & _).
  assert (h'' = h') as <- by congruence. by apply Hex'.
Qed.

Lemma delitem_wf_Ok h k h' : hm_wf h -> HashMap_delitem h k = Ok h' -> hm_wf h'.
Proof.
  intros Hwf Hd. pose proof (delitem_wf h k Hwf) as Hspec.
  destruct (hm_get h k); [|congruence].
  destruct Hspec as (h'' & Hd' & Hwf' & _). congruence.
Qed.

End HashMapBuilt.

(** ** Properties of [Array] *)

(** C10.  An [Array] constructed with size 0, which is what the default
    constructor does, cannot be appended to: doubling the physical size 0
    gives 0, the new numpy array has no slot, and storing the item raises
    [IndexError]. *)
Theorem append_to_empty_array_raises {A : Type} (default_item_value data : A) :
  Array_append (Array_init 0 default_item_value) data = Raise IndexError.
Proof. reflexivity. Qed.

(** ** Properties of [HashMap] *)

Section HashMapProperties.
Context {K V : Type} `{EqDecision K} `{EqDecision V}.
Implicit Types (k : K) (v : V) (h : HashMap K V).

(** C8.  Whatever capacity and whatever [load_factor_threshold] the
    constructor is given, the map it builds has the class default 0.6 as
    its threshold: the argument is accepted and never stored. *)
Theorem init_ignores_load_factor_threshold (capacity : Z)
    (hash_function : K -> Z -> result Z) (t : Q) :
  exists h, HashMap_init capacity (Some hash_function) t = Ok h /\
            HashMap_load_factor_threshold h = 0.6%Q.
Proof.
  destruct (decide (0 <= capacity)) as [Hc|Hc].
  - eexists. split; [by apply init_table|]. done.
  - unfold HashMap_init, seqZ. replace (Z.to_nat capacity) with O by lia.
    simpl. eexists. split; [done|]. done.
Qed.

(** C7, at the inputs where the code departs from it.  A hash function
    that is not callable is rejected with [TypeError], but a negative
    capacity and a threshold outside [0, 1] are accepted: the constructor
    returns a map, although its docstring promises [ValueError]. *)
Theorem init_accepts_bad_capacity_and_threshold (hash_function : K -> Z -> result Z) :
  HashMap_init (V:=V) 7 (None : option (K -> Z -> result Z)) 0.6%Q = Raise TypeError /\
  is_ok (HashMap_init (V:=V) (-1) (Some hash_function) 0.6%Q) /\
  is_ok (HashMap_init (V:=V) 7 (Some hash_function) 1.5%Q) /\
  is_ok (HashMap_init (V:=V) 7 (Some hash_function) (-0.5)%Q).
Proof.
  split; [done|]. split; [by eexists|].
  split; (eexists; by apply init_table).
Qed.

(** C2, at the input where the code departs from it.  From [HashMap()],
    [h[k] = v] followed by [del h[k]] leaves a map with no key at all whose
    [len()] is 1: [__delitem__] takes the pair out and leaves [_count] as
    it was. *)
Theorem delitem_leaves_len_unchanged (pyhash : K -> Z) k v :
  exists h0 h1 h2,
    HashMap_new pyhash = Ok h0 /\ HashMap_setitem h0 k v = Ok h1 /\
    HashMap_delitem h1 k = Ok h2 /\
    HashMap_keys h2 = Ok [] /\ HashMap_len h1 = 1 /\ HashMap_len h2 = 1.
Proof.
  pose proof (default_hash_function_ok pyhash) as Hok.
  set (hf := default_hash_function pyhash) in *.
  set (cs0 := replicate 7 ([] : list (Pair K V))).
  assert (chains_ok cs0 hf) as Hcs0 by (apply chains_ok_empty; lia).
  assert (tlookup cs0 hf k = None) as Hk0 by apply tlookup_empty.
  pose proof (chains_ok_tput cs0 hf k v Hok Hcs0) as Hcs1.
  assert (tlookup (tput cs0 hf k v) hf k = Some v) as Hk1.
  { destruct Hcs0 as (Hn & _). rewrite tlookup_tput by done. by rewrite decide_True. }
  exists (table cs0 hf 0), (table (tput cs0 hf k v) hf 1),
         (table (tdrop (tput cs0 hf k v) hf k) hf 1).
  split; [by apply init_table|].
  split.
  { rewrite HashMap_setitem_depth, setitem_table_no_resize by (try done; simpl; lia).
    by rewrite Hk0. }
  split; [by rewrite delitem_table, Hk1|].
  split; [|done].
  rewrite keys_table.
  pose proof (stored_tdrop _ hf k v Hok Hcs1 Hk1) as Hst.
  rewrite stored_tput, Hk0 in Hst by done. unfold stored in Hst.
  change (concat cs0) with ([] : list (Pair K V)) in Hst. simpl in Hst.
  destruct (concat (tdrop (tput cs0 hf k v) hf k)); [done | simpl in Hst; lia].
Qed.

Lemma load_factor_exceeds_table cs hf c lf :
  (0 < length cs)%nat ->
  HashMap_load_factor (table (K:=K) (V:=V) cs hf c) = Ok lf ->
  Qgtb lf (HashMap_load_factor_threshold (table cs hf c)) = true ->
  3 * Z.of_nat (length cs) < 5 * c.
Proof.
  intros Hn. rewrite load_factor_table by done. intros [= <-].
  unfold HashMap_load_factor_threshold. cbn [_load_factor_threshold table].
  rewrite Qgtb_load_factor by lia. by intros ?%Z.ltb_lt.
Qed.

Lemma new_bucket_capacity_table cs hf c :
  _new_bucket_capacity (table (K:=K) (V:=V) cs hf c) = Ok (nextprime ((c * 10) ÷ 6)).
Proof. reflexivity. Qed.

Lemma resize_and_rehash_table cs hf c (n : Z) :
  hash_ok hf -> chains_ok cs hf -> 0 < n -> 5 * stored cs <= 3 * n + 5 ->
  HashMap_resize_and_rehash (table (K:=K) (V:=V) cs hf c) n hf
  = Ok (table (resized cs hf n) hf (stored (resized cs hf n))).
Proof.
  intros Hok Hcs Hn Hl.
  change (HashMap_resize_and_rehash (table cs hf c) n hf)
    with (resize_and_rehash_with (setitem_rec (S 499)) (table cs hf c) n hf).
  by apply resize_table.
Qed.

(** C6.  Rehashing preserves the content.  When the load factor of a map
    is above the threshold, rehashing it into a table of the new capacity
    succeeds, every lookup returns what it returned before -- the same
    value for a key that was present, [KeyError] for a key that was not --
    and the new map holds the same bindings as the old one. *)
Theorem rehash_preserves_content h lf :
  hm_wf h ->
  HashMap_load_factor h = Ok lf ->
  Qgtb lf (HashMap_load_factor_threshold h) = true ->
  exists n h' items items',
    _new_bucket_capacity h = Ok n /\
    HashMap_resize_and_rehash h n (_hash_function h) = Ok h' /\
    hm_wf h' /\
    (forall k, HashMap_getitem h' k = HashMap_getitem h k) /\
    (forall k, HashMap_contains h' k = HashMap_contains h k) /\
    HashMap_items h = Ok items /\ HashMap_items h' = Ok items' /\ items ≡ₚ items'.
Proof.
  intros (cs & hf & c & -> & Hok & Hcs & Hc) Hlf Hgt. destruct (Hcs) as (Hn & _).
  pose proof (load_factor_exceeds_table cs hf c lf Hn Hlf Hgt) as Hload.
  assert (0 <= stored cs) by (unfold stored; lia).
  set (n := nextprime ((c * 10) ÷ 6)).
  pose proof (nextprime_ge_2 ((c * 10) ÷ 6)).
  pose proof (nextprime_above_load c ltac:(lia)).
  destruct (resize_table 499 cs hf c n) as (_ & Hcs' & Hlen & Hst & Hlk);
    [done | done | lia | lia |].
  assert (hm_wf (table (resized cs hf n) hf (stored (resized cs hf n)))) as Hwf'.
  { apply hm_exact_wf. by exists (resized cs hf n), hf. }
  assert (hm_wf (table cs hf c)) as Hwf by (by exists cs, hf, c).
  destruct (snapshots_wf _ Hwf) as (l & Hl & _ & _ & Hnd & Hin & _).
  destruct (snapshots_wf _ Hwf') as (l' & Hl' & _ & _ & Hnd' & Hin' & _).
  assert (forall k, hm_get (table (resized cs hf n) hf (stored (resized cs hf n))) k
                    = hm_get (table cs hf c) k) as Hget.
  { intros k. destruct Hcs' as (Hn' & _). by rewrite !hm_get_table, Hlk. }
  exists n, (table (resized cs hf n) hf (stored (resized cs hf n))), l, l'.
  split; [apply new_bucket_capacity_table|].
  split; [apply resize_and_rehash_table; (done || lia)|].
  split; [done|].
  split; [intros k; by rewrite !getitem_wf, Hget|].
  split; [intros k; by rewrite !contains_wf, Hget|].
  split; [done|]. split; [done|].
  apply NoDup_Permutation.
  - by apply (NoDup_fmap_1 fst).
  - by apply (NoDup_fmap_1 fst).
  - intros [k v]. by rewrite Hin, Hin', Hget.
Qed.

(** C5, amended.  When [__setitem__] is given a key that is not in the map
    and finds the load factor above the threshold, the map is first
    rehashed, with the same hash function, into a table whose capacity is
    the smallest prime strictly greater than [int(count / threshold)];
    then the pair is inserted into that table, which holds it afterwards
    beside the old bindings. *)
Theorem setitem_rehashes_above_threshold h k v lf :
  hm_wf h ->
  HashMap_load_factor h = Ok lf ->
  Qgtb lf (HashMap_load_factor_threshold h) = true ->
  HashMap_contains h k = Ok false ->
  exists p h1 h',
    least_prime_above
      (Qtrunc (inject_Z (HashMap_len h) / HashMap_load_factor_threshold h)) p /\
    HashMap_resize_and_rehash h p (_hash_function h) = Ok h1 /\
    HashMap_capacity h1 = Ok p /\
    _hash_function h1 = _hash_function h /\
    HashMap_setitem h k v = HashMap_setitem h1 k v /\
    HashMap_setitem h k v = Ok h' /\
    HashMap_capacity h' = Ok p /\
    HashMap_getitem h' k = Ok v /\
    (forall k', k' <> k -> HashMap_getitem h' k' = HashMap_getitem h k').
Proof.
  intros (cs & hf & c & -> & Hok & Hcs & Hc) Hlf Hgt Hin. destruct (Hcs) as (Hn & _).
  pose proof (load_factor_exceeds_table cs hf c lf Hn Hlf Hgt) as Hload.
  rewrite contains_table in Hin by done.
  assert (tlookup cs hf k = None) as Hk by (destruct (tlookup cs hf k); congruence).
  assert (0 <= stored cs) by (unfold stored; lia).
  set (n := nextprime ((c * 10) ÷ 6)).
  pose proof (nextprime_ge_2 ((c * 10) ÷ 6)).
  pose proof (nextprime_above_load c ltac:(lia)).
  destruct (resize_table 499 cs hf c n) as (_ & Hcs1 & Hlen & Hst & Hlk);
    [done | done | lia | lia |].
  pose proof (setitem_table_resize 498 cs hf c k v Hok Hcs Hc Hload) as Hset.
  cbv zeta in Hset. fold n in Hset. rewrite Hk in Hset.
  pose proof (chains_ok_tput _ hf k v Hok Hcs1) as Hcs'.
  exists n, (table (resized cs hf n) hf (stored (resized cs hf n))),
         (table (tput (resized cs hf n) hf k v) hf (stored cs + 1)).
  split; [apply nextprime_spec|].
  split; [apply resize_and_rehash_table; (done || lia)|].
  split; [by rewrite capacity_table, Hlen|].
  split; [done|].
  split.
  { rewrite !HashMap_setitem_depth, Hset.
    rewrite setitem_table_no_resize by (try done; lia).
    by rewrite Hlk, Hk, Hst. }
  split; [by rewrite HashMap_setitem_depth|].
  split; [by rewrite capacity_table, length_tput, Hlen|].
  destruct Hcs1 as (Hn1 & _), Hcs' as (Hn' & _).
  split.
  - rewrite getitem_table, tlookup_tput by done. by rewrite decide_True.
  - intros k' Hne. rewrite !getitem_table, tlookup_tput by done.
    by rewrite decide_False, Hlk.
Qed.

End HashMapProperties.

(** ** A table of integers *)

(** The hash of a small non-negative [int] is the number itself. *)
Definition int_hash (n : Z) : Z := n.

(** [h = HashMap(4); h[0] = 0; h[1] = 10; h[2] = 20]: three pairs in four
    buckets. *)
Definition three_in_four : HashMap Z Z :=
  table [[mkPair 0 0]; [mkPair 1 10]; [mkPair 2 20]; []]
        (default_hash_function int_hash) 3.

Lemma three_in_four_built :
  (h ← HashMap_init 4 (Some (default_hash_function int_hash)) 0.6%Q;
   h ← HashMap_setitem h 0 0;
   h ← HashMap_setitem h 1 10;
   HashMap_setitem h 2 20) = Ok three_in_four.
Proof. vm_compute. reflexivity. Qed.

Lemma three_in_four_wf : hm_wf three_in_four.
Proof.
  pose proof three_in_four_built as Hb.
  apply bind_Ok_inv in Hb as (h0 & H0 & Hb).
  apply bind_Ok_inv in Hb as (h1 & H1 & Hb).
  apply bind_Ok_inv in Hb as (h2 & H2 & Hb).
  apply init_wf_Ok in H0; [|apply default_hash_function_ok | lia].
  apply hm_exact_wf in H0.
  eauto using @setitem_wf_Ok.
Qed.

(** C5 as it is stated fails.  The fourth key set in [HashMap(4)] finds
    the load factor 3/4 above 0.6 and count/threshold = 5, a prime; the
    map is rehashed to capacity 7, which is not the smallest prime greater
    than or equal to 5. *)
Lemma setitem_capacity_not_least_prime_geq :
  exists h' : HashMap Z Z,
    HashMap_load_factor three_in_four = Ok (inject_Z 3 / inject_Z 4)%Q /\
    Qgtb (inject_Z 3 / inject_Z 4) (HashMap_load_factor_threshold three_in_four) = true /\
    HashMap_contains three_in_four 3 = Ok false /\
    HashMap_setitem three_in_four 3 30 = Ok h' /\
    HashMap_capacity h' = Ok 7 /\
    ~ least_prime_geq
        (inject_Z (HashMap_len three_in_four)
         / HashMap_load_factor_threshold three_in_four) 7.
Proof.
  eexists. split; [reflexivity|]. split; [reflexivity|]. split; [reflexivity|].
  split; [vm_compute; reflexivity|]. split; [reflexivity|].
  intros (_ & _ & Hmin). specialize (Hmin 5).
  assert (prime 5) as H5 by (by apply is_prime_spec).
  assert (7 <= 5); [|lia]. apply Hmin; [done|].
  apply Qle_bool_iff. reflexivity.
Qed.

Lemma setitem_rehashes_above_threshold_witness :
  hm_wf three_in_four /\
  HashMap_load_factor three_in_four = Ok (inject_Z 3 / inject_Z 4)%Q /\
  Qgtb (inject_Z 3 / inject_Z 4) (HashMap_load_factor_threshold three_in_four) = true /\
  HashMap_contains three_in_four 3 = Ok false /\
  exists p h1 h',
    least_prime_above
      (Qtrunc (inject_Z (HashMap_len three_in_four)
               / HashMap_load_factor_threshold three_in_four)) p /\
    HashMap_resize_and_rehash three_in_four p (_hash_function three_in_four) = Ok h1 /\
    HashMap_capacity h1 = Ok p /\
    _hash_function h1 = _hash_function three_in_four /\
    HashMap_setitem three_in_four 3 30 = HashMap_setitem h1 3 30 /\
    HashMap_setitem three_in_four 3 30 = Ok h' /\
    HashMap_capacity h' = Ok p /\
    HashMap_getitem h' 3 = Ok 30 /\
    (forall k', k' <> 3 -> HashMap_getitem h' k' = HashMap_getitem three_in_four k').
Proof.
  split; [exact three_in_four_wf|]. split; [reflexivity|]. split; [reflexivity|].
  split; [reflexivity|].
  apply (setitem_rehashes_above_threshold three_in_four 3 30 _ three_in_four_wf
           eq_refl eq_refl eq_refl).
Defined.

Lemma rehash_preserves_content_witness :
  hm_wf three_in_four /\
  HashMap_load_factor three_in_four = Ok (inject_Z 3 / inject_Z 4)%Q /\
  Qgtb (inject_Z 3 / inject_Z 4) (HashMap_load_factor_threshold three_in_four) = true /\
  exists n h' items items',
    _new_bucket_capacity three_in_four = Ok n /\
    HashMap_resize_and_rehash three_in_four n (_hash_function three_in_four) = Ok h' /\
    hm_wf h' /\
    (forall k, HashMap_getitem h' k = HashMap_getitem three_in_four k) /\
    (forall k, HashMap_contains h' k = HashMap_contains three_in_four k) /\
    HashMap_items three_in_four = Ok items /\ HashMap_items h' = Ok items' /\
    items ≡ₚ items'.
Proof.
  split; [exact three_in_four_wf|]. split; [reflexivity|]. split; [reflexivity|].
  apply (rehash_preserves_content three_in_four _ three_in_four_wf eq_refl eq_refl).
Defined.

(** ** Graphs *)

Section GraphSpec.
Context {VD ED : Type} `{EqDecision VD} `{EqDecision ED}.
Implicit Types (g : Graph VD ED) (d : VD) (r : ref).
Implicit Types (m : VD -> option ref) (store : list (_Vertex VD ED)).

(** The view of a graph that does not depend on the hash function: which
    vertex object each vertex data is bound to, and the object store. *)
Definition graph_view g m store : Prop :=
  hm_wf (_vertices g) /\ (forall d, hm_get (_vertices g) d = m d) /\ heap g = store.

(** [m] with [d] bound to [r]. *)
Definition bind_vertex m d r : VD -> option ref :=
  fun d' => if decide (d' = d) then Some r else m d'.

(** [m] without [d]. *)
Definition unbind_vertex m d : VD -> option ref :=
  fun d' => if decide (d' = d) then None else m d'.

(** The operations of [Graph] on a view. *)
Definition view_add_vertex m store d : (VD -> option ref) * list (_Vertex VD ED) :=
  (bind_vertex m d (length store), store ++ [mkVertex d []]).

Definition view_vertex_for m store d
  : ref * (VD -> option ref) * list (_Vertex VD ED) :=
  match m d with
  | Some r => (r, m, store)
  | None => (length store, bind_vertex m d (length store), store ++ [mkVertex d []])
  end.

Definition view_add_edge m store (d1 d2 : VD) (edge_data : ED) (weight : Q)
  : result ((VD -> option ref) * list (_Vertex VD ED)) :=
  let '(r1, m, store) := view_vertex_for m store d1 in
  let '(r2, m, store) := view_vertex_for m store d2 in
  store ← _Vertex_add_edge store r1 (mkEdge r2 edge_data weight);
  Ok (m, store).

Definition view_edges_from m store d : result (Array (option (_Edge ED))) :=
  match m d with
  | Some r =>
      vertex ← deref store r;
      Ok (mkArray (Some <$> _edges vertex) (Z.of_nat (length (_edges vertex)))
                  (Z.of_nat (length (_edges vertex))) None)
  | None => Raise ValueError
  end.

Lemma Graph_init_view (pyhash : VD -> Z) :
  exists g, Graph_init (ED:=ED) pyhash = Ok g /\ graph_view g (fun _ => None) [] /\
            hm_exact (_vertices g).
Proof.
  destruct (HashMap_new_wf (V:=ref) pyhash) as (h & Hh & Hex & _ & _ & Hget).
  exists (mkGraph h []). unfold Graph_init. rewrite Hh. split; [done|].
  split; [|done]. split; [by apply hm_exact_wf|]. done.
Qed.

Lemma Graph_add_vertex_view g m store d :
  graph_view g m store ->
  exists g', Graph_add_vertex g d = Ok g' /\
             graph_view g' (view_add_vertex m store d).1 (view_add_vertex m store d).2 /\
             (hm_exact (_vertices g) -> hm_exact (_vertices g')).
Proof.
  intros (Hwf & Hget & Hheap). unfold Graph_add_vertex.
  destruct (setitem_wf (_vertices g) d (length (heap g)) Hwf)
    as (h' & Hs & Hwf' & Hex & _ & Hget').
  rewrite Hs. simpl. eexists. split; [done|]. split; [|done].
  split; [done|]. split; [|by rewrite Hheap].
  intros d'. simpl. rewrite Hget', Hheap. unfold bind_vertex.
  destruct (decide (d' = d)); [done | apply Hget].
Qed.

Lemma vertex_for_view g m store d :
  graph_view g m store ->
  exists g', vertex_for g d = Ok ((view_vertex_for m store d).1.1, g') /\
             graph_view g' (view_vertex_for m store d).1.2 (view_vertex_for m store d).2 /\
             (hm_exact (_vertices g) -> hm_exact (_vertices g')).
Proof.
  intros (Hwf & Hget & Hheap). unfold vertex_for, view_vertex_for.
  rewrite contains_wf by done. simpl. rewrite Hget.
  destruct (m d) as [r|] eqn:Hd; simpl.
  - rewrite getitem_wf, Hget, Hd by done. simpl. exists g. by repeat split.
  - destruct (setitem_wf (_vertices g) d (length (heap g)) Hwf)
      as (h' & Hs & Hwf' & Hex & _ & Hget').
    rewrite Hs. simpl. rewrite Hheap. eexists. split; [done|]. split; [|done].
    split; [done|]. split; [|done].
    intros d'. simpl. rewrite Hget', Hheap. unfold bind_vertex.
    destruct (decide (d' = d)); [done | apply Hget].
Qed.

Lemma Graph_add_edge_view g m store d1 d2 edge_data weight :
  graph_view g m store ->
  match view_add_edge m store d1 d2 edge_data weight with
  | Ok (m', store') =>
      exists g', Graph_add_edge g d1 d2 edge_data weight = Ok g' /\
                 graph_view g' m' store' /\
                 (hm_exact (_vertices g) -> hm_exact (_vertices g'))
  | Raise e => Graph_add_edge g d1 d2 edge_data weight = Raise e
  end.
Proof.
  intros Hv. unfold Graph_add_edge, view_add_edge.
  destruct (vertex_for_view g m store d1 Hv) as (g1 & H1 & Hv1 & Hex1).
  rewrite H1. simpl.
  destruct (view_vertex_for m store d1) as [[r1 m1] store1]. simpl in *.
  destruct (vertex_for_view g1 m1 store1 d2 Hv1) as (g2 & H2 & Hv2 & Hex2).
  rewrite H2. simpl.
  destruct (view_vertex_for m1 store1 d2) as [[r2 m2] store2]. simpl in *.
  destruct Hv2 as (Hwf2 & Hget2 & Hheap2). rewrite Hheap2.
  destruct (_Vertex_add_edge store2 r1 (mkEdge r2 edge_data weight)) as [store'|e];
    simpl; [|done].
  eexists. split; [done|]. split; [by repeat split | tauto].
Qed.

Lemma Graph_remove_vertex_view g m store d :
  graph_view g m store ->
  match m d with
  | Some _ => exists g', Graph_remove_vertex g d = Ok g' /\
                         graph_view g' (unbind_vertex m d) store /\
                         HashMap_len (_vertices g') = HashMap_len (_vertices g)
  | None => Graph_remove_vertex g d = Raise KeyError
  end.
Proof.
  intros (Hwf & Hget & Hheap). unfold Graph_remove_vertex.
  pose proof (delitem_wf (_vertices g) d Hwf) as Hd. rewrite Hget in Hd.
  destruct (m d) as [r|]; [|by rewrite Hd].
  destruct Hd as (h' & Hd & Hwf' & Hlen & _ & Hget'). rewrite Hd. simpl.
  eexists. split; [done|]. split; [|done]. split; [done|]. split; [|done].
  intros d'. simpl. rewrite Hget'. unfold unbind_vertex.
  destruct (decide (d' = d)); [done | apply Hget].
Qed.

Lemma fill_array {A : Type} (l : list A) (acc : list (option A)) (N : Z) (j : nat) :
  length acc = (j + length l)%nat ->
  foldM (fun edges '(i, x) => Array_setitem edges (Z.of_nat i) (Some x))
        (zip (seq j (length l)) l) (mkArray acc N N None)
  = Ok (mkArray (take j acc ++ (Some <$> l) ++ drop (j + length l) acc) N N None).
Proof.
  revert acc j. induction l as [|x l IH]; intros acc j Hlen; simpl.
  - by rewrite Nat.add_0_r, take_drop.
  - simpl in Hlen. rewrite Array_setitem_Ok by (simpl; lia). simpl.
    rewrite IH by (rewrite length_insert; lia). do 2 f_equal.
    rewrite (take_S_r _ j (Some x)) by (apply list_lookup_insert_eq; lia).
    rewrite take_insert_ge, drop_insert_lt by lia.
    rewrite <- app_assoc. simpl.
    by replace (S (j + length l)) with (j + S (length l))%nat by lia.
Qed.

Lemma Graph_edges_from_view g m store d :
  graph_view g m store -> Graph_edges_from g d = view_edges_from m store d.
Proof.
  intros (Hwf & Hget & Hheap). unfold Graph_edges_from, view_edges_from.
  rewrite contains_wf by done. simpl. rewrite Hget.
  destruct (m d) as [r|] eqn:Hd; simpl; [|done].
  rewrite getitem_wf, Hget, Hd by done. simpl. rewrite Hheap.
  destruct (deref store r) as [vertex|]; simpl; [|done].
  unfold Array_init, LinkedList_len. rewrite Nat2Z.id.
  rewrite (fill_array (_edges vertex) _ _ 0) by (by rewrite length_replicate).
  rewrite take_0, drop_ge by (rewrite length_replicate; lia).
  by rewrite app_nil_r.
Qed.

Lemma graph_view_self g : hm_wf (_vertices g) -> graph_view g (hm_get (_vertices g)) (heap g).
Proof. by intros Hwf. Qed.

(** The first loop of [remove_edge] on the buckets of a table: it ends
    normally only when there is no key to visit. *)
Lemma remove_edge_scan (cs : list (LinkedList (Pair VD ref))) (d1 d2 : VD)
    (found : option VD * option VD) :
  foldM (fun found bucket =>
           match bucket with
           | None => Raise TypeError
           | Some chain =>
               foldM (fun '(vertex1, vertex2) vertex =>
                        d ← getattr_data vertex;
                        if decide (d = d1) then Ok (Some vertex, vertex2)
                        else d ← getattr_data vertex;
                             if decide (d = d2) then Ok (vertex1, Some vertex)
                             else Ok (vertex1, vertex2))
                     (map key chain) found
           end)
        (Some <$> cs) found
  = match concat cs with [] => Ok found | _ :: _ => Raise AttributeError end.
Proof.
  induction cs as [|chain cs IH]; [done|]. cbn [fmap list_fmap foldM].
  destruct chain as [|p chain].
  - simpl. apply IH.
  - simpl. by destruct found.
Qed.

Lemma Graph_remove_edge_raises g d r (d1 d2 : VD) (edge_data : ED) :
  hm_wf (_vertices g) -> hm_get (_vertices g) d = Some r ->
  Graph_remove_edge g d1 d2 edge_data = Raise AttributeError.
Proof.
  intros (cs & hf & c & Hg & Hok & Hcs & Hc) Hd. unfold Graph_remove_edge.
  rewrite Hg in Hd |- *. unfold Array_iter. cbn [_buckets _items table].
  rewrite remove_edge_scan. destruct (Hcs) as (Hn & _).
  rewrite hm_get_table in Hd by done.
  apply (elem_of_concat_tlookup cs hf d r Hcs) in Hd.
  destruct (concat cs); [by apply elem_of_nil in Hd | done].
Qed.

Lemma Graph_remove_edge_empty (pyhash : VD -> Z) g (d1 d2 : VD) (edge_data : ED) :
  Graph_init pyhash = Ok g -> Graph_remove_edge g d1 d2 edge_data = Raise ValueError.
Proof. unfold Graph_init. simpl. by intros [= <-]. Qed.

(** C9.  When [d] is already a vertex of the graph, [add_vertex(d)] binds
    [d] to a newly created vertex object, which has no edge; the edges of
    [d] are empty afterwards, whatever edges the vertex that was bound to
    [d] had.  That vertex stays in the store as it was, and the other
    vertices stay bound as they were. *)
Theorem add_vertex_replaces_vertex g d :
  hm_wf (_vertices g) ->
  HashMap_contains (_vertices g) d = Ok true ->
  exists g',
    Graph_add_vertex g d = Ok g' /\
    HashMap_getitem (_vertices g') d = Ok (length (heap g)) /\
    heap g' = heap g ++ [mkVertex d LinkedList_init] /\
    Graph_edges_from g' d = Ok (Array_init 0 None) /\
    forall d', d' <> d ->
      HashMap_getitem (_vertices g') d' = HashMap_getitem (_vertices g) d'.
Proof.
  intros Hwf _.
  destruct (Graph_add_vertex_view g _ _ d (graph_view_self g Hwf)) as (g' & Ha & Hv & _).
  exists g'. split; [done|]. simpl in Hv. pose proof Hv as (Hwf' & Hget' & Hheap').
  split; [|split; [done|split]].
  - rewrite getitem_wf, Hget' by done. unfold bind_vertex. by rewrite decide_True.
  - rewrite (Graph_edges_from_view g' _ _ d Hv). unfold view_edges_from, bind_vertex.
    rewrite decide_True by done. unfold deref.
    by rewrite lookup_app_r, Nat.sub_diag by lia.
  - intros d' Hne. rewrite !getitem_wf, Hget' by done. unfold bind_vertex.
    by rewrite decide_False.
Qed.

(** Graphs built from the empty graph by [add_vertex] and [add_edge]. *)
Inductive graph_built (pyhash : VD -> Z) : Graph VD ED -> Prop :=
| built_init g :
    Graph_init pyhash = Ok g -> graph_built pyhash g
| built_add_vertex g d g' :
    graph_built pyhash g -> Graph_add_vertex g d = Ok g' -> graph_built pyhash g'
| built_add_edge g d1 d2 edge_data weight g' :
    graph_built pyhash g -> Graph_add_edge g d1 d2 edge_data weight = Ok g' ->
    graph_built pyhash g'.

(** The data of the vertex object at an address. *)
Definition vertex_data_at store r : option VD := _vertex_data <$> store !! r.

(** The store agrees with the bindings: a vertex data is bound to an
    object that carries it, and every edge leads to an object whose data is
    bound. *)
Definition store_ok m store : Prop :=
  (forall d r, m d = Some r -> vertex_data_at store r = Some d) /\
  (forall r vertex edge,
     store !! r = Some vertex -> edge ∈ _edges vertex ->
     exists d', vertex_data_at store (_destination_vertex edge) = Some d' /\
                is_Some (m d')).

(** What holds of a graph that was built without removing a vertex. *)
Definition graph_closed g : Prop :=
  hm_exact (_vertices g) /\ store_ok (hm_get (_vertices g)) (heap g).

Lemma store_ok_ext m m' store :
  (forall d, m d = m' d) -> store_ok m store -> store_ok m' store.
Proof.
  intros Hm [H1 H2]. split.
  - intros d r. rewrite <- Hm. apply H1.
  - intros r vertex edge Hr He. destruct (H2 r vertex edge Hr He) as (d' & ? & ?).
    exists d'. by rewrite <- Hm.
Qed.

Lemma store_ok_add_vertex m store d :
  store_ok m store ->
  store_ok (bind_vertex m d (length store)) (store ++ [mkVertex d []]).
Proof.
  intros [H1 H2]. unfold store_ok, vertex_data_at, bind_vertex in *. split.
  - intros d' r. destruct (decide (d' = d)) as [->|Hne].
    + intros [= <-]. by rewrite lookup_app_r, Nat.sub_diag by lia.
    + intros Hr. specialize (H1 d' r Hr).
      destruct (store !! r) as [vertex|] eqn:Hs; [|done].
      by rewrite (lookup_app_l_Some _ _ _ _ Hs).
  - intros r vertex edge Hr He.
    apply lookup_app_Some in Hr as [Hr|[_ Hr]].
    + destruct (H2 r vertex edge Hr He) as (d' & Hd' & Hm).
      exists d'. split.
      * destruct (store !! _destination_vertex edge) as [vertex'|] eqn:Hs; [|done].
        by rewrite (lookup_app_l_Some _ _ _ _ Hs).
      * destruct (decide (d' = d)); [by eexists | done].
    + apply list_lookup_singleton_Some in Hr as [_ <-]. by apply elem_of_nil in He.
Qed.

Lemma store_ok_vertex_for m store d :
  store_ok m store ->
  store_ok (view_vertex_for m store d).1.2 (view_vertex_for m store d).2 /\
  (view_vertex_for m store d).1.2 d = Some (view_vertex_for m store d).1.1 /\
  (forall d', is_Some (m d') -> (view_vertex_for m store d).1.2 d' = m d').
Proof.
  intros Hok. unfold view_vertex_for. destruct (m d) as [r|] eqn:Hd; simpl.
  - done.
  - split; [by apply store_ok_add_vertex|]. unfold bind_vertex.
    split; [by rewrite decide_True|].
    intros d' [r Hr]. destruct (decide (d' = d)); [congruence | done].
Qed.

Lemma store_ok_add_edge m store d1 d2 (edge_data : ED) (weight : Q) :
  store_ok m store ->
  exists m' store',
    view_add_edge m store d1 d2 edge_data weight = Ok (m', store') /\
    store_ok m' store'.
Proof.
  intros Hok. unfold view_add_edge.
  destruct (store_ok_vertex_for m store d1 Hok) as (Hok1 & Hd1 & _).
  destruct (view_vertex_for m store d1) as [[r1 m1] store1]. simpl in *.
  destruct (store_ok_vertex_for m1 store1 d2 Hok1) as (Hok2 & Hd2 & Hkeep).
  destruct (view_vertex_for m1 store1 d2) as [[r2 m2] store2]. simpl in *.
  assert (m2 d1 = Some r1) as Hd1' by (rewrite Hkeep; [done | by eexists]).
  destruct Hok2 as [H1 H2]. pose proof (H1 d1 r1 Hd1') as Hv1.
  unfold vertex_data_at in Hv1. unfold _Vertex_add_edge, deref.
  destruct (store2 !! r1) as [v1|] eqn:Hs1; [|done]. simpl in Hv1. simpl.
  eexists _, _. split; [done|].
  assert (forall r, vertex_data_at
            (<[r1 := mkVertex (_vertex_data v1)
                       (LinkedList_append (_edges v1) (mkEdge r2 edge_data weight))]>
               store2) r
          = vertex_data_at store2 r) as Hsame.
  { intros r. unfold vertex_data_at. destruct (decide (r = r1)) as [->|Hne].
    - rewrite list_lookup_insert_eq by (by apply lookup_lt_Some in Hs1).
      by rewrite Hs1.
    - by rewrite list_lookup_insert_ne. }
  split.
  - intros d r Hr. rewrite Hsame. by apply H1.
  - intros r vertex edge Hr He. rewrite Hsame.
    destruct (decide (r = r1)) as [->|Hne].
    + rewrite list_lookup_insert_eq in Hr by (by apply lookup_lt_Some in Hs1).
      injection Hr as <-. simpl in He. unfold LinkedList_append in He.
      apply elem_of_app in He as [He|He].
      * by apply (H2 r1 v1).
      * apply list_elem_of_singleton in He as ->. simpl.
        exists d2. split; [by apply H1 | by eexists].
    + rewrite list_lookup_insert_ne in Hr by done. by apply (H2 r vertex).
Qed.

Lemma graph_built_closed (pyhash : VD -> Z) g :
  graph_built pyhash g -> graph_closed g.
Proof.
  induction 1 as [g Hi | g d g' _ [Hex Hok] Ha | g d1 d2 e w g' _ [Hex Hok] Ha].
  - destruct (Graph_init_view pyhash) as (g0 & Hi' & (Hwf & Hget & Hheap) & Hex).
    assert (g0 = g) as -> by congruence. split; [done|]. rewrite Hheap. split.
    + intros d r. by rewrite Hget.
    + intros r vertex edge Hr. by rewrite lookup_nil in Hr.
  - pose proof (graph_view_self g (hm_exact_wf _ Hex)) as Hv.
    destruct (Graph_add_vertex_view g _ _ d Hv) as (g1 & Ha' & Hv1 & Hex1).
    assert (g1 = g') as -> by congruence. split; [by apply Hex1|].
    destruct Hv1 as (_ & Hget1 & Hheap1). rewrite Hheap1.
    apply (store_ok_ext _ _ _ (fun d' => eq_sym (Hget1 d'))).
    by apply store_ok_add_vertex.
  - pose proof (graph_view_self g (hm_exact_wf _ Hex)) as Hv.
    pose proof (Graph_add_edge_view g _ _ d1 d2 e w Hv) as Hv1.
    destruct (store_ok_add_edge _ _ d1 d2 e w Hok) as (m' & store' & Hview & Hok').
    rewrite Hview in Hv1. destruct Hv1 as (g1 & Ha' & (_ & Hget1 & Hheap1) & Hex1).
    assert (g1 = g') as -> by congruence. split; [by apply Hex1|].
    rewrite Hheap1. by apply (store_ok_ext _ _ _ (fun d' => eq_sym (Hget1 d'))).
Qed.

End GraphSpec.

(** ** A graph of two towns *)

Section GraphExample.
Variable pyhash : string -> Z.

(** C3, with the step where the code departs from it.  From the empty
    graph, [add_edge("A", "B", "x", 5.0)] gives "A" exactly one edge, to
    the vertex of "B", labelled "x" and of weight 5.0; a second
    [add_edge("A", "B", "y", 7.0)] gives it two edges.  Then
    [remove_edge("A", "B", "x")] does not succeed: it raises
    [AttributeError], for the loop over the keys of the vertex map reads an
    attribute [data] that a key does not have. *)
Theorem remove_edge_raises_AttributeError :
  exists g0 g1 g2 : Graph string string,
    Graph_init pyhash = Ok g0 /\
    Graph_add_edge g0 "A" "B" "x" 5 = Ok g1 /\
    Graph_edges_from g1 "A" = Ok (mkArray [Some (mkEdge 1%nat "x" 5)] 1 1 None) /\
    vertex_data_at (heap g1) 1%nat = Some "B" /\
    Graph_add_edge g1 "A" "B" "y" 7 = Ok g2 /\
    Graph_edges_from g2 "A"
    = Ok (mkArray [Some (mkEdge 1%nat "x" 5); Some (mkEdge 1%nat "y" 7)] 2 2 None) /\
    Graph_remove_edge g2 "A" "B" "x" = Raise AttributeError.
Proof.
  destruct (Graph_init_view (ED:=string) pyhash) as (g0 & H0 & Hv0 & _).
  set (m1 := bind_vertex (bind_vertex (fun _ => None) "A" 0%nat) "B" 1%nat).
  pose proof (Graph_add_edge_view g0 _ _ "A" "B" "x" 5 Hv0) as H1.
  change (view_add_edge (fun _ => None) [] "A" "B" "x" 5)
    with (Ok (m1, [mkVertex "A" [mkEdge 1%nat "x" 5]; mkVertex "B" []])) in H1.
  destruct H1 as (g1 & H1 & Hv1 & _).
  pose proof (Graph_add_edge_view g1 _ _ "A" "B" "y" 7 Hv1) as H2.
  change (view_add_edge m1 _ "A" "B" "y" 7)
    with (Ok (m1, [mkVertex "A" [mkEdge 1%nat "x" 5; mkEdge 1%nat "y" 7];
                   mkVertex "B" []])) in H2.
  destruct H2 as (g2 & H2 & Hv2 & _).
  exists g0, g1, g2. split; [done|]. split; [done|].
  split; [by rewrite (Graph_edges_from_view g1 _ _ "A" Hv1)|].
  split; [destruct Hv1 as (_ & _ & ->); done|].
  split; [done|].
  split; [by rewrite (Graph_edges_from_view g2 _ _ "A" Hv2)|].
  destruct Hv2 as (Hwf & Hget & _).
  apply (Graph_remove_edge_raises g2 "A" 0%nat); [done|]. by rewrite Hget.
Qed.

End GraphExample.

(** A stand-in for the salted hash of a string: the sum of its character
    codes. *)
Fixpoint str_hash (s : string) : Z :=
  match s with
  | EmptyString => 0
  | String c s' => Z.of_nat (nat_of_ascii c) + str_hash s'
  end.

(** The graph after [add_edge("A", "B", "x", 5.0)]. *)
Definition graph_A_B : Graph string string :=
  mkGraph (table [[]; []; [mkPair "A" 0%nat]; [mkPair "B" 1%nat]; []; []; []]
                 (default_hash_function str_hash) 2)
          [mkVertex "A" [mkEdge 1%nat "x" 5]; mkVertex "B" []].

Lemma graph_A_B_built : graph_built str_hash graph_A_B.
Proof.
  apply (built_add_edge str_hash
           (mkGraph (table (replicate 7 []) (default_hash_function str_hash) 0) [])
           "A" "B" "x" 5).
  - apply built_init. reflexivity.
  - vm_compute. reflexivity.
Qed.

Lemma add_vertex_replaces_vertex_witness :
  hm_wf (_vertices graph_A_B) /\
  HashMap_contains (_vertices graph_A_B) "A" = Ok true /\
  exists g',
    Graph_add_vertex graph_A_B "A" = Ok g' /\
    HashMap_getitem (_vertices g') "A" = Ok (length (heap graph_A_B)) /\
    heap g' = heap graph_A_B ++ [mkVertex "A" LinkedList_init] /\
    Graph_edges_from g' "A" = Ok (Array_init 0 None) /\
    forall d', d' <> "A" ->
      HashMap_getitem (_vertices g') d' = HashMap_getitem (_vertices graph_A_B) d'.
Proof.
  assert (hm_wf (_vertices graph_A_B)) as Hwf.
  { apply hm_exact_wf. by destruct (graph_built_closed _ _ graph_A_B_built). }
  assert (HashMap_contains (_vertices graph_A_B) "A" = Ok true) as Hin by reflexivity.
  split; [exact Hwf|]. split; [exact Hin|].
  exact (add_vertex_replaces_vertex graph_A_B "A" Hwf Hin).
Defined.

(** ** Views of hash maps *)

(** A computation on hash maps [refines] a computation on views when it
    raises the same exception or returns a map with the returned view. *)
Definition refines {C A : Type} (R : C -> A -> Prop) (rc : result C) (ra : result A)
  : Prop :=
  match ra with
  | Ok a => exists c, rc = Ok c /\ R c a
  | Raise e => rc = Raise e
  end.

Lemma refines_bind {C A C' A' : Type} (R : C -> A -> Prop) (R' : C' -> A' -> Prop)
    (rc : result C) (ra : result A) (fc : C -> result C') (fa : A -> result A') :
  refines R rc ra ->
  (forall c a, R c a -> refines R' (fc c) (fa a)) ->
  refines R' (rc ≫= fc) (ra ≫= fa).
Proof.
  unfold refines at 1. destruct ra as [a|e].
  - intros (c & -> & Hr) Hf. simpl. by apply Hf.
  - intros -> _. done.
Qed.

Lemma refines_foldM {C A X : Type} (R : C -> A -> Prop)
    (bc : C -> X -> result C) (ba : A -> X -> result A) (xs : list X) c a :
  (forall c a x, x ∈ xs -> R c a -> refines R (bc c x) (ba a x)) ->
  R c a -> refines R (foldM bc xs c) (foldM ba xs a).
Proof.
  revert c a. induction xs as [|x xs IH]; intros c a Hb Hr; simpl.
  - by exists c.
  - apply (refines_bind R R); [apply Hb; [left | done]|].
    intros c' a' Hr'. apply IH; [|done]. intros ? ? ? ?. apply Hb. by right.
Qed.

Lemma foldM_ext {A S : Type} (f g : S -> A -> result S) (xs : list A) (acc : S) :
  (forall acc x, f acc x = g acc x) -> foldM f xs acc = foldM g xs acc.
Proof.
  intros Hfg. revert acc. induction xs as [|x xs IH]; intros acc; simpl; [done|].
  rewrite Hfg. destruct (g acc x); simpl; [apply IH | done].
Qed.

Section MapViews.
Context {K V : Type} `{EqDecision K} `{EqDecision V}.
Implicit Types (h : HashMap K V) (m : K -> option V) (k : K) (v : V).

(** The view of a hash map that does not depend on its hash function:
    the value bound to each key, and the length. *)
Definition map_view h (mv : (K -> option V) * Z) : Prop :=
  hm_exact h /\ (forall k, hm_get h k = mv.1 k) /\ HashMap_len h = mv.2.

Definition view_get m k : result V :=
  match m k with
  | Some v => Ok v
  | None => Raise KeyError
  end.

Definition view_contains m k : bool :=
  match m k with
  | Some _ => true
  | None => false
  end.

Definition view_set (mv : (K -> option V) * Z) k v : (K -> option V) * Z :=
  (fun k' => if decide (k' = k) then Some v else mv.1 k',
   match mv.1 k with Some _ => mv.2 | None => mv.2 + 1 end).

Lemma getitem_view h mv k : map_view h mv -> HashMap_getitem h k = view_get mv.1 k.
Proof.
  intros (Hex & Hget & _). rewrite getitem_wf by (by apply hm_exact_wf).
  by rewrite Hget.
Qed.

Lemma contains_view h mv k :
  map_view h mv -> HashMap_contains h k = Ok (view_contains mv.1 k).
Proof.
  intros (Hex & Hget & _). rewrite contains_wf by (by apply hm_exact_wf).
  by rewrite Hget.
Qed.

Lemma setitem_exact_len h k v :
  hm_exact h ->
  exists h', HashMap_setitem h k v = Ok h' /\ hm_exact h' /\
    (forall k', hm_get h' k' = if decide (k' = k) then Some v else hm_get h k') /\
    HashMap_len h' = match hm_get h k with
                     | Some _ => HashMap_len h
                     | None => HashMap_len h + 1
                     end.
Proof.
  intros (cs & hf & -> & Hok & Hcs).
  destruct (setitem_table 498 cs hf (stored cs) k v Hok Hcs ltac:(lia))
    as (cs' & c' & Hs & Hcs' & Hc' & Hex & Hlk & Hst).
  rewrite (Hex eq_refl) in Hs.
  exists (table cs' hf (stored cs')). rewrite HashMap_setitem_depth.
  split; [done|]. split; [by exists cs', hf|].
  destruct Hcs as (Hn & _), Hcs' as (Hn' & _). split.
  - intros k'. by rewrite !hm_get_table, Hlk.
  - rewrite hm_get_table by done. unfold HashMap_len. cbn [_count table].
    rewrite Hst. destruct (tlookup cs hf k); lia.
Qed.

Lemma setitem_view h mv k v :
  map_view h mv -> refines map_view (HashMap_setitem h k v) (Ok (view_set mv k v)).
Proof.
  intros (Hex & Hget & Hlen).
  destruct (setitem_exact_len h k v Hex) as (h' & Hs & Hex' & Hget' & Hlen').
  exists h'. split; [done|]. split; [done|]. split.
  - intros k'. simpl. rewrite Hget'. by destruct (decide (k' = k)).
  - simpl. by rewrite Hlen', Hget, Hlen.
Qed.

Lemma HashMap_new_view (pyhash : K -> Z) :
  refines map_view (HashMap_new (V:=V) pyhash) (Ok (fun _ => None, 0)).
Proof.
  destruct (HashMap_new_wf (V:=V) pyhash) as (h & Hh & Hex & _ & Hlen & Hget).
  exists h. by repeat split.
Qed.

(** The values of a hash map, in the order of its buckets. *)
Lemma values_view h mv :
  map_view h mv ->
  exists l : list (K * V),
    HashMap_values h = Ok (map snd l) /\ NoDup (fst <$> l) /\
    (forall k v, (k, v) ∈ l <-> mv.1 k = Some v) /\ Z.of_nat (length l) = mv.2.
Proof.
  intros (Hex & Hget & Hlen).
  destruct (snapshots_wf h (hm_exact_wf h Hex)) as (l & _ & _ & Hv & Hnd & Hin & _ & Hl).
  exists l. split; [done|]. split; [done|]. split.
  - intros k v. by rewrite Hin, Hget.
  - by rewrite <- Hlen, Hl.
Qed.

End MapViews.

(** ** The shortest-path engine on views *)

Section EngineViews.
Context {ED : Type} `{EqDecision ED}.

(** The views of the table of distances, of the table of connections and
    of both. *)
Definition dview : Type := (Airport -> option Q) * Z.
Definition pview : Type := (Airport -> option (option Airport)) * Z.
Definition tview : Type := dview * pview.

Definition tables_view
    (t : HashMap Airport Q * HashMap Airport (option Airport)) (tv : tview) : Prop :=
  map_view t.1 tv.1 /\ map_view t.2 tv.2.

(** The functions of [Dijkstra], with every table replaced by its view. *)
Definition view_distance_of (dm : Airport -> option Q) (vertex : option Airport)
  : result Q :=
  match vertex with
  | Some vertex => view_get dm vertex
  | None => Raise KeyError
  end.

Definition view_select_minimum (dm : Airport -> option Q)
    (vertex_array : Array (option Airport)) : result (option Airport) :=
  foldM (fun minimum_distance_vertex vertex =>
           d ← view_distance_of dm vertex;
           if Qgtb d (-1)
           then match minimum_distance_vertex with
                | None => Ok vertex
                | Some m =>
                    d ← view_distance_of dm vertex;
                    dmin ← view_get dm m;
                    if Qltb d dmin then Ok vertex else Ok minimum_distance_vertex
                end
           else Ok minimum_distance_vertex)
        (Array_iter vertex_array) None.

Definition view_relax (store : list (_Vertex Airport ED))
    (minimum_distance_vertex : Airport) (tv : tview) (route : option (_Edge ED))
  : result tview :=
  let '(dv, pv) := tv in
  match route with
  | None => Raise AttributeError
  | Some route =>
      dm ← view_get dv.1 minimum_distance_vertex;
      let path := (dm + _weight route)%Q in
      destination ← deref store (_destination_vertex route);
      d ← view_get dv.1 (_vertex_data destination);
      improves ← (if Qeq_bool d (-1) then Ok true
                  else d ← view_get dv.1 (_vertex_data destination);
                       Ok (Qltb path d));
      if (improves : bool)
      then Ok (view_set dv (_vertex_data destination) path,
               view_set pv (_vertex_data destination) (Some minimum_distance_vertex))
      else Ok (dv, pv)
  end.

Fixpoint view_loop (fuel : nat) (E : Airport -> result (Array (option (_Edge ED))))
    (store : list (_Vertex Airport ED)) (tv : tview)
    (vertex_array : Array (option Airport)) : result tview :=
  n ← Array_len vertex_array;
  if n =? 0 then Ok tv
  else
    match fuel with
    | O => Raise OutOfFuel
    | S fuel' =>
        minimum_distance_vertex ← view_select_minimum tv.1.1 vertex_array;
        vertex_array ← delete_selected (seqZ 0 n) vertex_array minimum_distance_vertex;
        match minimum_distance_vertex with
        | None => Ok tv
        | Some u =>
            routes_array ← E u;
            tv ← foldM (view_relax store u) (Array_iter routes_array) tv;
            view_loop fuel' E store tv vertex_array
        end
    end.

(** The distances after the loop that fills the working array. *)
Definition view_reset (origin : Airport) (order : list Airport) (dv : dview) : dview :=
  foldl (fun dv vertex =>
           if decide (vertex <> origin) then view_set dv vertex (-1)%Q else dv)
        dv order.

(** [order] is what [self._airports.values()] returns. *)
Definition view_find_shortest_paths (E : Airport -> result (Array (option (_Edge ED))))
    (store : list (_Vertex Airport ED)) (order : list Airport) (origin : Airport)
    (tv : tview) : result tview :=
  let pv := view_set tv.2 origin None in
  let dv := view_reset origin order (view_set tv.1 origin 0%Q) in
  view_loop (S (length order)) E store (dv, pv)
            (mkArray (Some <$> order) (Z.of_nat (length order))
                     (Z.of_nat (length order)) None).

Fixpoint view_walk_back (fuel : nat) (pm : Airport -> option (option Airport))
    (stack : ListStack string) (origin_airport vertex : Airport)
  : result (ListStack string * bool) :=
  if decide (vertex = origin_airport) then Ok (stack, true)
  else
    match fuel with
    | O => Raise OutOfFuel
    | S fuel' =>
        let stack := ListStack_push stack (airport_code vertex) in
        previous ← view_get pm vertex;
        match previous with
        | None => Ok (stack, false)
        | Some vertex' => view_walk_back fuel' pm stack origin_airport vertex'
        end
    end.

(** The functions on tables refine the functions on views. *)
Lemma distance_of_view dh dv vertex :
  map_view dh dv -> distance_of dh vertex = view_distance_of dv.1 vertex.
Proof. intros Hv. destruct vertex; [by apply getitem_view | done]. Qed.

Lemma select_minimum_view dh dv vertex_array :
  map_view dh dv ->
  select_minimum dh vertex_array = view_select_minimum dv.1 vertex_array.
Proof.
  intros Hv. unfold select_minimum, view_select_minimum. apply foldM_ext.
  intros acc x. cbv beta. rewrite (distance_of_view dh dv) by done.
  destruct (view_distance_of dv.1 x) as [d|]; simpl; [|done].
  destruct (Qgtb d (-1)); [|done]. destruct acc as [m|]; [|done].
  by rewrite (getitem_view dh dv) by done.
Qed.

Lemma relax_view (g : Graph Airport ED) u t tv route :
  tables_view t tv ->
  refines tables_view (relax g u t route) (view_relax (heap g) u tv route).
Proof.
  destruct t as [dh ph], tv as [dv pv]. intros [Hd Hp]. simpl in Hd, Hp.
  unfold relax, view_relax. destruct route as [route|]; [|done].
  rewrite (getitem_view dh dv) by done.
  destruct (view_get dv.1 u) as [dm|]; simpl; [|done].
  destruct (deref (heap g) (_destination_vertex route)) as [destination|]; simpl; [|done].
  rewrite (getitem_view dh dv) by done.
  destruct (view_get dv.1 (_vertex_data destination)) as [d|]; simpl; [|done].
  destruct (if Qeq_bool d (-1) then Ok true else Ok (Qltb (dm + _weight route) d))
    as [[|]|] eqn:Himp; simpl.
  - destruct (setitem_view dh dv (_vertex_data destination) (dm + _weight route)%Q Hd)
      as (dh' & -> & Hd').
    destruct (setitem_view ph pv (_vertex_data destination) (Some u) Hp)
      as (ph' & -> & Hp').
    simpl. by eexists.
  - by eexists.
  - by destruct (Qeq_bool d (-1)).
Qed.

Lemma loop_view fuel (g : Graph Airport ED) E t tv vertex_array :
  (forall u, Graph_edges_from g u = E u) -> tables_view t tv ->
  refines tables_view (shortest_paths_loop fuel g t vertex_array)
                      (view_loop fuel E (heap g) tv vertex_array).
Proof.
  intros HE. revert t tv vertex_array.
  induction fuel as [|fuel IH]; intros t tv vertex_array Ht;
    cbn [shortest_paths_loop view_loop];
    destruct (Array_len vertex_array) as [n|]; simpl; try done;
    destruct (n =? 0); try (by eexists); try done.
  rewrite (select_minimum_view t.1 tv.1) by apply Ht.
  destruct (view_select_minimum tv.1.1 vertex_array) as [minimum|]; simpl; [|done].
  destruct (delete_selected (seqZ 0 n) vertex_array minimum) as [vertex_array'|];
    simpl; [|done].
  destruct minimum as [u|]; [|by eexists].
  rewrite HE. destruct (E u) as [routes_array|]; simpl; [|done].
  apply (refines_bind tables_view tables_view).
  - apply refines_foldM; [|done]. intros c a x _ Hca. by apply relax_view.
  - intros c a Hca. by apply IH.
Qed.

Lemma walk_back_view fuel ph pv stack origin vertex :
  map_view ph pv ->
  walk_back fuel ph stack origin vertex = view_walk_back fuel pv.1 stack origin vertex.
Proof.
  intros Hp. revert stack vertex.
  induction fuel as [|fuel IH]; intros stack vertex; cbn [walk_back view_walk_back];
    destruct (decide (vertex = origin)); try done.
  rewrite (getitem_view ph pv) by done.
  destruct (view_get pv.1 vertex) as [[vertex'|]|]; simpl; [apply IH | done | done].
Qed.

End EngineViews.

Arguments shortest_paths_loop : simpl never.
Arguments view_loop : simpl never.
Arguments walk_back : simpl never.
Arguments view_walk_back : simpl never.
Arguments HashMap_setitem : simpl never.
Arguments HashMap_getitem : simpl never.
Arguments HashMap_contains : simpl never.
Arguments HashMap_values : simpl never.

Section EngineRefinement.
Context {ED : Type} `{EqDecision ED}.
Implicit Types (self : Dijkstra ED) (g : Graph Airport ED) (tv : tview).

(** The tables of an engine and their views. *)
Definition engine_view self tv : Prop :=
  tables_view (_distances_from_origin self, _route_connections self) tv.

(** The loop of [find_shortest_paths] that resets the distances and fills
    the working array. *)
Lemma reset_loop_view (origin : Airport) (order : list Airport) (N : Z) :
  forall (j : nat) (acc : list (option Airport)) dh dv,
    map_view dh dv -> length acc = (j + length order)%nat ->
    exists dh',
      foldM (fun '(distances, vertex_array) '(index, vertex) =>
               distances ← (if decide (vertex <> origin)
                            then HashMap_setitem distances vertex (-1)%Q
                            else Ok distances);
               vertex_array ← Array_setitem vertex_array (Z.of_nat index) (Some vertex);
               Ok (distances, vertex_array))
            (zip (seq j (length order)) order) (dh, mkArray acc N N None)
      = Ok (dh', mkArray (take j acc ++ (Some <$> order) ++ drop (j + length order) acc)
                         N N None) /\
      map_view dh' (view_reset origin order dv).
Proof.
  induction order as [|vertex order IH]; intros j acc dh dv Hd Hlen; simpl.
  - exists dh. by rewrite Nat.add_0_r, take_drop.
  - simpl in Hlen.
    assert (exists dh1,
              (if decide (vertex <> origin)
               then HashMap_setitem dh vertex (-1)%Q else Ok dh) = Ok dh1 /\
              map_view dh1 (if decide (vertex <> origin)
                            then view_set dv vertex (-1)%Q else dv))
      as (dh1 & -> & Hd1).
    { destruct (decide (vertex <> origin)); [|by exists dh].
      destruct (setitem_view dh dv vertex (-1)%Q Hd) as (dh1 & ? & ?). by exists dh1. }
    simpl. rewrite Array_setitem_Ok by (simpl; lia). simpl.
    destruct (IH (S j) (<[j := Some vertex]> acc) dh1 _ Hd1) as (dh' & Hf & Hd').
    { rewrite length_insert. lia. }
    exists dh'. split; [|exact Hd']. rewrite Hf. do 3 f_equal.
    rewrite (take_S_r _ j (Some vertex)) by (apply list_lookup_insert_eq; lia).
    rewrite take_insert_ge, drop_insert_lt by lia.
    rewrite <- app_assoc. simpl.
    by replace (S (j + length order)) with (j + S (length order))%nat by lia.
Qed.

Lemma find_shortest_paths_view self E (order : list Airport) av tv origin :
  (forall u, Graph_edges_from (_graph self) u = E u) ->
  map_view (_airports self) av ->
  HashMap_values (_airports self) = Ok order ->
  Z.of_nat (length order) = av.2 ->
  engine_view self tv ->
  refines (fun self' tv' =>
             engine_view self' tv' /\ _graph self' = _graph self /\
             _airports self' = _airports self /\
             _shortest_route self' = _shortest_route self)
          (find_shortest_paths self origin)
          (view_find_shortest_paths E (heap (_graph self)) order origin tv).
Proof.
  intros HE (_ & _ & Hlen) Hvalues Horder [Hd Hp]. simpl in Hd, Hp.
  unfold find_shortest_paths, view_find_shortest_paths.
  destruct (setitem_view _ _ origin None Hp) as (ph1 & -> & Hp1).
  destruct (setitem_view _ _ origin 0%Q Hd) as (dh1 & -> & Hd1).
  simpl. rewrite Hvalues. simpl. rewrite Hlen, <- Horder. unfold Array_init.
  rewrite Nat2Z.id.
  destruct (reset_loop_view origin order (Z.of_nat (length order)) 0
              (replicate (length order) None) dh1 _ Hd1) as (dh2 & -> & Hd2).
  { by rewrite length_replicate. }
  simpl. rewrite drop_ge, app_nil_r by (rewrite length_replicate; lia).
  rewrite length_fmap.
  pose proof (loop_view (S (length order)) (_graph self) E (dh2, ph1)
                (view_reset origin order (view_set tv.1 origin 0%Q),
                 view_set tv.2 origin None)
                (mkArray (Some <$> order) (Z.of_nat (length order))
                         (Z.of_nat (length order)) None) HE) as Hloop.
  unfold refines in Hloop |- *.
  destruct (view_loop _ _ _ _ _) as [tv'|e].
  - destruct Hloop as ([dh' ph'] & -> & Ht'); [by split|]. simpl.
    eexists. split; [done|]. split; [exact Ht' | done].
  - rewrite Hloop; [done | by split].
Qed.

(** The array of vertices of a graph that was built without removals has
    one vertex for each vertex data bound, and no empty slot. *)
Lemma fill_array_deref (store : list (_Vertex Airport ED)) (rs : list ref)
    (vs : list (_Vertex Airport ED)) (N : Z) :
  Forall2 (fun r vertex => deref store r = Ok vertex) rs vs ->
  forall (j : nat) (acc : list (option (_Vertex Airport ED))),
    length acc = (j + length rs)%nat ->
    foldM (fun vertices '(i, r) =>
             vertex ← deref store r;
             Array_setitem vertices (Z.of_nat i) (Some vertex))
          (zip (seq j (length rs)) rs) (mkArray acc N N None)
    = Ok (mkArray (take j acc ++ (Some <$> vs) ++ drop (j + length rs) acc) N N None).
Proof.
  induction 1 as [|r vertex rs vs Hr _ IH]; intros j acc Hlen; simpl.
  - by rewrite Nat.add_0_r, take_drop.
  - simpl in Hlen. rewrite Hr. simpl. rewrite Array_setitem_Ok by (simpl; lia). simpl.
    rewrite IH by (rewrite length_insert; lia). do 2 f_equal.
    rewrite (take_S_r _ j (Some vertex)) by (apply list_lookup_insert_eq; lia).
    rewrite take_insert_ge, drop_insert_lt by lia.
    rewrite <- app_assoc. simpl.
    by replace (S (j + length rs)) with (j + S (length rs))%nat by lia.
Qed.

Lemma Graph_vertices_closed g :
  graph_closed g ->
  exists vs : list (_Vertex Airport ED),
    Graph_vertices g
    = Ok (mkArray (Some <$> vs) (Z.of_nat (length vs)) (Z.of_nat (length vs)) None) /\
    NoDup (_vertex_data <$> vs) /\
    forall a, a ∈ _vertex_data <$> vs <-> is_Some (hm_get (_vertices g) a).
Proof.
  intros [Hex [Hs1 _]].
  destruct (snapshots_wf _ (hm_exact_wf _ Hex)) as (l & _ & _ & Hv & Hnd & Hin & _ & Hl).
  specialize (Hl Hex).
  assert (exists vs, Forall2 (fun r vertex => deref (heap g) r = Ok vertex) (map snd l) vs
                     /\ _vertex_data <$> vs = fst <$> l) as (vs & Hvs & Hdata).
  { assert (forall a r, (a, r) ∈ l -> vertex_data_at (heap g) r = Some a) as Hl'.
    { intros a r Har. apply Hs1. by apply Hin. }
    clear -Hl'. induction l as [|[a r] l IH]; [by exists []|].
    destruct IH as (vs & Hvs & Hdata); [intros; apply Hl'; by right|].
    pose proof (Hl' a r ltac:(left)) as Ha. unfold vertex_data_at in Ha.
    destruct (heap g !! r) as [vertex|] eqn:Hr; [|done]. injection Ha as Ha.
    exists (vertex :: vs). split.
    - simpl. constructor; [|done]. unfold deref. by rewrite Hr.
    - simpl. f_equal; [exact Ha | exact Hdata]. }
  assert (length vs = length l) as Hlen.
  { apply Forall2_length in Hvs. by rewrite length_map in Hvs. }
  exists vs. split; [|split].
  - unfold Graph_vertices. rewrite Hv. simpl. unfold Array_init. rewrite Hl, Nat2Z.id.
    rewrite (fill_array_deref _ _ vs _ Hvs 0) by (by rewrite length_replicate, length_map).
    rewrite drop_ge by (rewrite length_replicate, length_map; lia).
    by rewrite app_nil_r, Hlen.
  - by rewrite Hdata.
  - intros a. rewrite Hdata, list_elem_of_fmap. split.
    + intros ([a' r] & -> & Har). apply Hin in Har. by eexists.
    + intros [r Hr]. exists (a, r). split; [done | by apply Hin].
Qed.

(** The views of the tables that [Dijkstra.__init__] fills, from the
    vertex data in the order of the array of vertices. *)
Definition view_airports (datas : list Airport) : (string -> option Airport) * Z :=
  foldl (fun av a => view_set av (airport_code a) a) (fun _ => None, 0) datas.

Definition view_distances (datas : list Airport) : dview :=
  foldl (fun dv a => view_set dv a (-1)%Q) (fun _ => None, 0) datas.

Definition view_connections (datas : list Airport) : pview :=
  foldl (fun pv a => view_set pv a None) (fun _ => None, 0) datas.

Lemma init_airports_view (vs : list (_Vertex Airport ED)) ah av :
  map_view ah av ->
  refines map_view
    (foldM (fun airports airport =>
              match airport with
              | None => Raise AttributeError
              | Some airport =>
                  HashMap_setitem airports (airport_code (_vertex_data airport))
                                  (_vertex_data airport)
              end)
           (Some <$> vs) ah)
    (Ok (foldl (fun av a => view_set av (airport_code a) a) av (_vertex_data <$> vs))).
Proof.
  revert ah av. induction vs as [|vertex vs IH]; intros ah av Ha; simpl.
  - by exists ah.
  - destruct (setitem_view ah av (airport_code (_vertex_data vertex))
                (_vertex_data vertex) Ha) as (ah' & -> & Ha').
    simpl. by apply IH.
Qed.

Lemma init_tables_view (vs : list (_Vertex Airport ED)) t tv :
  tables_view t tv ->
  refines tables_view
    (foldM (fun '(distances, connections) vertex =>
              match vertex with
              | None => Raise AttributeError
              | Some vertex =>
                  distances ← HashMap_setitem distances (_vertex_data vertex) (-1)%Q;
                  connections ← HashMap_setitem connections (_vertex_data vertex) None;
                  Ok (distances, connections)
              end)
           (Some <$> vs) t)
    (Ok (foldl (fun dv a => view_set dv a (-1)%Q) tv.1 (_vertex_data <$> vs),
         foldl (fun pv a => view_set pv a None) tv.2 (_vertex_data <$> vs))).
Proof.
  revert t tv. induction vs as [|vertex vs IH]; intros [dh ph] [dv pv] [Hd Hp]; simpl.
  - by exists (dh, ph).
  - simpl in Hd, Hp.
    destruct (setitem_view dh dv (_vertex_data vertex) (-1)%Q Hd) as (dh' & -> & Hd').
    destruct (setitem_view ph pv (_vertex_data vertex) None Hp) as (ph' & -> & Hp').
    simpl. by apply (IH (dh', ph') (_, _)).
Qed.

Lemma Dijkstra_init_view (pyhash_airport : Airport -> Z) (pyhash_str : string -> Z) g :
  graph_closed g ->
  exists self datas,
    Dijkstra_init pyhash_airport pyhash_str g = Ok self /\
    _graph self = g /\ _shortest_route self = ListStack_init /\
    map_view (_airports self) (view_airports datas) /\
    engine_view self (view_distances datas, view_connections datas) /\
    NoDup datas /\
    forall a, a ∈ datas <-> is_Some (hm_get (_vertices g) a).
Proof.
  intros Hg. destruct (Graph_vertices_closed g Hg) as (vs & Hvs & Hnd & Hin).
  unfold Dijkstra_init.
  destruct (HashMap_new_view (V:=Q) pyhash_airport) as (dh0 & -> & Hd0).
  destruct (HashMap_new_view (V:=option Airport) pyhash_airport) as (ph0 & -> & Hp0).
  destruct (HashMap_new_view (V:=Airport) pyhash_str) as (ah0 & -> & Ha0).
  simpl. rewrite Hvs. simpl. unfold Array_iter. cbn [_items].
  destruct (init_airports_view vs ah0 _ Ha0) as (ah & -> & Ha).
  simpl.
  destruct (init_tables_view vs (dh0, ph0) (_, _) (conj Hd0 Hp0)) as ([dh ph] & -> & Ht).
  simpl. eexists _, (_vertex_data <$> vs).
  split; [done|]. by repeat (split; [done|]).
Qed.

End EngineRefinement.

Arguments find_shortest_paths : simpl never.
Arguments view_find_shortest_paths : simpl never.
Arguments print_legs : simpl never.

Section RunViews.
Context {ED : Type} `{EqDecision ED}.
Implicit Types (self : Dijkstra ED) (tv : tview).

(** [ask_airport] and [run] on views. *)
Fixpoint view_ask (am : string -> option Airport) (inputs : list string)
  : result (Airport * list string * list output) :=
  match inputs with
  | [] => Raise EOFError
  | line :: inputs' =>
      let code := upper line in
      if view_contains am code
      then airport ← view_get am code;
           Ok (airport, inputs', [])
      else '(airport, rest, printed) ← view_ask am inputs';
           Ok (airport, rest, NotAvailable code :: printed)
  end.

Fixpoint view_run_rec (fuel : nat) (am : string -> option Airport)
    (E : Airport -> result (Array (option (_Edge ED))))
    (store : list (_Vertex Airport ED)) (order : list Airport)
    (tv : tview) (stack : ListStack string) (inputs : list string)
  : result (tview * ListStack string * list string * list output) :=
  match fuel with
  | O => Raise EOFError
  | S fuel' =>
      '(origin_airport, inputs, printed1) ← view_ask am inputs;
      '(destination_airport, inputs, printed2) ← view_ask am inputs;
      tv ← view_find_shortest_paths E store order origin_airport tv;
      '(stack, route) ←
        view_walk_back (S (Z.to_nat tv.2.2)) tv.2.1 stack
                       origin_airport destination_airport;
      '(stack, printed3) ←
        (if (route : bool)
         then '(stack, legs) ← print_legs (S (length (_stack stack))) stack
                                          (airport_code origin_airport);
              total ← view_get tv.1.1 destination_airport;
              Ok (stack,
                  ShortestRouteIs (airport_code origin_airport)
                                  (airport_code destination_airport)
                  :: legs ++ [TotalMiles (round2 total)])
         else Ok (stack,
                  [NoCompleteRoute (airport_code origin_airport)
                                   (airport_code destination_airport)]));
      match inputs with
      | [] => Raise EOFError
      | play_again :: inputs =>
          if decide (lower play_again = "yes")
          then '(tv, stack, inputs, printed4) ←
                 view_run_rec fuel' am E store order tv stack inputs;
               Ok (tv, stack, inputs, printed1 ++ printed2 ++ printed3 ++ printed4)
          else Ok (tv, stack, inputs, printed1 ++ printed2 ++ printed3)
      end
  end.

Lemma ask_airport_view ah av inputs :
  map_view ah av -> ask_airport ah inputs = view_ask av.1 inputs.
Proof.
  intros Ha. induction inputs as [|line inputs IH]; [done|].
  cbn [ask_airport view_ask]. rewrite (contains_view ah av) by done. simpl.
  destruct (view_contains av.1 (upper line)).
  - by rewrite (getitem_view ah av) by done.
  - by rewrite IH.
Qed.

(** What relates an engine to the views of its tables and its stack. *)
Definition run_view (self0 : Dijkstra ED)
    (out : Dijkstra ED * list string * list output)
    (vout : tview * ListStack string * list string * list output) : Prop :=
  engine_view out.1.1 vout.1.1.1 /\ _shortest_route out.1.1 = vout.1.1.2 /\
  _graph out.1.1 = _graph self0 /\ _airports out.1.1 = _airports self0 /\
  out.1.2 = vout.1.2 /\ out.2 = vout.2.

Lemma run_rec_view fuel self E order av tv inputs :
  (forall u, Graph_edges_from (_graph self) u = E u) ->
  map_view (_airports self) av ->
  HashMap_values (_airports self) = Ok order ->
  Z.of_nat (length order) = av.2 ->
  engine_view self tv ->
  refines (run_view self)
          (run_rec fuel self inputs)
          (view_run_rec fuel av.1 E (heap (_graph self)) order tv
                        (_shortest_route self) inputs).
Proof.
  intros HE Ha Hvalues Horder. revert self tv inputs HE Ha Hvalues Horder.
  induction fuel as [|fuel IH]; intros self tv inputs HE Ha Hvalues Horder Ht; [done|].
  cbn [run_rec view_run_rec].
  rewrite (ask_airport_view _ av) by done.
  destruct (view_ask av.1 inputs) as [[[origin inputs1] printed1]|]; simpl; [|done].
  rewrite (ask_airport_view _ av) by done.
  destruct (view_ask av.1 inputs1) as [[[destination inputs2] printed2]|]; simpl; [|done].
  pose proof (find_shortest_paths_view self E order av tv origin HE Ha Hvalues Horder Ht)
    as Hfsp.
  unfold refines in Hfsp.
  destruct (view_find_shortest_paths E (heap (_graph self)) order origin tv)
    as [tv'|]; simpl; [|by rewrite Hfsp].
  destruct Hfsp as (self' & -> & Ht' & Hg' & Ha' & Hs'). simpl.
  pose proof Ht' as [Hd' Hp']. simpl in Hd', Hp'.
  rewrite (walk_back_view _ _ tv'.2) by done.
  destruct Hp' as (Hpex & Hpget & Hplen). rewrite Hplen, Hs'.
  destruct (view_walk_back (S (Z.to_nat tv'.2.2)) tv'.2.1 (_shortest_route self)
              origin destination) as [[stack route]|]; simpl; [|done].
  rewrite (getitem_view _ tv'.1) by done.
  destruct (if route
            then '(stack0, legs) ← print_legs (S (length (_stack stack))) stack
                                              (airport_code origin);
                 total ← view_get tv'.1.1 destination;
                 Ok (stack0,
                     ShortestRouteIs (airport_code origin) (airport_code destination)
                     :: legs ++ [TotalMiles (round2 total)])
            else Ok (stack,
                     [NoCompleteRoute (airport_code origin) (airport_code destination)]))
    as [[stack' printed3]|]; simpl; [|done].
  destruct inputs2 as [|play_again inputs3]; [done|].
  destruct (decide (lower play_again = "yes")).
  - set (self'' := mkDijkstra (_graph self') (_distances_from_origin self')
                              (_route_connections self') stack' (_airports self')).
    specialize (IH self'' tv' inputs3). simpl in IH.
    rewrite Hg', Ha' in IH. specialize (IH HE Ha Hvalues Horder Ht').
    unfold refines in IH.
    destruct (view_run_rec fuel av.1 E (heap (_graph self)) order tv' stack' inputs3)
      as [[[[tv'' stack''] inputs''] printed4]|]; simpl; [|by rewrite IH].
    destruct IH as ([[self3 inputs4] printed5] & -> & Hr). simpl.
    destruct Hr as (Hr1 & Hr2 & Hr3 & Hr4 & Hr5 & Hr6). simpl in *.
    eexists. split; [done|]. unfold run_view. simpl.
    rewrite Hr3, Hr4, Hr5, Hr6. by rewrite Hg', Ha'.
  - eexists. split; [done|]. unfold run_view. simpl. by rewrite Hg', Ha'.
Qed.

End RunViews.

(** ** The tables of a new engine *)

Lemma view_fill_lookup {K V : Type} `{EqDecision K} (f : K -> V) (l : list K)
    (mv : (K -> option V) * Z) (k : K) :
  (foldl (fun mv a => view_set mv a (f a)) mv l).1 k
  = if decide (k ∈ l) then Some (f k) else mv.1 k.
Proof.
  revert mv. induction l as [|a l IH]; intros mv; simpl.
  - destruct (decide (k ∈ [])) as [Hin|]; [by apply elem_of_nil in Hin | done].
  - rewrite IH. simpl.
    destruct (decide (k ∈ l)) as [Hin|Hin], (decide (k ∈ a :: l)) as [Hin'|Hin'],
             (decide (k = a)) as [->|Hne]; try done.
    all: try (by exfalso; apply Hin'; right).
    all: try (by exfalso; apply Hin'; left).
    all: by apply elem_of_cons in Hin' as [?|?].
Qed.

Lemma view_distances_lookup (datas : list Airport) (a : Airport) :
  (view_distances datas).1 a = if decide (a ∈ datas) then Some (-1)%Q else None.
Proof. apply (view_fill_lookup (fun _ => (-1)%Q)). Qed.

Lemma view_connections_lookup (datas : list Airport) (a : Airport) :
  (view_connections datas).1 a = if decide (a ∈ datas) then Some None else None.
Proof. apply (view_fill_lookup (fun _ => @None Airport)). Qed.

Lemma view_airports_Some (datas : list Airport) (code : string) (a : Airport) :
  (view_airports datas).1 code = Some a -> a ∈ datas /\ airport_code a = code.
Proof.
  unfold view_airports. induction datas as [|a' datas IH] using rev_ind; [done|].
  rewrite foldl_app. simpl. destruct (decide (code = airport_code a')) as [->|].
  - intros [= <-]. split; [|done]. apply elem_of_app. right. left.
  - intros [Hin Hc]%IH. split; [|done]. apply elem_of_app. by left.
Qed.

Lemma view_airports_NoDup (datas : list Airport) (a : Airport) :
  NoDup (airport_code <$> datas) -> a ∈ datas ->
  (view_airports datas).1 (airport_code a) = Some a.
Proof.
  unfold view_airports. induction datas as [|a' datas IH] using rev_ind.
  - by intros _ ?%elem_of_nil.
  - rewrite fmap_app, foldl_app. simpl. intros (Hnd & Hdisj & _)%NoDup_app.
    intros [Hin| ->%list_elem_of_singleton]%elem_of_app.
    + rewrite decide_False; [by apply IH|]. intros Hc.
      apply (Hdisj (airport_code a)); [by apply list_elem_of_fmap_2|].
      rewrite Hc. left.
    + by rewrite decide_True.
Qed.

(** The order in which the airports are visited: the values of the table
    of airports.  They are vertices of the graph, and all of them when no
    two vertices share a code. *)
Lemma airports_order (ah : HashMap string Airport) (datas : list Airport) :
  map_view ah (view_airports datas) ->
  exists order,
    HashMap_values ah = Ok order /\
    Z.of_nat (length order) = (view_airports datas).2 /\
    (forall a, a ∈ order -> a ∈ datas) /\
    (NoDup datas -> NoDup (airport_code <$> datas) -> order ≡ₚ datas).
Proof.
  intros Ha. destruct (values_view ah _ Ha) as (l & Hv & Hnd & Hin & Hlen).
  exists (map snd l). split; [done|]. split; [by rewrite length_map|]. split.
  - intros a Ha'. apply list_elem_of_In, in_map_iff in Ha' as ([code a'] & Heq & Hl).
    simpl in Heq. subst a'.
    apply list_elem_of_In, Hin, view_airports_Some in Hl. tauto.
  - intros Hnd1 Hnd2.
    assert (l ≡ₚ (fun a => (airport_code a, a)) <$> datas) as Hl.
    { apply NoDup_Permutation.
      - by apply (NoDup_fmap_1 fst).
      - apply NoDup_fmap_2_strong; [|done]. by intros ? ? _ _ [= _ ->].
      - intros [code a]. rewrite Hin, list_elem_of_fmap. split.
        + intros [Ha' Hc]%view_airports_Some. exists a. by rewrite Hc.
        + intros (a' & [= -> ->] & Ha'). by apply view_airports_NoDup. }
    change (map snd l) with (snd <$> l). rewrite Hl, <- list_fmap_compose.
    by rewrite list_fmap_id.
Qed.

(** ** Three airports *)

#[global] Instance output_eq_dec : EqDecision output.
Proof. solve_decision. Defined.

Definition airport_A : Airport := mkAirport "A" "Airport A" 1 "City A" "Land" 0 0.
Definition airport_B : Airport := mkAirport "B" "Airport B" 2 "City B" "Land" 0 0.
Definition airport_C : Airport := mkAirport "C" "Airport C" 3 "City C" "Land" 0 0.

(** The view of the graph with the edges A→B of weight 1, B→C of weight 2
    and A→C of weight 10, added in this order. *)
Definition three_bindings : Airport -> option ref :=
  bind_vertex (bind_vertex (bind_vertex (fun _ => None) airport_A 0%nat) airport_B 1%nat)
              airport_C 2%nat.

Definition three_store : list (_Vertex Airport string) :=
  [mkVertex airport_A [mkEdge 1%nat "AB" 1; mkEdge 2%nat "AC" 10];
   mkVertex airport_B [mkEdge 2%nat "BC" 2];
   mkVertex airport_C []].

(** What a run from A to C prints and which lines it leaves unread, when
    the array of vertices lists the airports as [datas] and the table of
    airports lists them as [order]. *)
Definition run_A_C (datas order : list Airport) : option (list string * list output) :=
  match view_run_rec 3 (view_airports datas).1
                     (view_edges_from three_bindings three_store) three_store order
                     (view_distances datas, view_connections datas)
                     ListStack_init ["A"; "C"; "no"]%string with
  | Ok r => Some (r.1.2, r.2)
  | Raise _ => None
  end.

Definition route_A_B_C : list output :=
  [ShortestRouteIs "A" "C"; Leg "A" "B"; Leg "B" "C"; TotalMiles 3].

Lemma run_A_C_any_order :
  forallb (fun datas =>
             forallb (fun order =>
                        bool_decide (run_A_C datas order = Some ([], route_A_B_C)))
                     (permutations [airport_A; airport_B; airport_C]))
          (permutations [airport_A; airport_B; airport_C]) = true.
Proof. vm_compute. reflexivity. Qed.

Section ThreeAirports.
Variable pyhash_airport : Airport -> Z.
Variable pyhash_str : string -> Z.

(** C1.  For the graph with the vertices A, B and C and the edges A→B of
    weight 1, B→C of weight 2 and A→C of weight 10, a run of the engine
    from A to C prints the route A to B, B to C and the total distance 3,
    not the direct edge of weight 10 -- whatever the hash functions are. *)
Theorem dijkstra_takes_two_leg_route :
  exists (g0 g1 g2 g : Graph Airport string) (self self' : Dijkstra string),
    Graph_init pyhash_airport = Ok g0 /\
    Graph_add_edge g0 airport_A airport_B "AB" 1 = Ok g1 /\
    Graph_add_edge g1 airport_B airport_C "BC" 2 = Ok g2 /\
    Graph_add_edge g2 airport_A airport_C "AC" 10 = Ok g /\
    Dijkstra_init pyhash_airport pyhash_str g = Ok self /\
    Dijkstra_run self ["A"; "C"; "no"]%string
    = Ok (self', [],
          [ShortestRouteIs "A" "C"; Leg "A" "B"; Leg "B" "C"; TotalMiles 3]).
Proof.
  destruct (Graph_init_view (ED:=string) pyhash_airport) as (g0 & H0 & Hv0 & _).
  pose proof (Graph_add_edge_view g0 _ _ airport_A airport_B "AB" 1 Hv0) as H1.
  change (view_add_edge (fun _ => None) [] airport_A airport_B "AB" 1)
    with (Ok (bind_vertex (bind_vertex (fun _ => None) airport_A 0%nat) airport_B 1%nat,
              [mkVertex airport_A [mkEdge 1%nat "AB"%string 1]; mkVertex airport_B []]))
    in H1.
  destruct H1 as (g1 & H1 & Hv1 & _).
  pose proof (Graph_add_edge_view g1 _ _ airport_B airport_C "BC" 2 Hv1) as H2.
  change (view_add_edge _ _ airport_B airport_C "BC" 2)
    with (Ok (three_bindings,
              [mkVertex airport_A [mkEdge 1%nat "AB"%string 1];
               mkVertex airport_B [mkEdge 2%nat "BC"%string 2];
               mkVertex airport_C []])) in H2.
  destruct H2 as (g2 & H2 & Hv2 & _).
  pose proof (Graph_add_edge_view g2 _ _ airport_A airport_C "AC" 10 Hv2) as H3.
  change (view_add_edge _ _ airport_A airport_C "AC" 10)
    with (Ok (three_bindings, three_store)) in H3.
  destruct H3 as (g & H3 & Hv & _).
  assert (graph_closed g) as Hclosed.
  { apply (graph_built_closed pyhash_airport).
    eapply built_add_edge; [|exact H3]. eapply built_add_edge; [|exact H2].
    eapply built_add_edge; [|exact H1]. by apply built_init. }
  destruct (Dijkstra_init_view pyhash_airport pyhash_str g Hclosed)
    as (self & datas & Hinit & Hg & Hstack & Ha & Ht & Hnd & Hin).
  destruct Hv as (Hwf & Hget & Hheap).
  assert (datas ∈ permutations [airport_A; airport_B; airport_C]) as Hdatas.
  { apply permutations_Permutation, NoDup_Permutation; [|done|].
    - apply (bool_decide_unpack _). by vm_compute.
    - intros a. rewrite Hin, Hget. unfold three_bindings, bind_vertex.
      rewrite !elem_of_cons, elem_of_nil.
      repeat case_decide; subst; split; (by eexists) || (intros [? ?]; done) || tauto. }
  assert (NoDup (airport_code <$> datas)) as Hcodes.
  { apply permutations_Permutation in Hdatas. rewrite <- Hdatas.
    apply (bool_decide_unpack _). by vm_compute. }
  destruct (airports_order _ datas Ha) as (order & Hvalues & Hlen & _ & Horder).
  specialize (Horder Hnd Hcodes).
  assert (order ∈ permutations [airport_A; airport_B; airport_C]) as Horder'.
  { apply permutations_Permutation. apply permutations_Permutation in Hdatas.
    by rewrite Hdatas. }
  pose proof run_A_C_any_order as Hall.
  rewrite forallb_forall in Hall. specialize (Hall datas).
  rewrite <- list_elem_of_In in Hall. specialize (Hall Hdatas).
  rewrite forallb_forall in Hall. specialize (Hall order).
  rewrite <- list_elem_of_In in Hall. specialize (Hall Horder').
  apply bool_decide_eq_true in Hall.
  pose proof (run_rec_view 3 self (view_edges_from three_bindings three_store) order
                (view_airports datas) (view_distances datas, view_connections datas)
                ["A"; "C"; "no"]%string) as Hrun.
  rewrite Hg, Hheap, Hstack in Hrun.
  unfold run_A_C in Hall. unfold refines in Hrun.
  destruct (view_run_rec 3 _ _ _ _ _ _ _) as [[[[tv' stack'] rest] printed]|]; [|done].
  injection Hall as -> ->.
  destruct Hrun as ([[self' rest] printed] & Hrun & _ & _ & _ & _ & Hrest & Hprinted);
    try done.
  { intros u. by apply Graph_edges_from_view. }
  simpl in Hrest, Hprinted. subst rest printed.
  by exists g0, g1, g2, g, self, self'.
Qed.

End ThreeAirports.

(** ** The working array *)

(** The working array of the loop: as long as its logical size, every
    slot filled. *)
Definition working_array (vertex_array : Array (option Airport)) (l : list Airport)
  : Prop :=
  _items vertex_array = Some <$> l /\
  _logical_size vertex_array = Z.of_nat (length l).

Lemma delete_selected_from (vertex_array : Array (option Airport)) (l : list Airport)
    (u : Airport) (k : nat) :
  working_array vertex_array l ->
  forall j : nat,
    (j + k = length l)%nat -> u ∉ take j l -> u ∈ l ->
    exists vertex_array' l',
      delete_selected (seqZ (Z.of_nat j) (Z.of_nat k)) vertex_array (Some u)
      = Ok vertex_array' /\
      working_array vertex_array' l' /\ S (length l') = length l /\ l' ⊆ l.
Proof.
  intros [Hitems Hsize]. induction k as [|k IH]; intros j Hjk Hnot Hin.
  - exfalso. apply Hnot. by rewrite take_ge by lia.
  - rewrite Nat2Z.inj_succ, seqZ_cons by lia. cbn [delete_selected].
    destruct (lookup_lt_is_Some_2 l j ltac:(lia)) as [x Hx].
    rewrite (Array_getitem_Ok _ _ (Some x)) by (by rewrite Hitems, list_lookup_fmap, Hx).
    simpl. destruct (decide (Some x = Some u)) as [[= ->]|Hne].
    + exists (mkArray (Some <$> delete j l) (_physical_size vertex_array)
                      (Z.of_nat (length l) - 1) (_default_item_value vertex_array)),
             (delete j l).
      assert (length (delete j l) = length l - 1)%nat as Hlen.
      { rewrite length_delete by (by eexists). lia. }
      split; [|split; [|split]].
      * unfold Array_delitem, Array_len. rewrite Hsize.
        destruct (Z.ltb_spec (Z.of_nat j) 0); [lia|].
        destruct (Z.ltb_spec (Z.of_nat (length l)) 0); [lia|]. simpl.
        destruct (Z.ltb_spec (Z.of_nat j) (Z.of_nat (length l))); [|lia].
        unfold np_delete. rewrite Nat2Z.id, Hitems, length_fmap.
        rewrite decide_True by lia. simpl.
        by rewrite list_fmap_delete.
      * split; [done|]. simpl. lia.
      * lia.
      * intros y Hy. exact (elem_of_submseteq _ _ _ Hy (submseteq_delete l j)).
    + rewrite Z.pred_succ. rewrite <- Nat2Z.inj_succ.
      apply IH; [lia | | done].
      rewrite (take_S_r _ _ x) by done. intros [?|Hu]%elem_of_app; [done|].
      apply list_elem_of_singleton in Hu. congruence.
Qed.

Lemma delete_selected_none (vertex_array : Array (option Airport)) (l : list Airport)
    (indices : list Z) :
  working_array vertex_array l ->
  (forall i, i ∈ indices -> 0 <= i < Z.of_nat (length l)) ->
  delete_selected indices vertex_array None = Ok vertex_array.
Proof.
  intros [Hitems Hsize]. induction indices as [|i indices IH]; intros Hi; [done|].
  cbn [delete_selected].
  assert (0 <= i < Z.of_nat (length l)) as Hrange by (apply Hi; left).
  destruct (lookup_lt_is_Some_2 l (Z.to_nat i) ltac:(lia)) as [x Hx].
  replace i with (Z.of_nat (Z.to_nat i)) at 1 by lia.
  rewrite (Array_getitem_Ok _ _ (Some x)) by (by rewrite Hitems, list_lookup_fmap, Hx).
  simpl. apply IH. intros j Hj. apply Hi. by right.
Qed.

(** ** Routes of a graph *)

Section Routes.
Context {VD ED : Type} `{EqDecision VD} `{EqDecision ED}.
Implicit Types (g : Graph VD ED).

(** [has_edge g u v]: one of the edges that [edges_from(u)] returns leads
    to the vertex whose data is [v]. *)
Definition has_edge g (u v : VD) : Prop :=
  exists routes route destination,
    Graph_edges_from g u = Ok routes /\ Some route ∈ Array_iter routes /\
    deref (heap g) (_destination_vertex route) = Ok destination /\
    _vertex_data destination = v.

(** [connected g u v]: a chain of edges leads from [u] to [v]. *)
Inductive connected g (u : VD) : VD -> Prop :=
  | connected_here : connected g u u
  | connected_step v w : connected g u v -> has_edge g v w -> connected g u w.

(** The edges of a vertex of a graph that was built without removing a
    vertex: all of them lead to vertices of the graph. *)
Lemma edges_of_vertex g u :
  graph_closed g -> is_Some (hm_get (_vertices g) u) ->
  exists routes edges,
    Graph_edges_from g u = Ok routes /\ Array_iter routes = Some <$> edges /\
    forall edge, edge ∈ edges ->
      exists destination,
        deref (heap g) (_destination_vertex edge) = Ok destination /\
        is_Some (hm_get (_vertices g) (_vertex_data destination)).
Proof.
  intros [Hex [Hbound Hedges]] [r Hr].
  rewrite (Graph_edges_from_view g _ _ u (graph_view_self g (hm_exact_wf _ Hex))).
  unfold view_edges_from. rewrite Hr.
  pose proof (Hbound u r Hr) as Hat. unfold vertex_data_at in Hat.
  destruct (heap g !! r) as [vertex|] eqn:Hvertex; [|done].
  unfold deref at 1. rewrite Hvertex. simpl.
  eexists _, (_edges vertex). split; [done|]. split; [done|].
  intros edge Hedge. destruct (Hedges r vertex edge Hvertex Hedge) as (d' & Hd' & Hsome).
  unfold vertex_data_at in Hd'. unfold deref.
  destruct (heap g !! _destination_vertex edge) as [destination|]; [|done].
  injection Hd' as <-. by exists destination.
Qed.

End Routes.

(** ** What the tables hold while the shortest paths are computed *)

Section TablesInvariant.
Context {ED : Type} `{EqDecision ED}.
Variables (g : Graph Airport ED) (datas : list Airport) (origin : Airport).
Hypothesis g_closed : graph_closed g.
Hypothesis datas_spec : forall a, a ∈ datas <-> is_Some (hm_get (_vertices g) a).

(** Both tables have the vertices of the graph as keys; a distance other
    than the initial one and a connection are only recorded for a vertex
    that a chain of edges reaches from the origin. *)
Definition tables_inv (tv : tview) : Prop :=
  (forall a, is_Some (tv.1.1 a) <-> a ∈ datas) /\
  (forall a, is_Some (tv.2.1 a) <-> a ∈ datas) /\
  (forall v d, tv.1.1 v = Some d -> Qgtb d (-1) = true -> connected g origin v) /\
  (forall v u, tv.2.1 v = Some (Some u) -> connected g origin v).

Lemma relax_inv (u : Airport) (tv : tview) routes route :
  tables_inv tv -> u ∈ datas -> connected g origin u ->
  Graph_edges_from g u = Ok routes -> Some route ∈ Array_iter routes ->
  (exists destination,
     deref (heap g) (_destination_vertex route) = Ok destination /\
     _vertex_data destination ∈ datas) ->
  exists tv', view_relax (heap g) u tv (Some route) = Ok tv' /\ tables_inv tv'.
Proof.
  destruct tv as [dv pv]. intros (Hd & Hp & Hdist & Hprev) Hu Hreach Hroutes Hroute.
  intros (destination & Hdest & Hin). simpl in Hd, Hp, Hdist, Hprev.
  assert (connected g origin (_vertex_data destination)) as Hreach'.
  { apply (connected_step g origin u); [done|]. by exists routes, route, destination. }
  destruct (proj2 (Hd u) Hu) as [du Hdu]. destruct (proj2 (Hd _) Hin) as [dd Hdd].
  unfold view_relax, view_get. rewrite Hdu. simpl. rewrite Hdest. simpl.
  rewrite Hdd. simpl.
  assert (exists b : bool, (if Qeq_bool dd (-1) then Ok true
                            else Ok (Qltb (du + _weight route) dd)) = Ok b)
    as [b ->].
  { destruct (Qeq_bool dd (-1)); by eexists. }
  simpl. destruct b.
  - eexists. split; [done|]. unfold tables_inv, view_set. simpl.
    split; [|split; [|split]].
    + intros a. destruct (decide (a = _vertex_data destination)) as [->|]; [|by apply Hd].
      split; [done | by eexists].
    + intros a. destruct (decide (a = _vertex_data destination)) as [->|]; [|by apply Hp].
      split; [done | by eexists].
    + intros v d. destruct (decide (v = _vertex_data destination)) as [->|]; [done|].
      apply Hdist.
    + intros v u'. destruct (decide (v = _vertex_data destination)) as [->|]; [done|].
      apply Hprev.
  - eexists. split; [done|]. by split; [|split; [|split]].
Qed.

Lemma relax_all_inv (u : Airport) routes (edges : list (_Edge ED)) (tv : tview) :
  u ∈ datas -> connected g origin u ->
  Graph_edges_from g u = Ok routes ->
  (forall edge, edge ∈ edges ->
     Some edge ∈ Array_iter routes /\
     exists destination,
       deref (heap g) (_destination_vertex edge) = Ok destination /\
       _vertex_data destination ∈ datas) ->
  tables_inv tv ->
  exists tv', foldM (view_relax (heap g) u) (Some <$> edges) tv = Ok tv' /\
              tables_inv tv'.
Proof.
  intros Hu Hreach Hroutes. revert tv.
  induction edges as [|edge edges IH]; intros tv Hedges Hinv.
  - by exists tv.
  - destruct (Hedges edge ltac:(left)) as [Hin Hdest].
    destruct (relax_inv u tv routes edge Hinv Hu Hreach Hroutes Hin Hdest)
      as (tv1 & Hrelax & Hinv1).
    rewrite fmap_cons. cbn [foldM]. rewrite Hrelax. simpl.
    apply IH; [|done]. intros edge' Hedge'. apply Hedges. by right.
Qed.

(** The vertex that [select_minimum] returns is in the working array and
    has a distance other than the initial one. *)
Definition selected (dm : Airport -> option Q) (l : list Airport)
    (minimum : option Airport) : Prop :=
  match minimum with
  | None => True
  | Some u => u ∈ l /\ exists d, dm u = Some d /\ Qgtb d (-1) = true
  end.

Lemma select_minimum_scan (dm : Airport -> option Q) (l0 l : list Airport)
    (minimum : option Airport) :
  (forall a, a ∈ l -> is_Some (dm a)) -> (forall a, a ∈ l -> a ∈ l0) ->
  selected dm l0 minimum ->
  exists minimum',
    foldM (fun minimum_distance_vertex vertex =>
             d ← view_distance_of dm vertex;
             if Qgtb d (-1)
             then match minimum_distance_vertex with
                  | None => Ok vertex
                  | Some m =>
                      d ← view_distance_of dm vertex;
                      dmin ← view_get dm m;
                      if Qltb d dmin then Ok vertex else Ok minimum_distance_vertex
                  end
             else Ok minimum_distance_vertex)
          (Some <$> l) minimum = Ok minimum' /\
    selected dm l0 minimum'.
Proof.
  revert minimum. induction l as [|a l IH]; intros minimum Hkeys Hsub Hsel.
  - by exists minimum.
  - rewrite fmap_cons. cbn [foldM].
    destruct (Hkeys a ltac:(left)) as [d Hd].
    assert (forall a', a' ∈ l -> is_Some (dm a')) as Hkeys'
      by (intros a' Ha'; apply Hkeys; by right).
    assert (forall a', a' ∈ l -> a' ∈ l0) as Hsub'
      by (intros a' Ha'; apply Hsub; by right).
    assert (view_distance_of dm (Some a) = Ok d) as Hget.
    { simpl. unfold view_get. by rewrite Hd. }
    rewrite !Hget. simpl.
    destruct (Qgtb d (-1)) eqn:Hgt; [|by apply IH].
    assert (selected dm l0 (Some a)) as Hsel'.
    { split; [apply Hsub; left | by exists d]. }
    destruct minimum as [m|]; [|by apply IH].
    pose proof Hsel as (_ & dmin & Hdmin & _).
    assert (view_get dm m = Ok dmin) as -> by (unfold view_get; by rewrite Hdmin).
    simpl. destruct (Qltb d dmin); by apply IH.
Qed.

Lemma select_minimum_inv (tv : tview) vertex_array (l : list Airport) :
  tables_inv tv -> working_array vertex_array l -> (forall a, a ∈ l -> a ∈ datas) ->
  exists minimum,
    view_select_minimum tv.1.1 vertex_array = Ok minimum /\
    selected tv.1.1 l minimum.
Proof.
  intros (Hd & _) [Hitems _] Hl. unfold view_select_minimum, Array_iter.
  rewrite Hitems. apply select_minimum_scan; [|done|done].
  intros a Ha. by apply Hd, Hl.
Qed.

Lemma view_loop_unfold (fuel : nat) E (store : list (_Vertex Airport ED)) (tv : tview)
    vertex_array :
  view_loop fuel E store tv vertex_array
  = (n ← Array_len vertex_array;
     if n =? 0 then Ok tv
     else
       match fuel with
       | O => Raise OutOfFuel
       | S fuel' =>
           minimum_distance_vertex ← view_select_minimum tv.1.1 vertex_array;
           vertex_array ← delete_selected (seqZ 0 n) vertex_array
                                          minimum_distance_vertex;
           match minimum_distance_vertex with
           | None => Ok tv
           | Some u =>
               routes_array ← E u;
               tv ← foldM (view_relax store u) (Array_iter routes_array) tv;
               view_loop fuel' E store tv vertex_array
           end
       end).
Proof. by destruct fuel. Qed.

Lemma view_walk_back_unfold (fuel : nat) (pm : Airport -> option (option Airport))
    (stack : ListStack string) (origin_airport vertex : Airport) :
  view_walk_back fuel pm stack origin_airport vertex
  = if decide (vertex = origin_airport) then Ok (stack, true)
    else
      match fuel with
      | O => Raise OutOfFuel
      | S fuel' =>
          let stack := ListStack_push stack (airport_code vertex) in
          previous ← view_get pm vertex;
          match previous with
          | None => Ok (stack, false)
          | Some vertex' => view_walk_back fuel' pm stack origin_airport vertex'
          end
      end.
Proof. by destruct fuel. Qed.

(** The loop of [find_shortest_paths] ends, within as many rounds as the
    working array has slots, and keeps the invariant. *)
Lemma loop_inv (fuel : nat) (tv : tview) vertex_array (l : list Airport) :
  working_array vertex_array l -> (forall a, a ∈ l -> a ∈ datas) ->
  (length l <= fuel)%nat -> tables_inv tv ->
  exists tv',
    view_loop fuel (Graph_edges_from g) (heap g) tv vertex_array = Ok tv' /\
    tables_inv tv'.
Proof.
  revert tv vertex_array l.
  induction fuel as [|fuel IH]; intros tv vertex_array l Harr Hl Hfuel Hinv;
    pose proof Harr as [Hitems Hsize];
    rewrite view_loop_unfold; unfold Array_len; rewrite Hsize;
    (destruct (Z.ltb_spec (Z.of_nat (length l)) 0); [lia|]); simpl;
    (destruct (Z.eqb_spec (Z.of_nat (length l)) 0); [by exists tv|]); [lia|].
  destruct (select_minimum_inv tv vertex_array l Hinv Harr Hl) as (minimum & -> & Hsel).
  simpl. destruct minimum as [u|].
  - destruct Hsel as (Hu & d & Hd & Hgt).
    destruct (delete_selected_from vertex_array l u (length l) Harr 0%nat)
      as (vertex_array' & l' & Hdel & Harr' & Hlen & Hsub); [done | | done |].
    { simpl. apply not_elem_of_nil. }
    change (Z.of_nat 0) with 0 in Hdel. rewrite Hdel. simpl.
    assert (u ∈ datas) as Hu' by (by apply Hl).
    assert (connected g origin u) as Hreach.
    { destruct Hinv as (_ & _ & Hdist & _). by apply (Hdist u d). }
    destruct (edges_of_vertex g u g_closed (proj1 (datas_spec u) Hu'))
      as (routes & edges & Hroutes & Hiter & Hedges).
    rewrite Hroutes. simpl. rewrite Hiter.
    destruct (relax_all_inv u routes edges tv Hu' Hreach Hroutes) as (tv1 & -> & Hinv1);
      [|done|].
    { intros edge Hedge. split; [rewrite Hiter; by apply list_elem_of_fmap_2|].
      destruct (Hedges edge Hedge) as (destination & ? & ?). exists destination.
      split; [done|]. by apply datas_spec. }
    simpl. apply (IH tv1 vertex_array' l'); [done | | lia | done].
    intros a Ha. by apply Hl, Hsub.
  - rewrite (delete_selected_none vertex_array l) by
      (done || (intros i Hi%elem_of_seqZ; lia)).
    by exists tv.
Qed.

Lemma view_reset_lookup (order : list Airport) (dv : dview) (a : Airport) :
  (view_reset origin order dv).1 a
  = if decide (a ∈ order /\ a <> origin) then Some (-1)%Q else dv.1 a.
Proof.
  unfold view_reset. revert dv. induction order as [|x order IH]; intros dv;
    cbn [foldl].
  - destruct (decide (a ∈ [] /\ a <> origin)) as [[?%elem_of_nil _]|]; done.
  - rewrite IH.
    destruct (decide (a ∈ order /\ a <> origin)) as [[Hin Hne]|Hno],
             (decide (a ∈ x :: order /\ a <> origin)) as [[Hin' Hne']|Hno']; try done.
    + exfalso. apply Hno'. split; [by right | done].
    + apply elem_of_cons in Hin' as [->|?]; [|tauto].
      rewrite decide_True by done. unfold view_set. simpl. by rewrite decide_True.
    + destruct (decide (x <> origin)); [|done]. unfold view_set. simpl.
      destruct (decide (a = x)) as [->|]; [|done].
      exfalso. apply Hno'. split; [left | done].
Qed.

(** [find_shortest_paths] from a vertex of the graph ends and leaves the
    tables in the invariant. *)
Lemma find_shortest_paths_inv (order : list Airport) :
  origin ∈ datas -> (forall a, a ∈ order -> a ∈ datas) ->
  exists tv',
    view_find_shortest_paths (Graph_edges_from g) (heap g) order origin
                             (view_distances datas, view_connections datas) = Ok tv' /\
    tables_inv tv'.
Proof.
  intros Horigin Horder. unfold view_find_shortest_paths.
  apply (loop_inv _ _ _ order); [by split | done | simpl; lia |].
  split; [|split; [|split]]; simpl.
  - intros a. rewrite view_reset_lookup. simpl. rewrite view_distances_lookup.
    repeat case_decide; subst; split; try done; try (by eexists); intros; try tauto.
    apply Horder. tauto.
  - intros a. rewrite view_connections_lookup.
    repeat case_decide; subst; split; try done; by eexists.
  - intros v d. rewrite view_reset_lookup. simpl. rewrite view_distances_lookup.
    repeat case_decide; subst; try done; intros [= <-]; try done.
    intros _. apply connected_here.
  - intros v u. rewrite view_connections_lookup. repeat case_decide; by subst.
Qed.

(** Walking back from a vertex that no chain of edges reaches stops at
    once, with no route. *)
Lemma walk_back_unreached (tv : tview) (fuel : nat) (stack : ListStack string)
    (destination : Airport) :
  tables_inv tv -> destination ∈ datas -> ~ connected g origin destination ->
  view_walk_back (S fuel) tv.2.1 stack origin destination
  = Ok (ListStack_push stack (airport_code destination), false).
Proof.
  intros (_ & Hp & _ & Hprev) Hin Hno. rewrite view_walk_back_unfold.
  rewrite decide_False by (intros ->; apply Hno, connected_here).
  unfold view_get. destruct (proj2 (Hp destination) Hin) as [previous Hprevious].
  rewrite Hprevious. simpl. destruct previous as [u|]; [|done].
  exfalso. by apply Hno, (Hprev destination u).
Qed.

End TablesInvariant.

(** ** A destination that no chain of edges reaches *)

Section NoRoute.
Context {ED : Type} `{EqDecision ED}.
Variables (pyhash_airport : Airport -> Z) (pyhash_str : string -> Z).

Lemma view_ask_found (am : string -> option Airport) (line : string)
    (inputs : list string) (airport : Airport) :
  am (upper line) = Some airport ->
  view_ask am (line :: inputs) = Ok (airport, inputs, []).
Proof.
  intros Ham. cbn [view_ask]. unfold view_contains, view_get. by rewrite Ham.
Qed.


End NoRoute.

(** ** Two graphs without a route *)

(** What a chain of edges reaches stays within a set that the edges do not
    leave. *)
Lemma connected_within {VD ED : Type} `{EqDecision VD} `{EqDecision ED}
    (g : Graph VD ED) (P : VD -> Prop) (u : VD) :
  P u -> (forall v w, P v -> has_edge g v w -> P w) ->
  forall v, connected g u v -> P v.
Proof.
  intros Hu Hstep v Hreach. induction Hreach as [|v w _ IH Hedge]; [done|].
  by apply (Hstep v w).
Qed.

(** A stand-in for the hash of an airport: its [id]. *)
Definition airport_hash (a : Airport) : Z := id a.


(** The graph after [add_edge(B, A, "BA", 5.0)]: an edge leads from B to
    A, none from A. *)
Definition graph_B_A : Graph Airport string :=
  mkGraph (table [[]; [mkPair airport_A 1%nat]; [mkPair airport_B 0%nat]; []; []; []; []]
                 (default_hash_function airport_hash) 2)
          [mkVertex airport_B [mkEdge 1%nat "BA" 5]; mkVertex airport_A []].

Lemma graph_B_A_built : graph_built airport_hash graph_B_A.
Proof.
  apply (built_add_edge airport_hash
           (mkGraph (table (replicate 7 []) (default_hash_function airport_hash) 0) [])
           airport_B airport_A "BA" 5).
  - apply built_init. reflexivity.
  - vm_compute. reflexivity.
Qed.

Lemma graph_B_A_no_route : ~ connected graph_B_A airport_A airport_B.
Proof.
  intros Hreach.
  apply (connected_within graph_B_A (fun v => v = airport_A)) in Hreach; [done|done|].
  intros v w -> (routes & route & destination & Hroutes & Hroute & _).
  assert (Graph_edges_from graph_B_A airport_A = Ok (mkArray [] 0 0 None)) as Hnone
    by (vm_compute; reflexivity).
  rewrite Hnone in Hroutes. injection Hroutes as <-. by apply elem_of_nil in Hroute.
Qed.





(** * Further properties of the containers and of the engine *)

(** ** [array.py]: the other methods of [Array] *)


Section ArrayMethods.
Context {A : Type} `{EqDecision A}.


(** [Array.__eq__] on two arrays: the loop over [zip(self, other)]. *)
Fixpoint items_equal (pairs : list (A * A)) : bool :=
  match pairs with
  | [] => true
  | (item_self, item_other) :: pairs' =>
      if decide (item_self <> item_other) then false else items_equal pairs'
  end.

Definition Array_eq (self other : Array A) : result bool :=
  n ← Array_len self;
  m ← Array_len other;
  if negb (n =? m) then Ok false
  else Ok (items_equal (zip (Array_iter self) (Array_iter other))).

(** [Array.__ne__]. *)
Definition Array_ne (self other : Array A) : result bool :=
  b ← Array_eq self other; Ok (negb b).

(** [Array.__reversed__]. *)
Definition Array_reversed (self : Array A) : list A := reverse (_items self).


(** [Array.to_list]. *)
Definition Array_to_list (self : Array A) : list A := _items self.

(** [Array.__str__] and [Array.__repr__], which have the same body.
    [fmt] is what an f-string makes of an item. *)
Definition Array_str (fmt : A -> string) (self : Array A) : string :=
  foldl (fun message '(i, item) =>
           if decide (Z.of_nat i = Z.of_nat (length (_items self)) - 1)
           then message +:+ fmt item +:+ "]"
           else message +:+ fmt item +:+ ", ")
        "[" (zip (seq 0 (length (_items self))) (_items self)).

End ArrayMethods.

(** *** Copy loops *)








Lemma Array_getitem_at {A : Type} (a : Array A) (i : Z) (x : A) :
  0 <= i -> _items a !! Z.to_nat i = Some x -> Array_getitem a i = Ok x.
Proof.
  intros Hi Hx. rewrite <- (Z2Nat.id i) by done. by apply Array_getitem_Ok.
Qed.

Section ArrayProperties.
Context {A : Type} `{EqDecision A}.
Implicit Types (self : Array A).



(** Storing at an index within the numpy array succeeds, the item is read
    back at that index, every other index reads as before, and [len()] is
    unchanged. *)
Theorem Array_setitem_then_getitem self (index : Z) (data : A) :
  0 <= index < Z.of_nat (length (_items self)) ->
  exists self',
    Array_setitem self index data = Ok self' /\
    Array_getitem self' index = Ok data /\
    (forall j, j <> index -> Array_getitem self' j = Array_getitem self j) /\
    Array_len self' = Array_len self.
Proof.
  intros Hi. eexists. split.
  { replace index with (Z.of_nat (Z.to_nat index)) at 1 by lia.
    apply Array_setitem_Ok. lia. }
  split; [|split; [|done]].
  - apply Array_getitem_at; [lia|]. cbn [_items]. apply list_lookup_insert_eq. lia.
  - intros j Hj. unfold Array_getitem. cbn [_items]. rewrite length_insert.
    destruct ((j <? 0) || (Z.of_nat (length (_items self)) <=? j)) eqn:Hb; [done|].
    apply orb_false_iff in Hb as [Hj0%Z.ltb_ge Hj1%Z.leb_gt].
    by rewrite list_lookup_insert_ne by lia.
Qed.

(** Deleting at an index below [len()] succeeds when the numpy array is at
    least as long as [len()]: [len()] drops by one, the items before the
    index stay, and the items after it move down by one. *)
Theorem Array_delitem_shifts self (index : Z) :
  0 <= index < _logical_size self ->
  _logical_size self <= Z.of_nat (length (_items self)) ->
  exists self',
    Array_delitem self index = Ok self' /\
    Array_len self' = Ok (_logical_size self - 1) /\
    (forall j, 0 <= j < index -> Array_getitem self' j = Array_getitem self j) /\
    (forall j, index <= j -> Array_getitem self' j = Array_getitem self (j + 1)).
Proof.
  intros Hi Hlen. unfold Array_delitem, Array_len.
  destruct (Z.ltb_spec index 0); [lia|].
  destruct (Z.ltb_spec (_logical_size self) 0); [lia|]. rewrite bind_Ok.
  destruct (Z.ltb_spec index (_logical_size self)); [|lia].
  unfold np_delete. rewrite decide_True by lia. rewrite bind_Ok.
  eexists. split; [done|]. cbn [_logical_size].
  split; [|split].
  - destruct (Z.ltb_spec (_logical_size self - 1) 0); [lia | done].
  - intros j Hj. unfold Array_getitem. cbn [_items].
    rewrite length_delete by (apply lookup_lt_is_Some_2; lia).
    destruct (Z.ltb_spec j 0); [lia|].
    destruct (Z.leb_spec (Z.of_nat (length (_items self) - 1)) j); [lia|].
    destruct (Z.leb_spec (Z.of_nat (length (_items self))) j); [lia|].
    cbn [orb]. by rewrite list_lookup_delete_lt by lia.
  - intros j Hj. unfold Array_getitem. cbn [_items].
    rewrite length_delete by (apply lookup_lt_is_Some_2; lia).
    destruct (Z.ltb_spec j 0); [lia|]. destruct (Z.ltb_spec (j + 1) 0); [lia|].
    cbn [orb].
    destruct (Z.leb_spec (Z.of_nat (length (_items self) - 1)) j),
             (Z.leb_spec (Z.of_nat (length (_items self))) (j + 1)); try lia; [done|].
    rewrite list_lookup_delete_ge by lia.
    by replace (Z.to_nat (j + 1)) with (S (Z.to_nat j)) by lia.
Qed.



End ArrayProperties.

(** *** Strings *)

Lemma append_assoc (s1 s2 s3 : string) : (s1 +:+ s2) +:+ s3 = s1 +:+ (s2 +:+ s3).
Proof.
  induction s1 as [|c s1 IH]; [done|].
  change (String c ((s1 +:+ s2) +:+ s3) = String c (s1 +:+ (s2 +:+ s3))).
  by f_equal.
Qed.

Lemma append_empty_r (s : string) : s +:+ "" = s.
Proof.
  induction s as [|c s IH]; [done|].
  change (String c (s +:+ "") = String c s). by f_equal.
Qed.

Section ArrayComparison.
Context {A : Type} `{EqDecision A}.
Implicit Types (self other : Array A).

Lemma items_equal_zip (l1 l2 : list A) :
  items_equal (zip l1 l2) = true <->
  forall i x y, l1 !! i = Some x -> l2 !! i = Some y -> x = y.
Proof.
  revert l2. induction l1 as [|x1 l1 IH]; intros l2.
  - split; [intros _ i x y Hx; by rewrite lookup_nil in Hx | done].
  - destruct l2 as [|x2 l2];
      [split; [intros _ i x y _ Hy; by rewrite lookup_nil in Hy | done]|].
    cbn [zip zip_with items_equal]. destruct (decide (x1 <> x2)) as [Hne|Heq].
    + split; [done|]. intros Hall. exfalso. apply Hne. by apply (Hall 0%nat).
    + apply dec_stable in Heq as ->. rewrite IH. split.
      * intros Hall [|i] x y; [by intros [= ->] [= ->] | apply Hall].
      * intros Hall i x y. apply (Hall (S i)).
Qed.

(** [self == other] is [True] exactly when the two arrays have the same
    [len()] and their numpy arrays agree at every index that both have:
    the loop runs over [zip], which stops at the shorter of the two, so
    items beyond it are not compared. *)
Theorem Array_eq_true_iff self other :
  Array_eq self other = Ok true <->
  0 <= _logical_size self /\ _logical_size self = _logical_size other /\
  forall i x y, _items self !! i = Some x -> _items other !! i = Some y -> x = y.
Proof.
  unfold Array_eq, Array_len, Array_iter.
  destruct (Z.ltb_spec (_logical_size self) 0) as [Hs|Hs];
    [split; [done | intros (? & _); lia]|].
  rewrite bind_Ok.
  destruct (Z.ltb_spec (_logical_size other) 0) as [Ho|Ho];
    [split; [done | intros (_ & ? & _); lia]|].
  rewrite bind_Ok.
  destruct (Z.eqb_spec (_logical_size self) (_logical_size other)) as [Heq|Hne];
    cbn [negb].
  - rewrite <- items_equal_zip. split.
    + by intros [= ->].
    + by intros (_ & _ & ->).
  - split; [done | by intros (_ & ? & _)].
Qed.

(** The string of an array: the items between brackets, separated by a
    comma and a space -- except that an array with no item gives the
    opening bracket alone, for the closing bracket is added with the last
    item. *)
Theorem Array_str_closed (fmt : A -> string) self :
  Array_str fmt self
  = match _items self with
    | [] => "["
    | _ => "[" +:+ String.concat ", " (fmt <$> _items self) +:+ "]"
    end%string.
Proof.
  unfold Array_str.
  assert (forall (l : list A) (j : nat) (N : Z) (message : string),
            Z.of_nat j + Z.of_nat (length l) = N -> l <> [] ->
            foldl (fun message '(i, item) =>
                     if decide (Z.of_nat i = N - 1)
                     then message +:+ fmt item +:+ "]"
                     else message +:+ fmt item +:+ ", ")
                  message (zip (seq j (length l)) l)
            = (message +:+ String.concat ", " (fmt <$> l) +:+ "]")%string) as Hloop.
  { induction l as [|x l IH]; intros j N message HN Hne; [done|].
    cbn [length seq zip zip_with foldl]. destruct l as [|y l].
    - cbn [length] in HN. rewrite decide_True by lia. done.
    - cbn [length] in HN. rewrite decide_False by lia.
      rewrite (IH (S j) N) by (cbn [length]; (lia || done)).
      change (fmt <$> x :: y :: l) with (fmt x :: (fmt <$> y :: l)).
      change (String.concat ", " (fmt x :: (fmt <$> y :: l)))
        with (fmt x +:+ ", " +:+ String.concat ", " (fmt <$> y :: l))%string.
      by rewrite !append_assoc. }
  destruct (_items self) as [|x l] eqn:Hitems; [done|].
  apply (Hloop (x :: l) 0%nat); [lia | done].
Qed.

End ArrayComparison.

(** ** [hash_map.py]: the other methods of [HashMap] *)

(** [string[:-2]]. *)
Definition drop_last_two (s : string) : string :=
  substring 0 (String.length s - 2) s.

Section HashMapMethods.
Context {K V : Type} `{EqDecision K} `{EqDecision V}.

(** [HashMap.clear]: every chain is emptied in place, then the count is
    reset. *)
Definition HashMap_clear (self : HashMap K V) : result (HashMap K V) :=
  buckets ← foldM (fun buckets bucket =>
                     match bucket with
                     | Some chain => Ok (buckets ++ [Some (LinkedList_clear chain)])
                     | None => Raise AttributeError
                     end)
                  (Array_iter (_buckets self)) [];
  Ok (mkHashMap (mkArray buckets (_physical_size (_buckets self))
                         (_logical_size (_buckets self))
                         (_default_item_value (_buckets self)))
                (_hash_function self) (_load_factor_threshold self) 0).

(** The loop of [HashMap.__eq__] over [self.items()]. *)
Fixpoint items_found (other : HashMap K V) (items : list (K * V)) : result bool :=
  match items with
  | [] => Ok true
  | (k, v) :: items' =>
      present ← HashMap_contains other k;
      if negb present then Ok false
      else v' ← HashMap_getitem other k;
           if decide (v' <> v) then Ok false else items_found other items'
  end.

(** [HashMap.__eq__]. *)
Definition HashMap_eq (self other : HashMap K V) : result bool :=
  if negb (HashMap_len self =? HashMap_len other) then Ok false
  else items ← HashMap_items self; items_found other items.

(** [HashMap.__ne__]. *)
Definition HashMap_ne (self other : HashMap K V) : result bool :=
  b ← HashMap_eq self other; if (b : bool) then Ok false else Ok true.

(** [HashMap.__str__] and [HashMap.__repr__].  [fmt_key] and [fmt_value]
    are what an f-string makes of a key and of a value. *)
Definition HashMap_str (fmt_key : K -> string) (fmt_value : V -> string)
    (self : HashMap K V) : result string :=
  string ← foldM (fun string bucket =>
                    match bucket with
                    | Some chain =>
                        Ok (foldl (fun string pr =>
                                     string +:+ fmt_key (key pr) +:+ ": "
                                            +:+ fmt_value (value pr) +:+ ", ")
                                  string chain)
                    | None => Raise TypeError
                    end)
                 (Array_iter (_buckets self)) "{";
  Ok (drop_last_two string +:+ "}").

(** The hash maps that the methods build: from a constructor call with a
    positive capacity and a hash function that returns a bucket number
    within the capacity it is given, by [__setitem__], [__delitem__],
    [clear] and [resize_and_rehash]. *)
Inductive hashmap_built : HashMap K V -> Prop :=
| hashmap_built_init capacity hash_function load_factor_threshold self :
    hash_ok hash_function -> 0 < capacity ->
    HashMap_init capacity (Some hash_function) load_factor_threshold = Ok self ->
    hashmap_built self
| hashmap_built_setitem self k v self' :
    hashmap_built self -> HashMap_setitem self k v = Ok self' -> hashmap_built self'
| hashmap_built_delitem self k self' :
    hashmap_built self -> HashMap_delitem self k = Ok self' -> hashmap_built self'
| hashmap_built_clear self self' :
    hashmap_built self -> HashMap_clear self = Ok self' -> hashmap_built self'
| hashmap_built_resize self new_table_size new_hash_function self' :
    hashmap_built self -> hash_ok new_hash_function -> 0 < new_table_size ->
    HashMap_resize_and_rehash self new_table_size new_hash_function = Ok self' ->
    hashmap_built self'.

(** [len()] is the number of keys. *)
Definition count_exact (self : HashMap K V) : Prop :=
  exists keys, HashMap_keys self = Ok keys /\ HashMap_len self = Z.of_nat (length keys).

End HashMapMethods.

Section HashMapMore.
Context {K V : Type} `{EqDecision K} `{EqDecision V}.
Implicit Types (k : K) (v : V) (h : HashMap K V).
Implicit Types (cs : list (LinkedList (Pair K V))) (hf : K -> Z -> result Z).

Lemma clear_table cs hf c :
  HashMap_clear (table cs hf c) = Ok (table (replicate (length cs) []) hf 0).
Proof.
  unfold HashMap_clear, Array_iter, table. cbn [_buckets _items].
  assert (forall acc : list (option (LinkedList (Pair K V))),
            foldM (fun buckets bucket =>
                     match bucket with
                     | Some chain => Ok (buckets ++ [Some (LinkedList_clear chain)])
                     | None => Raise AttributeError
                     end) (Some <$> cs) acc
            = Ok (acc ++ (Some <$> replicate (length cs) []))) as Hloop.
  { induction cs as [|chain cs IH]; intros acc; cbn [fmap list_fmap foldM].
    - by rewrite app_nil_r.
    - rewrite bind_Ok, IH. by rewrite <- app_assoc. }
  rewrite Hloop, bind_Ok. cbn. by rewrite length_replicate.
Qed.

Lemma clear_wf h :
  hm_wf h ->
  exists h', HashMap_clear h = Ok h' /\ hm_exact h' /\ HashMap_len h' = 0 /\
             HashMap_capacity h' = HashMap_capacity h /\
             _hash_function h' = _hash_function h /\ forall k, hm_get h' k = None.
Proof.
  intros (cs & hf & c & -> & Hok & Hcs & Hc). destruct Hcs as (Hn & _).
  exists (table (replicate (length cs) []) hf 0). split; [apply clear_table|].
  assert (chains_ok (replicate (length cs) ([] : list (Pair K V))) hf) as Hcs'
    by (by apply chains_ok_empty).
  split; [|split; [done|split; [|split; [done|]]]].
  - exists (replicate (length cs) []), hf. by rewrite stored_empty.
  - by rewrite !capacity_table, length_replicate.
  - intros k. destruct Hcs' as (Hlen & _). rewrite hm_get_table by done.
    apply tlookup_empty.
Qed.

(** Setting the bindings [l] one by one. *)
Lemma setitem_fold_wf (l : list (K * V)) h :
  hm_wf h ->
  exists h',
    foldM (fun m '(k, v) => HashMap_setitem m k v) l h = Ok h' /\ hm_wf h' /\
    (hm_exact h -> hm_exact h') /\ _hash_function h' = _hash_function h /\
    forall k, hm_get h' k = lookup_after l (hm_get h) k.
Proof.
  revert h. induction l as [|[k0 v0] l IH]; intros h Hwf.
  - by exists h.
  - destruct (setitem_wf h k0 v0 Hwf) as (h1 & Hs & Hwf1 & Hex1 & Hhf1 & Hget1).
    destruct (IH h1 Hwf1) as (h' & Hf & Hwf' & Hex' & Hhf' & Hget').
    exists h'. cbn [foldM]. rewrite Hs, bind_Ok. split; [done|]. split; [done|].
    split; [by intros ?; apply Hex', Hex1|]. split; [congruence|].
    intros k. rewrite Hget'. cbn [lookup_after]. apply lookup_after_ext. apply Hget1.
Qed.

Lemma resize_and_rehash_wf h (n : Z) hf :
  hm_wf h -> hash_ok hf -> 0 < n ->
  exists h',
    HashMap_resize_and_rehash h n hf = Ok h' /\ hm_exact h' /\
    _hash_function h' = hf /\ forall k, hm_get h' k = hm_get h k.
Proof.
  intros Hwf Hok Hn. destruct (snapshots_wf h Hwf) as (l & Hitems & _ & _ & Hnd & Hin & _).
  destruct (init_wf (V:=V) n hf default_load_factor_threshold Hok Hn)
    as (h0 & Hinit & Hex0 & Hhf0 & _ & Hget0).
  destruct (setitem_fold_wf l h0 (hm_exact_wf _ Hex0))
    as (h' & Hf & _ & Hex' & Hhf' & Hget').
  exists h'. unfold HashMap_resize_and_rehash, resize_and_rehash_with.
  rewrite Hinit, bind_Ok, Hitems, bind_Ok. split; [done|]. split; [by apply Hex'|].
  split; [congruence|]. intros k. rewrite Hget'. apply option_eq. intros v.
  rewrite lookup_after_NoDup by done. rewrite Hget0, Hin. split.
  - by intros [?|[_ ?]].
  - by left.
Qed.

Lemma hashmap_built_wf h : hashmap_built h -> hm_wf h.
Proof.
  induction 1 as [n hf t h Hok Hn Hi | h k v h' _ IH Hs | h k h' _ IH Hd
                  | h h' _ IH Hc | h n hf h' _ IH Hok Hn Hr].
  - apply hm_exact_wf. by apply (init_wf_Ok n hf t).
  - by apply (setitem_wf_Ok h k v).
  - by apply (delitem_wf_Ok h k).
  - destruct (clear_wf h IH) as (h'' & Hc' & Hex & _). apply hm_exact_wf. congruence.
  - destruct (resize_and_rehash_wf h n hf IH Hok Hn) as (h'' & Hr' & Hex & _).
    apply hm_exact_wf. congruence.
Qed.

End HashMapMore.

Section HashMapTheorems.
Context {K V : Type} `{EqDecision K} `{EqDecision V}.
Implicit Types (k : K) (v : V) (h : HashMap K V).
Implicit Types (cs : list (LinkedList (Pair K V))) (hf : K -> Z -> result Z).

Lemma getitem_eq_wf h h' k k' :
  hm_wf h -> hm_wf h' -> hm_get h k = hm_get h' k' ->
  HashMap_getitem h k = HashMap_getitem h' k' /\
  HashMap_contains h k = HashMap_contains h' k'.
Proof.
  intros Hwf Hwf' Hget. rewrite !getitem_wf, !contains_wf by done. by rewrite Hget.
Qed.

(** Setting a key in a built map never fails -- the rehash that a set may
    start nests one level deep at most -- and afterwards the key is bound
    to the value, while every other key is bound as before. *)
Theorem HashMap_setitem_then_getitem h k v :
  hashmap_built h ->
  exists h',
    HashMap_setitem h k v = Ok h' /\
    HashMap_getitem h' k = Ok v /\ HashMap_contains h' k = Ok true /\
    forall k', k' <> k ->
      HashMap_getitem h' k' = HashMap_getitem h k' /\
      HashMap_contains h' k' = HashMap_contains h k'.
Proof.
  intros Hwf%hashmap_built_wf.
  destruct (setitem_wf h k v Hwf) as (h' & Hs & Hwf' & _ & _ & Hget).
  exists h'. split; [done|].
  pose proof (Hget k) as Hk. rewrite decide_True in Hk by done.
  rewrite getitem_wf, contains_wf, Hk by done. split; [done|]. split; [done|].
  intros k' Hne. apply getitem_eq_wf; [done | done|].
  by rewrite Hget, decide_False.
Qed.

(** Deleting a key that a built map holds succeeds; afterwards the key is
    gone -- reading it raises [KeyError] -- and every other key is bound as
    before. *)
Theorem HashMap_delitem_then_getitem h k :
  hashmap_built h -> HashMap_contains h k = Ok true ->
  exists h',
    HashMap_delitem h k = Ok h' /\
    HashMap_getitem h' k = Raise KeyError /\ HashMap_contains h' k = Ok false /\
    forall k', k' <> k ->
      HashMap_getitem h' k' = HashMap_getitem h k' /\
      HashMap_contains h' k' = HashMap_contains h k'.
Proof.
  intros Hwf%hashmap_built_wf Hin. pose proof (delitem_wf h k Hwf) as Hd.
  rewrite contains_wf in Hin by done.
  destruct (hm_get h k) as [v|]; [|done].
  destruct Hd as (h' & Hd & Hwf' & _ & _ & Hget). exists h'. split; [done|].
  pose proof (Hget k) as Hk. rewrite decide_True in Hk by done.
  rewrite getitem_wf, contains_wf, Hk by done. split; [done|]. split; [done|].
  intros k' Hne. apply getitem_eq_wf; [done | done|].
  by rewrite Hget, decide_False.
Qed.

(** A key of a built map is either present -- [in] is [True] and reading
    returns a value -- or absent: [in] is [False], and reading and deleting
    both raise [KeyError]. *)
Theorem missing_key_raises_KeyError h k :
  hashmap_built h ->
  (HashMap_contains h k = Ok true /\ exists v, HashMap_getitem h k = Ok v) \/
  (HashMap_contains h k = Ok false /\ HashMap_getitem h k = Raise KeyError /\
   HashMap_delitem h k = Raise KeyError).
Proof.
  intros Hwf%hashmap_built_wf. pose proof (delitem_wf h k Hwf) as Hd.
  rewrite getitem_wf, contains_wf by done.
  destruct (hm_get h k) as [v|]; [left | right]; [|done].
  split; [done | by exists v].
Qed.

(** [clear()] on a built map succeeds: [len()] becomes 0, no key is left,
    and the capacity is what it was. *)
Theorem clear_empties h :
  hashmap_built h ->
  exists h',
    HashMap_clear h = Ok h' /\ HashMap_len h' = 0 /\ HashMap_keys h' = Ok [] /\
    HashMap_capacity h' = HashMap_capacity h /\
    forall k, HashMap_contains h' k = Ok false.
Proof.
  intros Hwf%hashmap_built_wf.
  destruct (clear_wf h Hwf) as (h' & Hc & Hex & Hlen & Hcap & _ & Hget).
  exists h'. split; [done|]. split; [done|]. split; [|split; [done|]].
  - destruct (snapshots_wf h' (hm_exact_wf _ Hex)) as (l & _ & Hkeys & _ & _ & _ & _ & Hl).
    rewrite Hlen in Hl. specialize (Hl Hex). destruct l; [done | simpl in Hl; lia].
  - intros k. rewrite contains_wf by (by apply hm_exact_wf). by rewrite Hget.
Qed.

Lemma count_exact_hm_exact h : hm_wf h -> count_exact h <-> hm_exact h.
Proof.
  intros Hwf. split.
  - intros (keys & Hkeys & Hlen). destruct Hwf as (cs & hf & c & -> & Hok & Hcs & Hc).
    rewrite keys_table in Hkeys. injection Hkeys as <-.
    exists cs, hf. split; [|done]. unfold HashMap_len in Hlen. cbn in Hlen.
    unfold stored. rewrite Hlen. by rewrite length_map.
  - intros Hex. destruct (snapshots_wf h Hwf) as (l & _ & Hkeys & _ & _ & _ & _ & Hl).
    exists (map fst l). split; [done|]. rewrite length_map. by apply Hl.
Qed.

(** [resize_and_rehash], called with a positive table size and a hash
    function that stays within the capacity, succeeds on a built map: the
    new map uses the new hash function, binds every key as before, and its
    [len()] is the number of its keys, whatever the count was before. *)
Theorem resize_and_rehash_keeps_bindings h (new_table_size : Z) hf :
  hashmap_built h -> hash_ok hf -> 0 < new_table_size ->
  exists h',
    HashMap_resize_and_rehash h new_table_size hf = Ok h' /\
    _hash_function h' = hf /\ count_exact h' /\
    forall k, HashMap_getitem h' k = HashMap_getitem h k /\
              HashMap_contains h' k = HashMap_contains h k.
Proof.
  intros Hwf%hashmap_built_wf Hok Hn.
  destruct (resize_and_rehash_wf h new_table_size hf Hwf Hok Hn)
    as (h' & Hr & Hex & Hhf & Hget).
  exists h'. split; [done|]. split; [done|].
  split; [by apply count_exact_hm_exact; [apply hm_exact_wf|]|].
  intros k. apply getitem_eq_wf; [by apply hm_exact_wf | done | apply Hget].
Qed.

(** The three snapshots of a built map go through the same pairs in the
    same order; no key is listed twice; the pairs listed are exactly the
    bindings that reading finds; and [len()] is at least their number. *)
Theorem snapshots_agree h :
  hashmap_built h ->
  exists items,
    HashMap_items h = Ok items /\ HashMap_keys h = Ok items.*1 /\
    HashMap_values h = Ok items.*2 /\ NoDup items.*1 /\
    (forall k v, (k, v) ∈ items <-> HashMap_getitem h k = Ok v) /\
    (forall k, k ∈ items.*1 <-> HashMap_contains h k = Ok true) /\
    Z.of_nat (length items) <= HashMap_len h.
Proof.
  intros Hwf%hashmap_built_wf.
  destruct (snapshots_wf h Hwf) as (l & Hi & Hk & Hv & Hnd & Hin & Hlen & _).
  exists l. split; [done|]. split; [done|]. split; [done|]. split; [done|].
  split; [|split; [|done]].
  - intros k v. rewrite Hin, getitem_wf by done.
    destruct (hm_get h k); split; congruence.
  - intros k. rewrite contains_wf by done. rewrite list_elem_of_fmap. split.
    + intros ([k' v] & -> & Hkv). apply Hin in Hkv. simpl. by rewrite Hkv.
    + destruct (hm_get h k) as [v|] eqn:Hget; [|done]. intros _.
      exists (k, v). split; [done | by apply Hin].
Qed.

End HashMapTheorems.

Section HashMapComparison.
Context {K V : Type} `{EqDecision K} `{EqDecision V}.
Implicit Types (k : K) (v : V) (h : HashMap K V).
Implicit Types (cs : list (LinkedList (Pair K V))) (hf : K -> Z -> result Z).

Lemma items_found_wf h (l : list (K * V)) :
  hm_wf h ->
  exists b, items_found h l = Ok b /\
            (b = true <-> forall k v, (k, v) ∈ l -> hm_get h k = Some v).
Proof.
  intros Hwf. induction l as [|[k v] l (b & Hb & Hiff)]; cbn [items_found].
  - exists true. split; [done|]. split; [|done]. by intros _ k v ?%elem_of_nil.
  - rewrite contains_wf, bind_Ok, getitem_wf by done.
    destruct (hm_get h k) as [v'|] eqn:Hget; cbn [negb].
    + rewrite bind_Ok. destruct (decide (v' <> v)) as [Hne|Heq].
      * exists false. split; [done|]. split; [done|]. intros Hall.
        specialize (Hall k v ltac:(left)). congruence.
      * apply dec_stable in Heq as ->. exists b. split; [done|]. rewrite Hiff. split.
        -- intros Hall k' v' [[= -> ->]|Hin]%elem_of_cons; [done | by apply Hall].
        -- intros Hall k' v' Hin. apply Hall. by right.
    + exists false. split; [done|]. split; [done|]. intros Hall.
      specialize (Hall k v ltac:(left)). congruence.
Qed.

(** Two built maps in which [len()] is the number of keys compare equal
    exactly when they bind the same keys to the same values -- whatever
    their capacities and hash functions are. *)
Theorem HashMap_eq_true_iff h1 h2 :
  hashmap_built h1 -> hashmap_built h2 -> count_exact h1 -> count_exact h2 ->
  HashMap_eq h1 h2 = Ok true <->
  forall k, HashMap_getitem h1 k = HashMap_getitem h2 k.
Proof.
  intros Hwf1%hashmap_built_wf Hwf2%hashmap_built_wf
         Hex1%count_exact_hm_exact Hex2%count_exact_hm_exact; try done.
  destruct (snapshots_wf h1 Hwf1) as (l1 & Hi1 & _ & _ & Hnd1 & Hin1 & _ & Hlen1).
  destruct (snapshots_wf h2 Hwf2) as (l2 & _ & _ & _ & Hnd2 & Hin2 & _ & Hlen2).
  specialize (Hlen1 Hex1). specialize (Hlen2 Hex2).
  destruct (items_found_wf h2 l1 Hwf2) as (b & Hb & Hiff).
  assert ((forall k, HashMap_getitem h1 k = HashMap_getitem h2 k) <->
          (forall k, hm_get h1 k = hm_get h2 k)) as ->.
  { split; intros Hall k; specialize (Hall k).
    - rewrite !getitem_wf in Hall by done.
      destruct (hm_get h1 k), (hm_get h2 k); congruence.
    - rewrite !getitem_wf by done. by rewrite Hall. }
  unfold HashMap_eq. rewrite Hi1, Hlen1, Hlen2.
  destruct (Z.eqb_spec (Z.of_nat (length l1)) (Z.of_nat (length l2))) as [Hlen|Hlen];
    cbn [negb].
  - rewrite bind_Ok, Hb. split.
    + intros [= ->]. pose proof (proj1 Hiff eq_refl) as Hsub.
      assert (l1.*1 ≡ₚ l2.*1) as Hperm.
      { apply submseteq_length_Permutation; [|rewrite !length_fmap; lia].
        apply NoDup_submseteq; [done|]. intros k ([k' v] & -> & Hkv)%list_elem_of_fmap.
        apply list_elem_of_fmap. exists (k', v). split; [done|].
        by apply Hin2, Hsub. }
      intros k. destruct (hm_get h1 k) as [v|] eqn:Hget1.
      * symmetry. by apply Hsub, Hin1.
      * destruct (hm_get h2 k) as [v|] eqn:Hget2; [|done].
        assert (k ∈ l1.*1) as ([k' v'] & -> & Hkv)%list_elem_of_fmap.
        { rewrite Hperm. apply list_elem_of_fmap. exists (k, v).
          split; [done | by apply Hin2]. }
        apply Hin1 in Hkv. simpl in Hget1. congruence.
    + intros Hsame. f_equal. apply Hiff. intros k v Hkv.
      rewrite <- Hsame. by apply Hin1.
  - split; [done|]. intros Hsame. exfalso. apply Hlen. f_equal.
    apply Permutation_length, NoDup_Permutation;
      [by apply (NoDup_fmap_1 fst) | by apply (NoDup_fmap_1 fst) |].
    intros [k v]. by rewrite Hin1, Hin2, Hsame.
Qed.

Lemma setitem_load h k v h' :
  hm_wf h -> HashMap_setitem h k v = Ok h' ->
  exists capacity, HashMap_capacity h' = Ok capacity /\
                   5 * (HashMap_len h' - 1) <= 3 * capacity.
Proof.
  intros (cs & hf & c & -> & Hok & Hcs & Hc). rewrite HashMap_setitem_depth.
  assert (0 <= stored cs) by (unfold stored; lia).
  destruct (decide (5 * c <= 3 * Z.of_nat (length cs))) as [Hl|Hl].
  - rewrite setitem_table_no_resize by done. intros [= <-].
    rewrite capacity_table, length_tput. eexists. split; [done|].
    unfold HashMap_len. cbn [_count table]. destruct (tlookup cs hf k); lia.
  - pose proof (nextprime_ge_2 ((c * 10) ÷ 6)).
    pose proof (nextprime_above_load c ltac:(lia)).
    destruct (resize_table 498 cs hf c (nextprime ((c * 10) ÷ 6)))
      as (_ & Hcs1 & Hlen & _ & _); [done | done | lia | lia |].
    rewrite setitem_table_resize by (done || lia). intros [= <-].
    rewrite capacity_table, length_tput, Hlen. eexists. split; [done|].
    unfold HashMap_len. cbn [_count table]. destruct (tlookup cs hf k); lia.
Qed.

Lemma setitem_fold_load (l : list (K * V)) h h' capacity :
  hm_wf h -> HashMap_capacity h = Ok capacity -> 5 * (HashMap_len h - 1) <= 3 * capacity ->
  foldM (fun m '(k, v) => HashMap_setitem m k v) l h = Ok h' ->
  exists capacity', HashMap_capacity h' = Ok capacity' /\
                    5 * (HashMap_len h' - 1) <= 3 * capacity'.
Proof.
  revert h capacity. induction l as [|[k0 v0] l IH]; intros h capacity Hwf Hcap Hload.
  - intros [= <-]. by exists capacity.
  - cbn [foldM]. destruct (setitem_wf h k0 v0 Hwf) as (h1 & Hs & Hwf1 & _).
    rewrite Hs, bind_Ok. destruct (setitem_load h k0 v0 h1 Hwf Hs) as (c1 & Hc1 & Hl1).
    by apply (IH h1 c1).
Qed.

(** The load of a built map stays within one entry of the threshold: its
    capacity is positive, and five times [len() - 1] is at most three
    times the capacity, that is, [(len() - 1) / capacity <= 0.6]. *)
Theorem load_factor_bounded h :
  hashmap_built h ->
  exists capacity, HashMap_capacity h = Ok capacity /\ 0 < capacity /\
                   0 <= HashMap_len h /\ 5 * (HashMap_len h - 1) <= 3 * capacity.
Proof.
  intros Hb. pose proof (hashmap_built_wf h Hb) as Hwf.
  assert (exists capacity, HashMap_capacity h = Ok capacity /\
                           5 * (HashMap_len h - 1) <= 3 * capacity)
    as (capacity & Hcap & Hload).
  { induction Hb as [n hf t h Hok Hn Hi | h k v h' Hb _ Hs | h k h' Hb IH Hd
                     | h h' Hb _ Hc | h n hf h' Hb _ Hok Hn Hr].
    - rewrite init_table in Hi by lia. injection Hi as <-.
      rewrite capacity_table. eexists. split; [done|]. cbn. lia.
    - by apply (setitem_load h k v h'); [apply hashmap_built_wf|].
    - pose proof (hashmap_built_wf h Hb) as Hwfh.
      destruct (IH Hwfh) as (capacity & Hcap & Hload).
      destruct Hwfh as (cs & hf & c & -> & Hok & Hcs & Hc).
      rewrite delitem_table in Hd by done. destruct (tlookup cs hf k); [|done].
      injection Hd as <-. rewrite capacity_table, length_tdrop.
      rewrite capacity_table in Hcap. by exists capacity.
    - destruct (clear_wf h (hashmap_built_wf h Hb)) as (h'' & Hc' & _ & Hlen & Hcap & _).
      assert (h'' = h') as -> by congruence. rewrite Hcap, Hlen.
      destruct (hashmap_built_wf h Hb) as (cs & hf & c & -> & _).
      rewrite capacity_table. eexists. split; [done | lia].
    - unfold HashMap_resize_and_rehash, resize_and_rehash_with in Hr.
      rewrite init_table in Hr by lia. rewrite bind_Ok in Hr.
      destruct (HashMap_items h) as [l|]; [|done]. rewrite bind_Ok in Hr.
      apply (setitem_fold_load l _ h' (Z.of_nat (length (replicate (Z.to_nat n)
                                                           ([] : list (Pair K V))))))
        in Hr; [done | | apply capacity_table | cbn; lia].
      apply hm_exact_wf.
      destruct (init_wf (V:=V) n hf default_load_factor_threshold Hok Hn)
        as (h0 & Hi0 & Hex0 & _).
      rewrite init_table in Hi0 by lia. by injection Hi0 as <-. }
  exists capacity. split; [done|].
  destruct Hwf as (cs & hf & c & -> & _ & (Hn & _) & Hc).
  rewrite capacity_table in Hcap. injection Hcap as <-.
  unfold HashMap_len in *. cbn [_count table] in *. unfold stored in Hc. lia.
Qed.

End HashMapComparison.

Section HashMapEdges.
Context {K V : Type} `{EqDecision K} `{EqDecision V}.
Implicit Types (k : K) (v : V) (h : HashMap K V).

(** A map of capacity 0 or less is constructed without complaint and then
    serves no call.  With capacity 0, a set raises [ZeroDivisionError]
    when it computes the load factor, and with the default hash function
    so do a read, a membership test and a delete, which reduce the hash
    modulo 0.  With a negative capacity the four of them raise
    [ValueError], for [len()] of the array of buckets is negative. *)
Theorem nonpositive_capacity_unusable (pyhash : K -> Z) (capacity : Z) (t : Q) k v :
  capacity <= 0 ->
  let e := if capacity =? 0 then ZeroDivisionError else ValueError in
  exists h,
    HashMap_init (V:=V) capacity (Some (default_hash_function pyhash)) t = Ok h /\
    HashMap_setitem h k v = Raise e /\
    HashMap_getitem h k = Raise e /\
    HashMap_contains h k = Raise e /\
    HashMap_delitem h k = Raise e.
Proof.
  intros Hle e. subst e. destruct (Z.eqb_spec capacity 0) as [->|Hne].
  - eexists. split; [reflexivity|]. by repeat split.
  - unfold HashMap_init, seqZ.
    replace (Z.to_nat capacity) with O by lia. cbn [seq fmap list_fmap foldM].
    rewrite bind_Ok. eexists. split; [done|].
    assert (forall (hf : K -> Z -> result Z) c,
              HashMap_capacity
                (mkHashMap (K:=K) (V:=V) (Array_init capacity None) hf
                           default_load_factor_threshold c)
              = Raise ValueError) as Hcap.
    { intros hf c. unfold HashMap_capacity, Array_len, Array_init.
      cbn [_buckets _logical_size]. by destruct (Z.ltb_spec capacity 0); [|lia]. }
    rewrite HashMap_setitem_depth, setitem_rec_unfold.
    unfold HashMap_load_factor, HashMap_getitem, HashMap_contains, HashMap_delitem.
    by rewrite !Hcap.
Qed.

End HashMapEdges.

(** *** The string of a map *)

Lemma length_append (s t : string) :
  String.length (s +:+ t) = (String.length s + String.length t)%nat.
Proof.
  induction s as [|c s IH]; [done|].
  change (S (String.length (s +:+ t)) = S (String.length s + String.length t)).
  by rewrite IH.
Qed.

Lemma substring_append (s t : string) : substring 0 (String.length s) (s +:+ t) = s.
Proof.
  induction s as [|c s IH]; [by destruct t|].
  change (String c (substring 0 (String.length s) (s +:+ t)) = String c s).
  by rewrite IH.
Qed.

Lemma drop_last_two_comma (s : string) : drop_last_two (s +:+ ", ") = s.
Proof.
  unfold drop_last_two. rewrite length_append.
  replace (String.length s + String.length ", " - 2)%nat with (String.length s)
    by (cbn; lia).
  apply substring_append.
Qed.

(** The entries, each followed by a comma and a space. *)
Definition with_commas (entries : list string) : string :=
  foldr (fun entry rest => entry +:+ ", " +:+ rest) "" entries.

Lemma with_commas_app (l1 l2 : list string) :
  with_commas (l1 ++ l2) = with_commas l1 +:+ with_commas l2.
Proof.
  induction l1 as [|e l1 IH]; [done|]. cbn [app with_commas foldr].
  fold (with_commas (l1 ++ l2)). fold (with_commas l1).
  by rewrite IH, !append_assoc.
Qed.

Lemma with_commas_concat (e : string) (l : list string) :
  with_commas (e :: l) = String.concat ", " (e :: l) +:+ ", ".
Proof.
  revert e. induction l as [|e' l IH]; intros e.
  - cbn [with_commas foldr String.concat]. by rewrite append_empty_r.
  - change (with_commas (e :: e' :: l)) with (e +:+ ", " +:+ with_commas (e' :: l)).
    change (String.concat ", " (e :: e' :: l))
      with (e +:+ ", " +:+ String.concat ", " (e' :: l)).
    by rewrite IH, !append_assoc.
Qed.

Section HashMapString.
Context {K V : Type} `{EqDecision K} `{EqDecision V}.
Variables (fmt_key : K -> string) (fmt_value : V -> string).

Definition entry_of (kv : K * V) : string :=
  fmt_key kv.1 +:+ ": " +:+ fmt_value kv.2.

Lemma str_chain (chain : list (Pair K V)) (s : string) :
  foldl (fun string pr =>
           string +:+ fmt_key (key pr) +:+ ": " +:+ fmt_value (value pr) +:+ ", ")
        s chain
  = s +:+ with_commas (entry_of <$> map (fun pr => (key pr, value pr)) chain).
Proof.
  revert s. induction chain as [|pr chain IH]; intros s; cbn [foldl map fmap list_fmap].
  - cbn. by rewrite append_empty_r.
  - rewrite IH. cbn [with_commas foldr]. unfold entry_of at 2. cbn [fst snd].
    by rewrite !append_assoc.
Qed.

Lemma str_buckets (buckets : list (option (LinkedList (Pair K V))))
    (acc items : list (K * V)) (s : string) :
  foldM (fun items bucket =>
           match bucket with
           | Some chain => Ok (items ++ map (fun pr => (key pr, value pr)) chain)
           | None => Raise TypeError
           end) buckets acc = Ok items ->
  exists new,
    items = acc ++ new /\
    foldM (fun string bucket =>
             match bucket with
             | Some chain =>
                 Ok (foldl (fun string pr =>
                              string +:+ fmt_key (key pr) +:+ ": "
                                     +:+ fmt_value (value pr) +:+ ", ")
                           string chain)
             | None => Raise TypeError
             end) buckets s
    = Ok (s +:+ with_commas (entry_of <$> new)).
Proof.
  revert acc s. induction buckets as [|[chain|] buckets IH]; intros acc s; cbn [foldM].
  - intros [= <-]. exists []. rewrite app_nil_r. cbn. by rewrite append_empty_r.
  - rewrite !bind_Ok, str_chain. intros Hitems.
    destruct (IH _ (s +:+ with_commas
                            (entry_of <$> map (fun pr => (key pr, value pr)) chain))
                 Hitems) as (new & -> & Hs).
    exists (map (fun pr => (key pr, value pr)) chain ++ new).
    split; [by rewrite app_assoc|]. rewrite Hs, fmap_app, with_commas_app.
    by rewrite append_assoc.
  - done.
Qed.

(** The string of a map whose buckets can be listed: the entries
    [key: value] between braces, separated by a comma and a space --
    except that a map with no entry gives the closing brace alone, for the
    slice that is meant to drop the last separator drops the opening brace
    instead. *)
Theorem HashMap_str_closed (h : HashMap K V) (items : list (K * V)) :
  HashMap_items h = Ok items ->
  HashMap_str fmt_key fmt_value h
  = Ok (match items with
        | [] => "}"
        | _ => "{" +:+ String.concat ", " (entry_of <$> items) +:+ "}"
        end)%string.
Proof.
  intros Hitems. unfold HashMap_items in Hitems. unfold HashMap_str.
  destruct (str_buckets _ _ _ "{"%string Hitems) as (new & -> & ->).
  rewrite bind_Ok, app_nil_l. destruct new as [|kv new]; [done|].
  rewrite fmap_cons, with_commas_concat, <- append_assoc, drop_last_two_comma.
  by rewrite append_assoc.
Qed.

End HashMapString.

(** ** [graph.py]: the other methods of [Graph] *)

Section GraphMethods.
Context {VD ED : Type} `{EqDecision VD} `{EqDecision ED}.
Implicit Types (g : Graph VD ED) (d : VD) (r : ref).

(** [Graph.get_destination_vertex].  The outer loop runs over the keys of
    the map, as [Graph.remove_edge] does, and reads [vertex.edges] on each;
    [found] is the value returned from within the loops, once there is
    one. *)
Definition Graph_get_destination_vertex g (edge_data : ED) : result VD :=
  found ←
    foldM (fun found bucket =>
             match bucket with
             | None => Raise TypeError
             | Some chain =>
                 foldM (fun (found : option VD) vertex =>
                          match found with
                          | Some destination => Ok (Some destination)
                          | None =>
                              edges ← getattr_edges (ED:=ED) vertex;
                              match List.find (fun edge =>
                                                 bool_decide (_edge_data edge = edge_data))
                                              edges with
                              | Some edge =>
                                  destination ← deref (heap g) (_destination_vertex edge);
                                  Ok (Some (_vertex_data destination))
                              | None => Ok None
                              end
                          end)
                       (map key chain) found
             end)
          (Array_iter (_buckets (_vertices g))) None;
  match found with
  | Some destination => Ok destination
  | None => Raise ValueError
  end.

(** The graphs that the methods build: from [Graph()] by [add_vertex],
    [add_edge] and [remove_vertex]. *)
Inductive graph_reached (pyhash : VD -> Z) : Graph VD ED -> Prop :=
| reached_init g :
    Graph_init pyhash = Ok g -> graph_reached pyhash g
| reached_add_vertex g d g' :
    graph_reached pyhash g -> Graph_add_vertex g d = Ok g' -> graph_reached pyhash g'
| reached_add_edge g d1 d2 edge_data weight g' :
    graph_reached pyhash g -> Graph_add_edge g d1 d2 edge_data weight = Ok g' ->
    graph_reached pyhash g'
| reached_remove_vertex g d g' :
    graph_reached pyhash g -> Graph_remove_vertex g d = Ok g' -> graph_reached pyhash g'.

Lemma graph_reached_wf (pyhash : VD -> Z) g :
  graph_reached pyhash g -> hm_wf (_vertices g).
Proof.
  induction 1 as [g Hi | g d g' _ IH Ha | g d1 d2 e w g' _ IH Ha | g d g' _ IH Hr].
  - destruct (Graph_init_view (ED:=ED) pyhash) as (g0 & Hi' & (Hwf & _) & _). congruence.
  - destruct (Graph_add_vertex_view g _ _ d (graph_view_self g IH)) as (g'' & Ha' & (Hwf & _) & _).
    congruence.
  - pose proof (Graph_add_edge_view g _ _ d1 d2 e w (graph_view_self g IH)) as Hv.
    destruct (view_add_edge _ _ d1 d2 e w) as [[m' store']|]; [|congruence].
    destruct Hv as (g'' & Ha' & (Hwf & _) & _). congruence.
  - pose proof (Graph_remove_vertex_view g _ _ d (graph_view_self g IH)) as Hv.
    destruct (hm_get (_vertices g) d); [|congruence].
    destruct Hv as (g'' & Hr' & (Hwf & _) & _). congruence.
Qed.

Lemma graph_built_reached (pyhash : VD -> Z) g :
  graph_built pyhash g -> graph_reached pyhash g.
Proof.
  induction 1 as [g Hi | g d g' _ IH Ha | g d1 d2 e w g' _ IH Ha].
  - by apply reached_init.
  - by apply (reached_add_vertex pyhash g d).
  - by apply (reached_add_edge pyhash g d1 d2 e w).
Qed.

Lemma get_destination_scan (store : list (_Vertex VD ED))
    (cs : list (LinkedList (Pair VD ref))) (edge_data : ED) :
  foldM (fun found bucket =>
           match bucket with
           | None => Raise TypeError
           | Some chain =>
               foldM (fun (found : option VD) vertex =>
                        match found with
                        | Some destination => Ok (Some destination)
                        | None =>
                            edges ← getattr_edges (ED:=ED) vertex;
                            match List.find (fun edge =>
                                               bool_decide (_edge_data edge = edge_data))
                                            edges with
                            | Some edge =>
                                destination ← deref store (_destination_vertex edge);
                                Ok (Some (_vertex_data destination))
                            | None => Ok None
                            end
                        end)
                     (map key chain) found
           end)
        (Some <$> cs) None
  = match concat cs with [] => Ok None | _ :: _ => Raise AttributeError end.
Proof.
  induction cs as [|chain cs IH]; [done|]. cbn [fmap list_fmap foldM].
  destruct chain as [|p chain]; [apply IH | done].
Qed.

End GraphMethods.

(** On a graph of airports, as the program builds it,
    [get_destination_vertex] never returns a destination: on a graph that
    has a vertex it raises [AttributeError], for it reads [edges] on a key
    of the vertex map, an [Airport], which has no such attribute; and on a
    graph with no vertex it raises [ValueError]. *)
Theorem get_destination_vertex_never_returns {ED : Type} `{EqDecision ED}
    (pyhash : Airport -> Z) (g : Graph Airport ED) (edge_data : ED) :
  graph_reached pyhash g ->
  exists keys,
    HashMap_keys (_vertices g) = Ok keys /\
    Graph_get_destination_vertex g edge_data
    = match keys with [] => Raise ValueError | _ :: _ => Raise AttributeError end.
Proof.
  intros (cs & hf & c & Hg & _)%graph_reached_wf.
  exists (map key (concat cs)). rewrite Hg, keys_table. split; [done|].
  unfold Graph_get_destination_vertex. rewrite Hg. unfold Array_iter.
  cbn [_buckets _items table]. rewrite get_destination_scan.
  by destruct (concat cs).
Qed.

Section GraphTheorems.
Context {VD ED : Type} `{EqDecision VD} `{EqDecision ED}.
Implicit Types (g : Graph VD ED) (d : VD) (r : ref).
Implicit Types (m : VD -> option ref) (store : list (_Vertex VD ED)).

(** [remove_vertex(d)] raises [KeyError] when [d] is not a vertex.  When
    it is, the vertex is unbound and [edges_from(d)] raises [ValueError];
    the store of vertex objects is untouched, so the edges of every other
    vertex are as before, those that lead to the vertex of [d] included. *)
Theorem remove_vertex_keeps_other_edges (pyhash : VD -> Z) g d :
  graph_reached pyhash g ->
  (HashMap_contains (_vertices g) d = Ok false /\
   Graph_remove_vertex g d = Raise KeyError) \/
  (HashMap_contains (_vertices g) d = Ok true /\
   exists g',
     Graph_remove_vertex g d = Ok g' /\ heap g' = heap g /\
     HashMap_contains (_vertices g') d = Ok false /\
     Graph_edges_from g' d = Raise ValueError /\
     forall d', d' <> d -> Graph_edges_from g' d' = Graph_edges_from g d').
Proof.
  intros Hwf%graph_reached_wf.
  pose proof (Graph_remove_vertex_view g _ _ d (graph_view_self g Hwf)) as Hv.
  rewrite contains_wf by done.
  destruct (hm_get (_vertices g) d) as [r|] eqn:Hd; [right | by left].
  split; [done|]. destruct Hv as (g' & Hr & Hv' & _). exists g'. split; [done|].
  pose proof Hv' as (Hwf' & Hget' & Hheap'). split; [done|].
  split; [|split].
  - rewrite contains_wf, Hget' by done. unfold unbind_vertex. by rewrite decide_True.
  - rewrite (Graph_edges_from_view g' _ _ d Hv'). unfold view_edges_from, unbind_vertex.
    by rewrite decide_True.
  - intros d' Hne. rewrite (Graph_edges_from_view g' _ _ d' Hv').
    rewrite (Graph_edges_from_view g _ _ d' (graph_view_self g Hwf)).
    unfold view_edges_from, unbind_vertex. by rewrite decide_False.
Qed.

Lemma fill_vertices store (rs : list ref) (vs : list (_Vertex VD ED)) (N : Z) :
  Forall2 (fun r vertex => deref store r = Ok vertex) rs vs ->
  forall (j : nat) (acc : list (option (_Vertex VD ED))),
    (j + length rs <= length acc)%nat ->
    foldM (fun vertices '(i, r) =>
             vertex ← deref store r;
             Array_setitem vertices (Z.of_nat i) (Some vertex))
          (zip (seq j (length rs)) rs) (mkArray acc N N None)
    = Ok (mkArray (take j acc ++ (Some <$> vs) ++ drop (j + length rs) acc) N N None).
Proof.
  induction 1 as [|r vertex rs vs Hr _ IH]; intros j acc Hlen;
    cbn [length seq zip zip_with foldM fmap list_fmap].
  - simpl. by rewrite Nat.add_0_r, take_drop.
  - cbn [length] in Hlen. rewrite Hr, bind_Ok.
    rewrite Array_setitem_Ok by (cbn [_items]; lia). rewrite bind_Ok. cbn [_items].
    rewrite IH by (rewrite length_insert; lia). do 2 f_equal.
    rewrite (take_S_r _ j (Some vertex)) by (apply list_lookup_insert_eq; lia).
    rewrite take_insert_ge, drop_insert_lt by lia.
    rewrite <- app_assoc. cbn [app].
    by replace (S j + length rs)%nat with (j + S (length rs))%nat by lia.
Qed.

(** The vertex objects that the values of the vertex map refer to. *)
Lemma vertices_of_bindings store m (l : list (VD * ref)) :
  (forall d r, (d, r) ∈ l -> vertex_data_at store r = Some d) ->
  exists vs, Forall2 (fun r vertex => deref store r = Ok vertex) (map snd l) vs /\
             _vertex_data <$> vs = fst <$> l /\
             forall vertex, vertex ∈ vs ->
               exists r, (_vertex_data vertex, r) ∈ l /\ store !! r = Some vertex.
Proof.
  intros Hl. induction l as [|[d r] l IH]; [exists []; by split; [constructor|split; [|intros ? ?%elem_of_nil]]|].
  destruct IH as (vs & Hvs & Hdata & Hin); [intros; apply Hl; by right|].
  pose proof (Hl d r ltac:(left)) as Hd. unfold vertex_data_at in Hd.
  destruct (store !! r) as [vertex|] eqn:Hr; [|done]. injection Hd as Hd.
  exists (vertex :: vs). split; [|split].
  - cbn [map snd]. constructor; [|done]. unfold deref. by rewrite Hr.
  - cbn. by f_equal.
  - intros vertex' [->|Hv]%elem_of_cons.
    + exists r. rewrite Hd. split; [left | done].
    + destruct (Hin vertex' Hv) as (r' & ? & ?). exists r'. split; [by right | done].
Qed.

(** On a graph built without removing a vertex, [vertices] returns an
    array with one vertex object for each vertex of the graph and no empty
    slot, as long as [len()] says; and [edges_from] succeeds on the data
    of each of them, with the edges that the object holds. *)
Theorem vertices_lists_every_vertex (pyhash : VD -> Z) g :
  graph_built pyhash g ->
  exists vs : list (_Vertex VD ED),
    Graph_vertices g
    = Ok (mkArray (Some <$> vs) (Z.of_nat (length vs)) (Z.of_nat (length vs)) None) /\
    NoDup (_vertex_data <$> vs) /\
    (forall d, d ∈ _vertex_data <$> vs <-> HashMap_contains (_vertices g) d = Ok true) /\
    forall vertex, vertex ∈ vs ->
      Graph_edges_from g (_vertex_data vertex)
      = Ok (mkArray (Some <$> _edges vertex) (Z.of_nat (length (_edges vertex)))
                    (Z.of_nat (length (_edges vertex))) None).
Proof.
  intros [Hex [Hs1 _]]%graph_built_closed. pose proof (hm_exact_wf _ Hex) as Hwf.
  destruct (snapshots_wf _ Hwf) as (l & _ & _ & Hv & Hnd & Hin & _ & Hl).
  specialize (Hl Hex).
  destruct (vertices_of_bindings (heap g) (hm_get (_vertices g)) l)
    as (vs & Hvs & Hdata & Hback).
  { intros d r Hdr. apply Hs1. by apply Hin. }
  assert (length vs = length l) as Hlen.
  { apply Forall2_length in Hvs. by rewrite length_map in Hvs. }
  exists vs. split; [|split; [|split]].
  - unfold Graph_vertices. rewrite Hv, bind_Ok. unfold Array_init. rewrite Hl, Nat2Z.id.
    rewrite (fill_vertices _ _ vs _ Hvs 0) by (rewrite length_replicate, length_map; lia).
    rewrite drop_ge by (rewrite length_replicate, length_map; lia).
    by rewrite app_nil_r, Hlen.
  - by rewrite Hdata.
  - intros d. rewrite Hdata, contains_wf, list_elem_of_fmap by done. split.
    + intros ([d' r] & -> & Hdr). apply Hin in Hdr. cbn. by rewrite Hdr.
    + destruct (hm_get (_vertices g) d) as [r|] eqn:Hd; [|done]. intros _.
      exists (d, r). split; [done | by apply Hin].
  - intros vertex (r & Hdr & Hr)%Hback. apply Hin in Hdr.
    rewrite (Graph_edges_from_view g _ _ _ (graph_view_self g Hwf)).
    unfold view_edges_from, deref. by rewrite Hdr, Hr.
Qed.

(** The array of vertices after one [remove_vertex]: the vertex objects
    of the bindings that are left, then one empty slot. *)
Lemma Graph_vertices_unbound (pyhash : VD -> Z) g d g' :
  graph_built pyhash g -> Graph_remove_vertex g d = Ok g' ->
  exists vs : list (_Vertex VD ED),
    Graph_vertices g'
    = Ok (mkArray ((Some <$> vs) ++ [None]) (Z.of_nat (S (length vs)))
                  (Z.of_nat (S (length vs))) None) /\
    forall d', d' ∈ _vertex_data <$> vs <-> HashMap_contains (_vertices g') d' = Ok true.
Proof.
  intros [Hex [Hs1 _]]%graph_built_closed Hr. pose proof (hm_exact_wf _ Hex) as Hwf.
  pose proof (Graph_remove_vertex_view g _ _ d (graph_view_self g Hwf)) as Hv.
  destruct (hm_get (_vertices g) d) as [r0|] eqn:Hd; [|congruence].
  destruct Hv as (g'' & Hr' & (Hwf' & Hget' & Hheap') & Hcount).
  assert (g'' = g') as -> by congruence.
  destruct (snapshots_wf _ Hwf) as (l & _ & _ & _ & Hnd & Hin & _ & Hl).
  specialize (Hl Hex).
  destruct (snapshots_wf _ Hwf') as (l' & _ & _ & Hv' & Hnd' & Hin' & _ & _).
  assert (l ≡ₚ (d, r0) :: l') as Hperm.
  { apply NoDup_Permutation.
    - by apply (NoDup_fmap_1 fst).
    - constructor; [|by apply (NoDup_fmap_1 fst)].
      intros Hdr%Hin'. rewrite Hget' in Hdr. unfold unbind_vertex in Hdr.
      by rewrite decide_True in Hdr.
    - intros [d1 r1]. rewrite elem_of_cons, Hin, Hin', Hget'. unfold unbind_vertex.
      destruct (decide (d1 = d)) as [->|Hne]; split.
      + intros ?. left. congruence.
      + by intros [[= ->]|?].
      + by right.
      + by intros [[= -> _]|?]. }
  assert (length l = S (length l')) as Hlen by (by rewrite Hperm).
  destruct (vertices_of_bindings (heap g') (hm_get (_vertices g')) l')
    as (vs & Hvs & Hdata & _).
  { intros d1 r1 Hdr. rewrite Hheap'. apply Hs1. apply Hin' in Hdr.
    rewrite Hget' in Hdr. unfold unbind_vertex in Hdr.
    by destruct (decide (d1 = d)). }
  assert (length vs = length l') as Hlenvs.
  { apply Forall2_length in Hvs. by rewrite length_map in Hvs. }
  exists vs. split.
  - unfold Graph_vertices. rewrite Hv', bind_Ok. unfold Array_init.
    rewrite Hcount, Hl, Nat2Z.id, Hlen.
    rewrite (fill_vertices _ _ vs _ Hvs 0) by (rewrite length_replicate, length_map; lia).
    rewrite take_0, app_nil_l, Nat.add_0_l, drop_replicate, length_map.
    replace (S (length l') - length l')%nat with 1%nat by lia.
    by rewrite Hlenvs.
  - intros d1. rewrite Hdata, contains_wf, list_elem_of_fmap by done. split.
    + intros ([d2 r] & -> & Hdr). apply Hin' in Hdr. cbn. by rewrite Hdr.
    + destruct (hm_get (_vertices g') d1) as [r|] eqn:Hd1; [|done]. intros _.
      exists (d1, r). split; [done | by apply Hin'].
Qed.

(** Right after [remove_vertex] on a graph built without removals,
    [vertices] returns an array that is one slot longer than the vertices
    that are left: [len()] of the vertex map has not changed, so the last
    slot is never filled and holds [None]. *)
Theorem vertices_after_remove_vertex (pyhash : VD -> Z) g d g' :
  graph_built pyhash g -> Graph_remove_vertex g d = Ok g' ->
  exists vs : list (_Vertex VD ED),
    Graph_vertices g'
    = Ok (mkArray ((Some <$> vs) ++ [None]) (Z.of_nat (S (length vs)))
                  (Z.of_nat (S (length vs))) None) /\
    forall d', d' ∈ _vertex_data <$> vs <-> HashMap_contains (_vertices g') d' = Ok true.
Proof. apply Graph_vertices_unbound. Qed.

End GraphTheorems.

(** *** Adding an edge *)

Section AddEdge.
Context {VD ED : Type} `{EqDecision VD} `{EqDecision ED}.
Implicit Types (g : Graph VD ED) (d : VD) (r : ref).
Implicit Types (m : VD -> option ref) (store : list (_Vertex VD ED)).

(** The array that [edges_from] makes of a list of edges. *)
Definition edges_array (edges : list (_Edge ED)) : Array (option (_Edge ED)) :=
  mkArray (Some <$> edges) (Z.of_nat (length edges)) (Z.of_nat (length edges)) None.

(** The edges of the vertex object that [d] is bound to. *)
Definition edges_at m store d : option (list (_Edge ED)) :=
  r ← m d; _edges <$> store !! r.

Lemma view_edges_from_edges_at m store d :
  (forall r, m d = Some r -> is_Some (store !! r)) ->
  view_edges_from m store d
  = match edges_at m store d with
    | Some edges => Ok (edges_array edges)
    | None => Raise ValueError
    end.
Proof.
  intros Hr. unfold view_edges_from, edges_at, deref.
  destruct (m d) as [r|]; [|done]. destruct (Hr r eq_refl) as [vertex Hv].
  cbn. by rewrite Hv.
Qed.

Lemma store_ok_bound m store d r :
  store_ok m store -> m d = Some r ->
  exists vertex, store !! r = Some vertex /\ _vertex_data vertex = d.
Proof.
  intros [Hs _] Hd. specialize (Hs d r Hd). unfold vertex_data_at in Hs.
  destruct (store !! r) as [vertex|]; [|done]. injection Hs as Hs. by exists vertex.
Qed.

Lemma view_vertex_for_edges m store d :
  store_ok m store ->
  edges_at (view_vertex_for m store d).1.2 (view_vertex_for m store d).2 d
  = Some (default [] (edges_at m store d)) /\
  forall d', d' <> d ->
    edges_at (view_vertex_for m store d).1.2 (view_vertex_for m store d).2 d'
    = edges_at m store d'.
Proof.
  intros Hok. unfold view_vertex_for, edges_at.
  destruct (m d) as [r|] eqn:Hd; cbn [fst snd].
  - rewrite Hd. cbn. destruct (store_ok_bound m store d r Hok Hd) as (vertex & -> & _).
    done.
  - unfold bind_vertex. rewrite decide_True by done. cbn.
    rewrite lookup_app_r, Nat.sub_diag by lia. split; [done|].
    intros d' Hne. rewrite decide_False by done.
    destruct (m d') as [r'|] eqn:Hd'; [|done]. cbn.
    destruct (store_ok_bound m store d' r' Hok Hd') as (vertex & Hv & _).
    by rewrite (lookup_app_l_Some _ _ _ _ Hv), Hv.
Qed.

(** What [add_edge] does to the bindings and to the store of a graph whose
    store agrees with its bindings. *)
Lemma view_add_edge_edges m store d1 d2 (edge_data : ED) (weight : Q) :
  store_ok m store ->
  exists m' store' r2,
    view_add_edge m store d1 d2 edge_data weight = Ok (m', store') /\
    store_ok m' store' /\ m' d2 = Some r2 /\
    edges_at m' store' d1
    = Some (default [] (edges_at m store d1) ++ [mkEdge r2 edge_data weight]) /\
    (forall d, d <> d1 ->
       edges_at m' store' d
       = if decide (d = d2) then Some (default [] (edges_at m store d))
         else edges_at m store d).
Proof.
  intros Hok. unfold view_add_edge.
  destruct (store_ok_vertex_for m store d1 Hok) as (Hok1 & Hd1 & _).
  destruct (view_vertex_for_edges m store d1 Hok) as (He1 & Hf1).
  destruct (view_vertex_for m store d1) as [[r1 m1] store1]. cbn [fst snd] in *.
  destruct (store_ok_vertex_for m1 store1 d2 Hok1) as (Hok2 & Hd2 & Hkeep).
  destruct (view_vertex_for_edges m1 store1 d2 Hok1) as (He2 & Hf2).
  destruct (view_vertex_for m1 store1 d2) as [[r2 m2] store2]. cbn [fst snd] in *.
  assert (m2 d1 = Some r1) as Hd1' by (rewrite Hkeep; [done | by eexists]).
  destruct (store_ok_bound m2 store2 d1 r1 Hok2 Hd1') as (v1 & Hv1 & Hdata1).
  assert (edges_at m2 store2 d1 = Some (default [] (edges_at m store d1))) as Hedges1.
  { destruct (decide (d1 = d2)) as [->|Hne].
    - rewrite He2, He1. done.
    - by rewrite Hf2, He1. }
  assert (_edges v1 = default [] (edges_at m store d1)) as Hv1e.
  { unfold edges_at in Hedges1 at 1. rewrite Hd1' in Hedges1. cbn in Hedges1.
    rewrite Hv1 in Hedges1. cbn in Hedges1. congruence. }
  unfold _Vertex_add_edge, deref. rewrite Hv1. rewrite !bind_Ok.
  set (v1' := mkVertex (_vertex_data v1)
                       (LinkedList_append (_edges v1) (mkEdge r2 edge_data weight))).
  assert (forall d r vertex, m2 d = Some r -> store2 !! r = Some vertex -> d <> d1 ->
                             <[r1 := v1']> store2 !! r = Some vertex) as Hother.
  { intros d r vertex Hd Hr Hne. rewrite list_lookup_insert_ne; [done|].
    intros <-. destruct (store_ok_bound m2 store2 d r1 Hok2 Hd) as (v & Hv & Hdata).
    congruence. }
  exists m2, (<[r1 := v1']> store2), r2. split; [done|]. split; [|split; [done|split]].
  - destruct Hok2 as [Hs1 Hs2]. split.
    + intros d r Hd. unfold vertex_data_at.
      destruct (decide (r = r1)) as [->|Hne].
      * rewrite list_lookup_insert_eq by (by apply lookup_lt_Some in Hv1). cbn.
        specialize (Hs1 d r1 Hd). unfold vertex_data_at in Hs1.
        rewrite Hv1 in Hs1. exact Hs1.
      * rewrite list_lookup_insert_ne by done. by apply Hs1.
    + intros r vertex edge Hr Hedge.
      assert (exists d', vertex_data_at store2 (_destination_vertex edge) = Some d' /\
                         is_Some (m2 d')) as (d' & Hd' & Hm).
      { destruct (decide (r = r1)) as [->|Hne].
        - rewrite list_lookup_insert_eq in Hr by (by apply lookup_lt_Some in Hv1).
          injection Hr as <-. cbn [v1' _edges] in Hedge.
          apply elem_of_app in Hedge as [Hedge| ->%list_elem_of_singleton].
          + by apply (Hs2 r1 v1 edge).
          + exists d2. cbn. split; [by apply Hs1 | by eexists].
        - rewrite list_lookup_insert_ne in Hr by done. by apply (Hs2 r vertex edge). }
      exists d'. split; [|done]. unfold vertex_data_at in *.
      destruct (decide (_destination_vertex edge = r1)) as [Heq|Hne].
      * rewrite Heq in Hd' |- *.
        rewrite list_lookup_insert_eq by (by apply lookup_lt_Some in Hv1).
        rewrite Hv1 in Hd'. exact Hd'.
      * by rewrite list_lookup_insert_ne.
  - unfold edges_at. rewrite Hd1'. cbn.
    rewrite list_lookup_insert_eq by (by apply lookup_lt_Some in Hv1). cbn.
    by rewrite Hv1e.
  - intros d Hne.
    assert (edges_at m2 (<[r1 := v1']> store2) d = edges_at m2 store2 d) as ->.
    { unfold edges_at. destruct (m2 d) as [r|] eqn:Hd; [|done]. cbn.
      destruct (store_ok_bound m2 store2 d r Hok2 Hd) as (vertex & Hv & _).
      by rewrite (Hother d r vertex Hd Hv Hne), Hv. }
    destruct (decide (d = d2)) as [->|Hne2].
    + rewrite He2. by rewrite Hf1.
    + rewrite Hf2 by done. by apply Hf1.
Qed.

Lemma Graph_edges_from_edges_at g :
  graph_closed g ->
  forall d, Graph_edges_from g d
            = match edges_at (hm_get (_vertices g)) (heap g) d with
              | Some edges => Ok (edges_array edges)
              | None => Raise ValueError
              end.
Proof.
  intros [Hex Hok] d.
  rewrite (Graph_edges_from_view g _ _ d (graph_view_self g (hm_exact_wf _ Hex))).
  apply view_edges_from_edges_at. intros r Hr.
  destruct (store_ok_bound _ _ d r Hok Hr) as (vertex & Hv & _). by eexists.
Qed.

Lemma add_edge_edges (pyhash : VD -> Z) g d1 d2 (edge_data : ED) (weight : Q) :
  graph_built pyhash g ->
  exists g' r2 vertex2 edges1,
    Graph_add_edge g d1 d2 edge_data weight = Ok g' /\
    HashMap_getitem (_vertices g') d2 = Ok r2 /\
    deref (heap g') r2 = Ok vertex2 /\ _vertex_data vertex2 = d2 /\
    Graph_edges_from g d1
    = (if decide (is_Some (hm_get (_vertices g) d1))
       then Ok (edges_array edges1) else Raise ValueError) /\
    (~ is_Some (hm_get (_vertices g) d1) -> edges1 = []) /\
    Graph_edges_from g' d1
    = Ok (edges_array (edges1 ++ [mkEdge r2 edge_data weight])) /\
    (forall d, d <> d1 ->
       Graph_edges_from g' d
       = if decide (d = d2 /\ ~ is_Some (hm_get (_vertices g) d2))
         then Ok (edges_array []) else Graph_edges_from g d).
Proof.
  intros Hb. pose proof (graph_built_closed pyhash g Hb) as Hclosed.
  pose proof Hclosed as [Hex Hok]. pose proof (hm_exact_wf _ Hex) as Hwf.
  destruct (view_add_edge_edges _ _ d1 d2 edge_data weight Hok)
    as (m' & store' & r2 & Hview & Hok' & Hd2 & He1 & Hother).
  pose proof (Graph_add_edge_view g _ _ d1 d2 edge_data weight (graph_view_self g Hwf))
    as Hadd.
  rewrite Hview in Hadd. destruct Hadd as (g' & Hadd & Hv' & Hex').
  pose proof Hv' as (Hwf' & Hget' & Hheap').
  assert (graph_closed g') as Hclosed'.
  { split; [by apply Hex'|]. rewrite Hheap'. by apply (store_ok_ext m'). }
  destruct (store_ok_bound m' store' d2 r2 Hok' Hd2) as (vertex2 & Hv2 & Hdata2).
  exists g', r2, vertex2, (default [] (edges_at (hm_get (_vertices g)) (heap g) d1)).
  split; [done|]. split; [by rewrite getitem_wf, Hget', Hd2|].
  split; [unfold deref; by rewrite Hheap', Hv2|]. split; [done|].
  assert (forall d, edges_at (hm_get (_vertices g')) (heap g') d = edges_at m' store' d)
    as Hsame.
  { intros d. unfold edges_at. by rewrite Hget', Hheap'. }
  assert (forall d, is_Some (hm_get (_vertices g) d) <->
                    is_Some (edges_at (hm_get (_vertices g)) (heap g) d)) as Hsome.
  { intros d. unfold edges_at. split.
    - intros [r Hr]. destruct (store_ok_bound _ _ d r Hok Hr) as (vertex & Hv & _).
      rewrite Hr. cbn. rewrite Hv. by eexists.
    - intros [l Hl]. destruct (hm_get (_vertices g) d); [by eexists | done]. }
  split; [|split; [|split]].
  - rewrite (Graph_edges_from_edges_at g Hclosed).
    destruct (decide (is_Some (hm_get (_vertices g) d1))) as [Hin|Hout].
    + apply Hsome in Hin as [l ->]. done.
    + destruct (edges_at (hm_get (_vertices g)) (heap g) d1) eqn:He; [|done]. exfalso. apply Hout, Hsome. by eexists.
  - intros Hout. destruct (edges_at (hm_get (_vertices g)) (heap g) d1) eqn:He; [|done].
    exfalso. apply Hout, Hsome. by eexists.
  - by rewrite (Graph_edges_from_edges_at g' Hclosed'), Hsame, He1.
  - intros d Hne. rewrite (Graph_edges_from_edges_at g' Hclosed'), Hsame, (Hother d Hne).
    rewrite (Graph_edges_from_edges_at g Hclosed).
    destruct (decide (d = d2)) as [->|Hne2].
    + destruct (decide (d2 = d2 /\ ~ is_Some (hm_get (_vertices g) d2))) as [[_ Hout]|Hin].
      * destruct (edges_at (hm_get (_vertices g)) (heap g) d2) eqn:He; [|done]. exfalso. apply Hout, Hsome. by eexists.
      * assert (is_Some (hm_get (_vertices g) d2)) as [l ->]%Hsome; [|done].
        destruct (decide (is_Some (hm_get (_vertices g) d2))); [done | tauto].
    + rewrite decide_False by tauto. done.
Qed.

(** [add_edge(d1, d2, e, w)] on a graph built without removals succeeds.
    It makes a vertex of each end that was not one; the edges of [d1] are
    afterwards the edges it had -- none, if it is new -- followed by the new
    edge, which leads to the vertex object bound to [d2]; a new [d2] has no
    edge unless it is [d1] itself; and the edges of every other vertex are
    as before. *)
Theorem add_edge_appends_edge (pyhash : VD -> Z) g d1 d2 (edge_data : ED) (weight : Q) :
  graph_built pyhash g ->
  exists g' r2 vertex2 edges1,
    Graph_add_edge g d1 d2 edge_data weight = Ok g' /\
    HashMap_getitem (_vertices g') d2 = Ok r2 /\
    deref (heap g') r2 = Ok vertex2 /\ _vertex_data vertex2 = d2 /\
    (HashMap_contains (_vertices g) d1 = Ok true /\
     Graph_edges_from g d1 = Ok (edges_array edges1) \/
     HashMap_contains (_vertices g) d1 = Ok false /\ edges1 = []) /\
    Graph_edges_from g' d1
    = Ok (edges_array (edges1 ++ [mkEdge r2 edge_data weight])) /\
    (d2 <> d1 -> HashMap_contains (_vertices g) d2 = Ok false ->
     Graph_edges_from g' d2 = Ok (edges_array [])) /\
    (forall d, d <> d1 -> d <> d2 \/ HashMap_contains (_vertices g) d = Ok true ->
               Graph_edges_from g' d = Graph_edges_from g d).
Proof.
  intros Hb. pose proof (graph_built_closed pyhash g Hb) as [Hex _].
  pose proof (hm_exact_wf _ Hex) as Hwf.
  destruct (add_edge_edges pyhash g d1 d2 edge_data weight Hb)
    as (g' & r2 & vertex2 & edges1 & Hadd & Hr2 & Hv2 & Hd2 & Hold & Hnew & He1 & Hother).
  exists g', r2, vertex2, edges1. do 4 (split; [done|]).
  assert (forall d, HashMap_contains (_vertices g) d = Ok true <->
                    is_Some (hm_get (_vertices g) d)) as Hin.
  { intros d. rewrite contains_wf by done.
    destruct (hm_get (_vertices g) d) as [r|]; split; try done; try (by eexists). }
  assert (forall d, HashMap_contains (_vertices g) d = Ok false <->
                    ~ is_Some (hm_get (_vertices g) d)) as Hout.
  { intros d. rewrite contains_wf by done.
    destruct (hm_get (_vertices g) d) as [r|]; split; try done.
    intros Hn. exfalso. apply Hn. by eexists. }
  split; [|split; [done|split]].
  - destruct (decide (is_Some (hm_get (_vertices g) d1))) as [Hs|Hn].
    + left. by rewrite Hin.
    + right. rewrite Hout. split; [done | by apply Hnew].
  - intros Hne Hnew2. rewrite (Hother d2 Hne). rewrite decide_True; [done|].
    split; [done | by apply Hout].
  - intros d Hne Hd. rewrite (Hother d Hne). rewrite decide_False; [done|].
    intros [-> Hn]. destruct Hd as [?|Hd]; [done|]. by apply Hn, Hin.
Qed.

End AddEdge.

(** ** [program.py]: building the engine and asking for an airport *)

Section EngineSetup.
Context {ED : Type} `{EqDecision ED}.
Variables (pyhash_airport : Airport -> Z) (pyhash_str : string -> Z).
Implicit Types (self : Dijkstra ED) (g : Graph Airport ED).

Lemma view_airports_is_Some (datas : list Airport) (a : Airport) :
  a ∈ datas -> is_Some ((view_airports datas).1 (airport_code a)).
Proof.
  unfold view_airports. induction datas as [|a' datas IH] using rev_ind.
  - by intros ?%elem_of_nil.
  - rewrite foldl_app. cbn [foldl view_set fst].
    intros [Hin| ->%list_elem_of_singleton]%elem_of_app.
    + destruct (decide (airport_code a = airport_code a')); [by eexists | by apply IH].
    + rewrite decide_True by done. by eexists.
Qed.

(** On a graph built without removals the engine is constructed without
    an exception.  Its stack is empty; every vertex of the graph has the
    distance -1 and no connection, and no other key is in the two
    tables; and the table of airports binds the code of every vertex to a
    vertex with that code, and binds nothing else. *)
Theorem Dijkstra_init_tables g :
  graph_built pyhash_airport g ->
  exists self,
    Dijkstra_init pyhash_airport pyhash_str g = Ok self /\
    _graph self = g /\ _shortest_route self = ListStack_init /\
    (forall a, HashMap_contains (_vertices g) a = Ok true ->
       HashMap_getitem (_distances_from_origin self) a = Ok (-1)%Q /\
       HashMap_getitem (_route_connections self) a = Ok None /\
       exists a', HashMap_getitem (_airports self) (airport_code a) = Ok a') /\
    (forall a, HashMap_contains (_vertices g) a = Ok false ->
       HashMap_getitem (_distances_from_origin self) a = Raise KeyError /\
       HashMap_getitem (_route_connections self) a = Raise KeyError) /\
    (forall code a, HashMap_getitem (_airports self) code = Ok a ->
       airport_code a = code /\ HashMap_contains (_vertices g) a = Ok true).
Proof.
  intros Hb. pose proof (graph_built_closed _ g Hb) as Hclosed.
  destruct (Dijkstra_init_view pyhash_airport pyhash_str g Hclosed)
    as (self & datas & Hinit & Hg & Hstack & Ha & [Hd Hp] & Hnd & Hin).
  destruct Hclosed as [Hex _]. pose proof (hm_exact_wf _ Hex) as Hwf.
  assert (forall a, HashMap_contains (_vertices g) a = Ok true <-> a ∈ datas) as Htrue.
  { intros a. rewrite contains_wf, Hin by done.
    destruct (hm_get (_vertices g) a); split; try done; try (by eexists). }
  assert (forall a, HashMap_contains (_vertices g) a = Ok false <-> a ∉ datas) as Hfalse.
  { intros a. rewrite contains_wf, Hin by done.
    destruct (hm_get (_vertices g) a); split; try done.
    intros Hn. exfalso. apply Hn. by eexists. }
  exists self. do 3 (split; [done|]). cbn [fst snd] in Hd, Hp.
  split; [|split].
  - intros a Hv%Htrue.
    rewrite (getitem_view _ _ _ Hd), (getitem_view _ _ _ Hp), (getitem_view _ _ _ Ha).
    unfold view_get. rewrite view_distances_lookup, view_connections_lookup.
    rewrite !decide_True by done. split; [done|]. split; [done|].
    destruct (view_airports_is_Some datas a Hv) as [a' ->]. by exists a'.
  - intros a Hv%Hfalse.
    rewrite (getitem_view _ _ _ Hd), (getitem_view _ _ _ Hp).
    unfold view_get. rewrite view_distances_lookup, view_connections_lookup.
    by rewrite !decide_False by done.
  - intros code a. rewrite (getitem_view _ _ _ Ha). unfold view_get.
    destruct ((view_airports datas).1 code) as [a'|] eqn:Hcode; [|done].
    intros [= ->]. apply view_airports_Some in Hcode as [Hv Hc].
    split; [done | by apply Htrue].
Qed.

(** Right after [remove_vertex] on a graph built without removals, the
    engine cannot be constructed: the array of vertices ends with a slot
    that holds [None], and reading [vertex_data] from it raises
    [AttributeError]. *)
Theorem Dijkstra_init_raises_after_remove_vertex g (d : Airport) g' :
  graph_built pyhash_airport g -> Graph_remove_vertex g d = Ok g' ->
  Dijkstra_init pyhash_airport pyhash_str g' = Raise AttributeError.
Proof.
  intros Hb Hr.
  destruct (Graph_vertices_unbound pyhash_airport g d g' Hb Hr) as (vs & Hvs & _).
  unfold Dijkstra_init.
  destruct (HashMap_new_view (V:=Q) pyhash_airport) as (dh0 & -> & Hd0).
  destruct (HashMap_new_view (V:=option Airport) pyhash_airport) as (ph0 & -> & Hp0).
  destruct (HashMap_new_view (V:=Airport) pyhash_str) as (ah0 & -> & Ha0).
  rewrite !bind_Ok, Hvs, bind_Ok. unfold Array_iter. cbn [_items].
  rewrite foldM_app.
  destruct (init_airports_view vs ah0 _ Ha0) as (ah & -> & _).
  done.
Qed.

End EngineSetup.

Section AskAirport.
Implicit Types (airports : HashMap string Airport).

(** On lines that are texts of ASCII characters, [ask_origin_airport]
    and [ask_destination_airport] read lines until one, put in upper
    case, is a code of the table: they return the airport bound to it,
    leave the lines after it unread, and have printed one line for each
    line that they rejected, in order.  If no line names an airport,
    reading past the last one raises [EOFError]. *)
Theorem ask_airport_reprompts airports (rejected : list string) :
  hashmap_built airports ->
  Forall (fun line => ascii_only line = true /\
                      HashMap_contains airports (upper line) = Ok false) rejected ->
  ask_airport airports rejected = Raise EOFError /\
  forall line rest airport,
    ascii_only line = true ->
    HashMap_getitem airports (upper line) = Ok airport ->
    ask_airport airports (rejected ++ line :: rest)
    = Ok (airport, rest, NotAvailable <$> (upper <$> rejected)).
Proof.
  intros Hwf%hashmap_built_wf Hrej.
  induction Hrej as [|bad rejected [_ Hbad] _ [IH1 IH2]].
  - split; [done|]. intros line rest airport _ Hget. cbn [app ask_airport].
    rewrite contains_wf by done. rewrite getitem_wf in Hget by done.
    destruct (hm_get airports (upper line)) as [a|] eqn:Hline; [|done].
    rewrite bind_Ok, getitem_wf, Hline by done. cbn. congruence.
  - split.
    + cbn [ask_airport]. by rewrite Hbad, bind_Ok, IH1.
    + intros line rest airport Hline Hget. cbn [app ask_airport].
      rewrite Hbad, bind_Ok. cbn [negb]. by rewrite (IH2 line rest airport Hline Hget).
Qed.

End AskAirport.

(** ** [list_stack.py] and the legs that [run] prints *)

Section Stack.
Context {A : Type}.
Implicit Types (stack : ListStack A).

(** [_top] is the last item of the list, [None] when there is none: what
    [ListStack()], [push] and [pop] keep. *)
Definition stack_ok stack : Prop := _top stack = last (_stack stack).

Lemma stack_ok_init : stack_ok (ListStack_init (A:=A)).
Proof. done. Qed.

Lemma stack_ok_push stack (item : A) : stack_ok (ListStack_push stack item).
Proof. unfold stack_ok, ListStack_push, LinkedList_append. cbn. by rewrite last_snoc. Qed.

Lemma pop_back_snoc (l : list A) (x : A) : LinkedList_pop_back (l ++ [x]) = Ok l.
Proof.
  unfold LinkedList_pop_back. rewrite removelast_last. by destruct l.
Qed.

End Stack.

(** On a stack of strings, such as the codes that the engine pushes,
    popping right after a push returns the string pushed and leaves the
    stack as it was before the push. *)
Theorem ListStack_push_then_pop (stack : ListStack string) (item : string) :
  stack_ok stack ->
  ListStack_pop (ListStack_push stack item) = Ok (item, stack).
Proof.
  intros Hok. unfold ListStack_pop, ListStack_push, LinkedList_append. cbn [_top _stack].
  rewrite pop_back_snoc, bind_Ok. destruct stack as [l top]. unfold stack_ok in Hok.
  cbn [_top _stack] in Hok. subst top. unfold LinkedList_len, LinkedList_back.
  destruct l as [|x l]; [done|]. cbn [length].
  by destruct (Z.eqb_spec (Z.of_nat (S (length l))) 0); [lia|].
Qed.

(** The legs printed for the codes [codes], read from the top of the stack
    down, after [previous_airport]. *)
Fixpoint legs_from (previous_airport : string) (codes : list string) : list output :=
  match codes with
  | [] => []
  | next_airport :: codes' =>
      Leg previous_airport next_airport :: legs_from next_airport codes'
  end.

(** The second loop of [run] empties the stack: it prints one leg for each
    code on it, from the top down, whenever the codes were pushed. *)
Theorem print_legs_empties_stack (stack : ListStack string) (previous_airport : string) :
  stack_ok stack ->
  print_legs (S (length (_stack stack))) stack previous_airport
  = Ok (ListStack_init, legs_from previous_airport (reverse (_stack stack))).
Proof.
  destruct stack as [l top]. unfold stack_ok. cbn [_top _stack]. intros ->.
  revert previous_airport. induction l as [|x l IH] using rev_ind; intros previous_airport.
  - done.
  - rewrite length_app. cbn [length]. rewrite Nat.add_1_r.
    change (print_legs (S (S (length l))) ?s ?p)
      with (if ListStack_empty s then Ok (s, [])
            else '(next_airport, stack) ← ListStack_pop s;
                 '(stack, printed) ← print_legs (S (length l)) stack next_airport;
                 Ok (stack, Leg p next_airport :: printed)).
    unfold ListStack_empty, ListStack_pop. cbn [_top _stack]. rewrite last_snoc.
    rewrite pop_back_snoc, bind_Ok. cbn beta iota.
    assert ((if LinkedList_len l =? 0 then mkListStack l None
             else mkListStack l (LinkedList_back l)) = mkListStack l (last l)) as ->.
    { unfold LinkedList_len, LinkedList_back. destruct l as [|y l]; [done|].
      cbn [length]. by destruct (Z.eqb_spec (Z.of_nat (S (length l))) 0); [lia|]. }
    rewrite bind_Ok. cbn beta iota. rewrite IH, bind_Ok. cbn beta iota.
    by rewrite reverse_snoc.
Qed.

Section StaleStack.
Context {ED : Type} `{EqDecision ED}.
Variables (pyhash_airport : Airport -> Z) (pyhash_str : string -> Z).

(** When a new engine, run on lines that are texts of ASCII characters,
    reports that there is no complete route, the code of the destination,
    which the first loop of [run] pushed, is still on the stack when
    [run] returns: only the branch that prints a route pops the stack. *)
Theorem no_route_leaves_code_on_stack (g : Graph Airport ED) :
  graph_built pyhash_airport g ->
  exists self,
    Dijkstra_init pyhash_airport pyhash_str g = Ok self /\
    forall (origin_line destination_line play_again : string) (A B : Airport),
      ascii_only origin_line = true -> ascii_only destination_line = true ->
      ascii_only play_again = true ->
      HashMap_getitem (_airports self) (upper origin_line) = Ok A ->
      HashMap_getitem (_airports self) (upper destination_line) = Ok B ->
      ~ connected g A B ->
      lower play_again <> "yes"%string ->
      exists self',
        Dijkstra_run self [origin_line; destination_line; play_again]
        = Ok (self', [], [NoCompleteRoute (airport_code A) (airport_code B)]) /\
        _shortest_route self' = ListStack_push ListStack_init (airport_code B) /\
        ListStack_empty (_shortest_route self') = false.
Proof.
  intros Hbuilt.
  pose proof (graph_built_closed pyhash_airport g Hbuilt) as Hclosed.
  destruct (Dijkstra_init_view pyhash_airport pyhash_str g Hclosed)
    as (self & datas & Hinit & Hg & Hstack & Ha & Ht & Hnd & Hin).
  exists self. split; [done|].
  intros origin_line destination_line play_again A B _ _ _ HA HB Hno Hplay.
  destruct (airports_order _ datas Ha) as (order & Hvalues & Hlen & Horder & _).
  rewrite (getitem_view _ _ _ Ha) in HA. rewrite (getitem_view _ _ _ Ha) in HB.
  unfold view_get in HA, HB.
  destruct ((view_airports datas).1 (upper origin_line)) as [A'|] eqn:HA'; [|done].
  destruct ((view_airports datas).1 (upper destination_line)) as [B'|] eqn:HB'; [|done].
  injection HA as ->. injection HB as ->.
  pose proof (view_airports_Some _ _ _ HA') as [HAin _].
  pose proof (view_airports_Some _ _ _ HB') as [HBin _].
  destruct (find_shortest_paths_inv g datas A Hclosed Hin order HAin Horder)
    as (tv' & Hfsp & Hinv).
  pose proof (run_rec_view 3 self (Graph_edges_from g) order (view_airports datas)
                (view_distances datas, view_connections datas)
                [origin_line; destination_line; play_again]) as Hrun.
  rewrite Hg in Hrun. specialize (Hrun ltac:(done) Ha Hvalues Hlen Ht).
  cbn [view_run_rec] in Hrun.
  rewrite (view_ask_found _ _ _ A HA'), bind_Ok in Hrun. cbv beta iota in Hrun.
  rewrite (view_ask_found _ _ _ B HB'), bind_Ok in Hrun. cbv beta iota in Hrun.
  rewrite Hfsp, bind_Ok in Hrun.
  rewrite (walk_back_unreached g datas A tv' _ _ B Hinv HBin Hno), bind_Ok in Hrun.
  cbv beta iota in Hrun. rewrite bind_Ok in Hrun. cbv beta iota in Hrun.
  rewrite decide_False in Hrun by done.
  destruct Hrun as ([[self' rest] printed] & Hrun & _ & Hstack' & _ & _ & Hrest & Hprinted).
  cbn [fst snd] in Hstack', Hrest, Hprinted. subst rest printed.
  exists self'. split; [done|]. rewrite Hstack', Hstack. by split.
Qed.

End StaleStack.

(** ** [program.py]: the distances that [find_shortest_paths] computes *)

(** The length of a route is the sum of the weights of its edges, added
    from the first edge on, as [find_shortest_paths] adds them.  Weights
    and sums are exact rationals here; the statements below say nothing
    about the rounding of sums of doubles. *)

(** *** Comparisons of distances *)

Lemma Qgtb_true (x y : Q) : Qgtb x y = true <-> (y < x)%Q.
Proof.
  unfold Qgtb. rewrite negb_true_iff. split.
  - intros Hb. apply Qnot_le_lt. intros Hle%Qle_bool_iff. congruence.
  - intros Hlt. destruct (Qle_bool x y) eqn:Hb; [|done].
    apply Qle_bool_iff in Hb. lra.
Qed.

Lemma Qgtb_false (x y : Q) : Qgtb x y = false <-> (x <= y)%Q.
Proof.
  unfold Qgtb. rewrite negb_false_iff. apply Qle_bool_iff.
Qed.

Lemma Qltb_true (x y : Q) : Qltb x y = true <-> (x < y)%Q.
Proof. apply Qgtb_true. Qed.

Lemma Qltb_false (x y : Q) : Qltb x y = false <-> (y <= x)%Q.
Proof. apply Qgtb_false. Qed.

(** *** Routes and their lengths *)

Section WeightedRoutes.
Context {VD ED : Type} `{EqDecision VD} `{EqDecision ED}.
Implicit Types (g : Graph VD ED).

(** [weighted_edge g u v w]: one of the edges that [edges_from(u)] returns
    leads to the vertex whose data is [v] and has the weight [w]. *)
Definition weighted_edge g (u v : VD) (w : Q) : Prop :=
  exists routes route destination,
    Graph_edges_from g u = Ok routes /\ Some route ∈ Array_iter routes /\
    deref (heap g) (_destination_vertex route) = Ok destination /\
    _vertex_data destination = v /\ _weight route = w.

(** [route g u v x]: a chain of edges leads from [u] to [v], and [x] is the
    sum of their weights, added from the first edge on. *)
Inductive route g (u : VD) : VD -> Q -> Prop :=
  | route_here : route g u u 0
  | route_step v w x y :
      route g u v x -> weighted_edge g v w y -> route g u w (x + y).

Lemma weighted_edge_has_edge g u v w : weighted_edge g u v w -> has_edge g u v.
Proof.
  intros (routes & rt & destination & ? & ? & ? & ? & _).
  by exists routes, rt, destination.
Qed.

Lemma route_connected g u v x : route g u v x -> connected g u v.
Proof.
  induction 1 as [|v w x y _ IH Hedge]; [apply connected_here|].
  apply (connected_step g u v w IH). by apply (weighted_edge_has_edge g v w y).
Qed.

Lemma connected_route g u v : connected g u v -> exists x, route g u v x.
Proof.
  induction 1 as [|v w _ [x IH] (routes & rt & destination & ? & ? & ? & ?)].
  - exists 0%Q. apply route_here.
  - exists (x + _weight rt)%Q. apply (route_step g u v w x _ IH).
    by exists routes, rt, destination.
Qed.

(** [route_via g u stops v x]: the chain of edges goes from [u] through
    the vertices [stops], the last of which is [v]; no edge, and no stop,
    when [v] is [u]. *)
Inductive route_via g (u : VD) : list VD -> VD -> Q -> Prop :=
  | route_via_here : route_via g u [] u 0
  | route_via_step stops v w x y :
      route_via g u stops v x -> weighted_edge g v w y ->
      route_via g u (stops ++ [w]) w (x + y).

Lemma route_via_route g u stops v x : route_via g u stops v x -> route g u v x.
Proof.
  induction 1 as [|stops v w x y _ IH Hedge]; [apply route_here|].
  by apply (route_step g u v w).
Qed.

End WeightedRoutes.

(** The number of keys of a table filled from a list without repeats. *)
Lemma view_fill_count {K V : Type} `{EqDecision K} (f : K -> V) (l : list K)
    (mv : (K -> option V) * Z) :
  NoDup l -> (forall a, a ∈ l -> mv.1 a = None) ->
  (foldl (fun mv a => view_set mv a (f a)) mv l).2 = mv.2 + Z.of_nat (length l).
Proof.
  revert mv. induction l as [|a l IH]; intros mv Hnd Hnone; cbn [foldl length].
  - lia.
  - apply NoDup_cons in Hnd as [Ha Hnd]. rewrite IH; [|done|].
    + cbn [view_set snd]. rewrite (Hnone a) by left. lia.
    + intros b Hb. cbn [view_set fst]. rewrite decide_False by (by intros ->).
      apply Hnone. by right.
Qed.

(** The stack after the codes [codes] were pushed on an empty stack, and
    what the second loop of [run] prints from it. *)
Lemma pushed_stack (codes : list string) :
  foldl ListStack_push ListStack_init codes = mkListStack codes (last codes).
Proof.
  induction codes as [|x codes IH] using rev_ind; [done|].
  rewrite foldl_app, IH. cbn [foldl]. unfold ListStack_push, LinkedList_append.
  cbn [_stack]. by rewrite last_snoc.
Qed.

Lemma print_legs_pushed (codes : list string) (previous_airport : string) :
  print_legs (S (length codes)) (foldl ListStack_push ListStack_init codes)
             previous_airport
  = Ok (ListStack_init, legs_from previous_airport (reverse codes)).
Proof.
  rewrite pushed_stack. revert previous_airport.
  induction codes as [|x l IH] using rev_ind; intros previous_airport; [done|].
  rewrite length_app. cbn [length]. rewrite Nat.add_1_r.
  change (print_legs (S (S (length l))) ?s ?p)
    with (if ListStack_empty s then Ok (s, [])
          else '(next_airport, stack) ← ListStack_pop s;
               '(stack, printed) ← print_legs (S (length l)) stack next_airport;
               Ok (stack, Leg p next_airport :: printed)).
  unfold ListStack_empty, ListStack_pop. cbn [_top _stack]. rewrite last_snoc.
  rewrite pop_back_snoc, bind_Ok. cbn beta iota.
  assert ((if LinkedList_len l =? 0 then mkListStack l None
           else mkListStack l (LinkedList_back l)) = mkListStack l (last l)) as ->.
  { unfold LinkedList_len, LinkedList_back. destruct l as [|y l]; [done|].
    cbn [length]. by destruct (Z.eqb_spec (Z.of_nat (S (length l))) 0); [lia|]. }
  rewrite bind_Ok. cbn beta iota. rewrite IH, bind_Ok. cbn beta iota.
  by rewrite reverse_snoc.
Qed.

(** *** The loops of [find_shortest_paths], once more *)

Lemma delete_selected_perm (vertex_array : Array (option Airport)) (l : list Airport)
    (u : Airport) (k : nat) :
  working_array vertex_array l ->
  forall j : nat,
    (j + k = length l)%nat -> u ∉ take j l -> u ∈ l ->
    exists vertex_array' l',
      delete_selected (seqZ (Z.of_nat j) (Z.of_nat k)) vertex_array (Some u)
      = Ok vertex_array' /\
      working_array vertex_array' l' /\ l ≡ₚ u :: l'.
Proof.
  intros [Hitems Hsize]. induction k as [|k IH]; intros j Hjk Hnot Hin.
  - exfalso. apply Hnot. by rewrite take_ge by lia.
  - rewrite Nat2Z.inj_succ, seqZ_cons by lia. cbn [delete_selected].
    destruct (lookup_lt_is_Some_2 l j ltac:(lia)) as [x Hx].
    rewrite (Array_getitem_Ok _ _ (Some x)) by (by rewrite Hitems, list_lookup_fmap, Hx).
    simpl. destruct (decide (Some x = Some u)) as [[= ->]|Hne].
    + exists (mkArray (Some <$> delete j l) (_physical_size vertex_array)
                      (Z.of_nat (length l) - 1) (_default_item_value vertex_array)),
             (delete j l).
      assert (length (delete j l) = length l - 1)%nat as Hlen.
      { rewrite length_delete by (by eexists). lia. }
      split; [|split].
      * unfold Array_delitem, Array_len. rewrite Hsize.
        destruct (Z.ltb_spec (Z.of_nat j) 0); [lia|].
        destruct (Z.ltb_spec (Z.of_nat (length l)) 0); [lia|]. simpl.
        destruct (Z.ltb_spec (Z.of_nat j) (Z.of_nat (length l))); [|lia].
        unfold np_delete. rewrite Nat2Z.id, Hitems, length_fmap.
        rewrite decide_True by lia. simpl.
        by rewrite list_fmap_delete.
      * split; [done|]. simpl. lia.
      * by apply delete_Permutation.
    + rewrite Z.pred_succ. rewrite <- Nat2Z.inj_succ.
      apply IH; [lia | | done].
      rewrite (take_S_r _ _ x) by done. intros [?|Hu]%elem_of_app; [done|].
      apply list_elem_of_singleton in Hu. congruence.
Qed.

(** What [select_minimum] returns: nothing when no vertex of the working
    array has a distance above the sentinel, and otherwise a vertex of the
    array whose distance is above the sentinel and is the smallest such. *)
Definition argmin (dm : Airport -> option Q) (l : list Airport)
    (minimum : option Airport) : Prop :=
  match minimum with
  | None => forall x d, x ∈ l -> dm x = Some d -> Qgtb d (-1) = false
  | Some u =>
      u ∈ l /\ exists du, dm u = Some du /\ Qgtb du (-1) = true /\
      forall x d, x ∈ l -> dm x = Some d -> Qgtb d (-1) = true -> (du <= d)%Q
  end.

Lemma select_minimum_argmin (dm : Airport -> option Q) (done_ l : list Airport)
    (minimum : option Airport) :
  (forall a, a ∈ l -> is_Some (dm a)) ->
  argmin dm done_ minimum ->
  exists minimum',
    foldM (fun minimum_distance_vertex vertex =>
             d ← view_distance_of dm vertex;
             if Qgtb d (-1)
             then match minimum_distance_vertex with
                  | None => Ok vertex
                  | Some m =>
                      d ← view_distance_of dm vertex;
                      dmin ← view_get dm m;
                      if Qltb d dmin then Ok vertex else Ok minimum_distance_vertex
                  end
             else Ok minimum_distance_vertex)
          (Some <$> l) minimum = Ok minimum' /\
    argmin dm (done_ ++ l) minimum'.
Proof.
  revert done_ minimum. induction l as [|a l IH]; intros done_ minimum Hkeys Hmin.
  - exists minimum. by rewrite app_nil_r.
  - rewrite fmap_cons. cbn [foldM].
    destruct (Hkeys a ltac:(left)) as [d Hd].
    assert (forall a', a' ∈ l -> is_Some (dm a')) as Hkeys'
      by (intros a' Ha'; apply Hkeys; by right).
    assert (view_distance_of dm (Some a) = Ok d) as Hget.
    { simpl. unfold view_get. by rewrite Hd. }
    rewrite !Hget. rewrite bind_Ok.
    replace (done_ ++ a :: l) with ((done_ ++ [a]) ++ l) by (by rewrite <- app_assoc).
    destruct (Qgtb d (-1)) eqn:Hgt.
    + destruct minimum as [m|].
      * destruct Hmin as (Hm & dmin & Hdmin & Hmgt & Hleast).
        assert (view_get dm m = Ok dmin) as -> by (unfold view_get; by rewrite Hdmin).
        rewrite !bind_Ok. destruct (Qltb d dmin) eqn:Hlt; apply IH; try done.
        -- split; [apply elem_of_app; right; left|]. exists d. do 2 (split; [done|]).
           intros x dx [Hx| ->%list_elem_of_singleton]%elem_of_app Hdx Hxgt.
           ++ apply Qltb_true in Hlt. specialize (Hleast x dx Hx Hdx Hxgt). lra.
           ++ assert (dx = d) as -> by congruence. lra.
        -- split; [apply elem_of_app; by left|]. exists dmin. do 2 (split; [done|]).
           intros x dx [Hx| ->%list_elem_of_singleton]%elem_of_app Hdx Hxgt.
           ++ by apply (Hleast x dx).
           ++ assert (dx = d) as -> by congruence. by apply Qltb_false in Hlt.
      * apply IH; [done|]. split; [apply elem_of_app; right; left|].
        exists d. do 2 (split; [done|]).
        intros x dx [Hx| ->%list_elem_of_singleton]%elem_of_app Hdx Hxgt.
        -- rewrite (Hmin x dx Hx Hdx) in Hxgt. done.
        -- assert (dx = d) as -> by congruence. lra.
    + apply IH; [done|]. destruct minimum as [m|].
      * destruct Hmin as (Hm & dmin & Hdmin & Hmgt & Hleast).
        split; [apply elem_of_app; by left|]. exists dmin. do 2 (split; [done|]).
        intros x dx [Hx| ->%list_elem_of_singleton]%elem_of_app Hdx Hxgt.
        -- by apply (Hleast x dx).
        -- assert (dx = d) as -> by congruence. congruence.
      * intros x dx [Hx| ->%list_elem_of_singleton]%elem_of_app Hdx.
        -- by apply (Hmin x dx).
        -- congruence.
Qed.

Section Distances.
Context {ED : Type} `{EqDecision ED}.
Variables (g : Graph Airport ED) (datas : list Airport) (origin : Airport).
Hypothesis g_closed : graph_closed g.
Hypothesis datas_spec : forall a, a ∈ datas <-> is_Some (hm_get (_vertices g) a).
Hypothesis origin_vertex : origin ∈ datas.
Hypothesis weights_nonneg : forall u v w, weighted_edge g u v w -> (0 <= w)%Q.

(** A distance in the table is the sentinel or the length of a route from
    the origin. *)
Definition dist_ok (dm : Airport -> option Q) : Prop :=
  forall v x, dm v = Some x -> x = (-1)%Q \/ ((0 <= x)%Q /\ route g origin v x).

(** How the distances change while the edges of a vertex at distance [du]
    are relaxed: the keys stay, a distance can only decrease, a distance
    of at most [du] stays as it is, and a distance that changes becomes at
    least [du]. *)
Definition relaxed (du : Q) (dm dm' : Airport -> option Q) : Prop :=
  (forall a, is_Some (dm' a) <-> is_Some (dm a)) /\
  (forall x dx, dm x = Some dx -> (0 <= dx)%Q ->
                exists dx', dm' x = Some dx' /\ (0 <= dx')%Q /\ (dx' <= dx)%Q) /\
  (forall x dx, dm x = Some dx -> (0 <= dx)%Q -> (dx <= du)%Q -> dm' x = Some dx) /\
  (forall x dx', dm' x = Some dx' -> (0 <= dx')%Q -> dm x = Some dx' \/ (du <= dx')%Q).

Lemma relaxed_refl du dm : relaxed du dm dm.
Proof.
  split; [done|]. split; [|split].
  - intros x dx Hx Hpos. exists dx. split; [done|]. split; [done | lra].
  - done.
  - intros x dx' Hx _. by left.
Qed.

Lemma relaxed_trans du dm dm' dm'' :
  relaxed du dm dm' -> relaxed du dm' dm'' -> relaxed du dm dm''.
Proof.
  intros (Hk & Hmono & Hfix & Hnew) (Hk' & Hmono' & Hfix' & Hnew').
  split; [|split; [|split]].
  - intros a. by rewrite Hk', Hk.
  - intros x dx Hx Hpos. destruct (Hmono x dx Hx Hpos) as (dx' & Hx' & Hpos' & Hle).
    destruct (Hmono' x dx' Hx' Hpos') as (dx'' & Hx'' & Hpos'' & Hle').
    exists dx''. split; [done|]. split; [done | lra].
  - intros x dx Hx Hpos Hle. apply Hfix'; [|done|done]. by apply Hfix.
  - intros x dx'' Hx'' Hpos''. destruct (Hnew' x dx'' Hx'' Hpos'') as [Hx'|?]; [|by right].
    by apply Hnew.
Qed.

(** One edge [u -> v] of weight [w] is relaxed. *)
Lemma relax_one (u : Airport) (dv : dview) (pv : pview) (du : Q) routes rt destination :
  (forall a, is_Some (dv.1 a) <-> a ∈ datas) -> dist_ok dv.1 ->
  dv.1 u = Some du -> (0 <= du)%Q -> route g origin u du ->
  Graph_edges_from g u = Ok routes -> Some rt ∈ Array_iter routes ->
  deref (heap g) (_destination_vertex rt) = Ok destination ->
  _vertex_data destination ∈ datas ->
  exists dv' pv',
    view_relax (heap g) u (dv, pv) (Some rt) = Ok (dv', pv') /\
    (forall a, is_Some (dv'.1 a) <-> a ∈ datas) /\ dist_ok dv'.1 /\
    relaxed du dv.1 dv'.1 /\
    (exists y, dv'.1 (_vertex_data destination) = Some y /\ (0 <= y)%Q /\
               (y <= du + _weight rt)%Q) /\
    ((dv' = dv /\ pv' = pv) \/
     (dv' = view_set dv (_vertex_data destination) (du + _weight rt)%Q /\
      pv' = view_set pv (_vertex_data destination) (Some u) /\
      forall y, dv.1 (_vertex_data destination) = Some y -> (0 <= y)%Q ->
                (du + _weight rt < y)%Q)).
Proof.
  intros Hkeys Hdist Hu Hdu Hroute Hroutes Hrt Hdest Hin.
  set (v := _vertex_data destination) in *. set (w := _weight rt).
  assert (weighted_edge g u v w) as Hedge by (by exists routes, rt, destination).
  pose proof (weights_nonneg u v w Hedge) as Hw.
  destruct (proj2 (Hkeys v) Hin) as [dvv Hv].
  assert (route g origin v (du + w)) as Hroute' by (by apply (route_step g origin u v)).
  assert (view_relax (heap g) u (dv, pv) (Some rt)
          = Ok (if Qeq_bool dvv (-1) || Qltb (du + w) dvv
                then (view_set dv v (du + w)%Q, view_set pv v (Some u))
                else (dv, pv))) as ->.
  { unfold view_relax, view_get. rewrite Hu, bind_Ok, Hdest, bind_Ok. fold v.
    rewrite Hv, !bind_Ok. fold w.
    destruct (Qeq_bool dvv (-1)); [done|]. rewrite !bind_Ok.
    by destruct (Qltb (du + w) dvv). }
  assert (forall x, (0 <= x)%Q -> Qeq_bool x (-1) = false) as Hnot.
  { intros x Hx. destruct (Qeq_bool x (-1)) eqn:Heq; [|done].
    apply Qeq_bool_iff in Heq. lra. }
  assert ((Qeq_bool dvv (-1) || Qltb (du + w) dvv = false /\ (0 <= dvv)%Q /\
           (dvv <= du + w)%Q) \/
          (Qeq_bool dvv (-1) || Qltb (du + w) dvv = true /\
           (dvv = (-1)%Q \/ ((0 <= dvv)%Q /\ (du + w < dvv)%Q)))) as [(-> & Hpos & Hle)|(-> & Hold)].
  { destruct (Hdist v dvv Hv) as [->|[Hpos Hrv]]; [right; split; [done | by left]|].
    rewrite (Hnot dvv Hpos). cbn [orb]. destruct (Qltb (du + w) dvv) eqn:Hlt.
    - apply Qltb_true in Hlt. right. split; [done|]. right. by split.
    - apply Qltb_false in Hlt. left. by split. }
  - eexists _, _. split; [done|]. split; [done|]. split; [done|].
    split; [apply relaxed_refl|]. split; [|by left].
    exists dvv. split; [done|]. by split.
  - eexists _, _. split; [done|]. cbn [view_set fst].
    split; [|split; [|split; [|split]]].
    + intros a. destruct (decide (a = v)) as [->|]; [|apply Hkeys].
      split; [done | by eexists].
    + intros x dx. destruct (decide (x = v)) as [->|]; [|apply Hdist].
      intros [= <-]. right. split; [lra | done].
    + split; [|split; [|split]].
      * intros a. destruct (decide (a = v)) as [->|]; [|done]. split; by eexists.
      * intros x dx Hx Hposx. destruct (decide (x = v)) as [->|].
        -- rewrite Hv in Hx. injection Hx as <-. exists (du + w)%Q.
           split; [done|]. split; [lra|]. destruct Hold as [->|[_ ?]]; lra.
        -- exists dx. split; [done|]. split; [done | lra].
      * intros x dx Hx Hposx Hle. destruct (decide (x = v)) as [->|]; [|done].
        rewrite Hv in Hx. injection Hx as <-. destruct Hold as [->|[_ ?]]; lra.
      * intros x dx' Hx' _. destruct (decide (x = v)) as [->|]; [|by left].
        injection Hx' as <-. right. lra.
    + exists (du + w)%Q. rewrite decide_True by done. split; [done|]. split; lra.
    + right. split; [done|]. split; [done|]. intros y Hy Hposy.
      rewrite Hv in Hy. injection Hy as <-. destruct Hold as [->|[_ ?]]; lra.
Qed.

(** The connections agree with the distances: the origin has none; a
    connection of [v] is a vertex [p] that was selected before [v], with
    an edge to [v] whose weight makes up the difference of their
    distances; and every other vertex with a distance has a connection.
    [settled] lists the vertices selected so far, in order. *)
Definition prev_ok (settled : list Airport) (dm : Airport -> option Q)
    (pm : Airport -> option (option Airport)) : Prop :=
  pm origin = Some None /\
  (forall v p, pm v = Some (Some p) ->
     exists i dp w,
       settled !! i = Some p /\ (forall j, settled !! j = Some v -> (i < j)%nat) /\
       dm p = Some dp /\ (0 <= dp)%Q /\ weighted_edge g p v w /\
       dm v = Some (dp + w)%Q) /\
  (forall v x, dm v = Some x -> (0 <= x)%Q -> v <> origin ->
               exists p, pm v = Some (Some p)).

(** The table of connections has every vertex as a key, and as many
    keys as [Dijkstra.__init__] gave it. *)
Definition conn_keys (pv : pview) : Prop :=
  (forall a, a ∈ datas -> is_Some (pv.1 a)) /\ pv.2 = (view_connections datas).2.

(** What holds while the edges of [u], at distance [du], are relaxed. *)
Definition relaxing (settled : list Airport) (du : Q) (dm0 : Airport -> option Q)
    (tv : tview) : Prop :=
  (forall a, is_Some (tv.1.1 a) <-> a ∈ datas) /\ dist_ok tv.1.1 /\
  relaxed du dm0 tv.1.1 /\ prev_ok settled tv.1.1 tv.2.1 /\ conn_keys tv.2.

Section RelaxEdges.
Variables (settled : list Airport) (u : Airport) (du : Q) (dm0 : Airport -> option Q).
Hypothesis settled_below :
  forall s, s ∈ settled -> exists ds, dm0 s = Some ds /\ (0 <= ds)%Q /\ (ds <= du)%Q.
Hypothesis u_settled : u ∈ settled.
Hypothesis u_distance : dm0 u = Some du.
Hypothesis u_reached : (0 <= du)%Q.
Hypothesis u_route : route g origin u du.
Hypothesis origin_distance : dm0 origin = Some 0%Q.

Lemma relax_edge_keeps (tv : tview) routes rt destination :
  relaxing settled du dm0 tv ->
  Graph_edges_from g u = Ok routes -> Some rt ∈ Array_iter routes ->
  deref (heap g) (_destination_vertex rt) = Ok destination ->
  _vertex_data destination ∈ datas ->
  exists tv',
    view_relax (heap g) u tv (Some rt) = Ok tv' /\ relaxing settled du dm0 tv' /\
    exists y, tv'.1.1 (_vertex_data destination) = Some y /\ (0 <= y)%Q /\
              (y <= du + _weight rt)%Q.
Proof.
  destruct tv as [dv pv]. intros (Hkeys & Hdist & Hrel & (Hp0 & Hp1 & Hp2) & Hck).
  cbn [fst snd] in *. intros Hroutes Hrt Hdest Hin.
  pose proof Hrel as (_ & _ & Hfix & _).
  assert (dv.1 u = Some du) as Hu by (apply Hfix; [done | done | lra]).
  assert (dv.1 origin = Some 0%Q) as Ho by (apply Hfix; [done | lra | done]).
  set (v := _vertex_data destination) in *. set (w := _weight rt).
  assert (weighted_edge g u v w) as Hedge by (by exists routes, rt, destination).
  pose proof (weights_nonneg u v w Hedge) as Hw.
  destruct (relax_one u dv pv du routes rt destination
              Hkeys Hdist Hu u_reached u_route Hroutes Hrt Hdest Hin)
    as (dv' & pv' & Hrelax & Hkeys' & Hdist' & Hrel' & Hbound & Hcases).
  exists (dv', pv'). split; [done|]. split; [|done]. cbn [fst snd].
  split; [done|]. split; [done|]. split; [by apply (relaxed_trans du dm0 dv.1)|].
  fold v w in Hcases. destruct Hcases as [[-> ->]|(-> & -> & Himproved)]; [done|].
  split; [|destruct Hck as [Hck1 Hck2]; split; cbn [view_set fst snd];
           [intros a Ha; destruct (decide (a = v)); [by eexists | by apply Hck1] |
            by destruct (Hck1 v Hin) as [? ->]]].
  assert (v ∉ settled) as Hvs.
  { intros (ds & Hds & Hpos & Hle)%settled_below.
    assert (dv.1 v = Some ds) as Hv by (by apply Hfix).
    specialize (Himproved ds Hv Hpos). lra. }
  assert (v <> origin) as Hvo.
  { intros Heq. rewrite Heq in Himproved. specialize (Himproved 0%Q Ho). lra. }
  assert (v <> u) as Hvu by (intros ->; done).
  assert (origin <> v) as Hov by done.
  assert (u <> v) as Huv by done.
  unfold prev_ok. cbn [view_set fst snd]. split; [|split].
  - by rewrite decide_False.
  - intros x p. destruct (decide (x = v)) as [->|Hxv].
    + intros [= <-]. apply list_elem_of_lookup in u_settled as [i Hi].
      exists i, du, w. split; [done|]. split.
      { intros j Hj. exfalso. apply Hvs. by apply list_elem_of_lookup_2 in Hj. }
      rewrite decide_False by done. by repeat split.
    + intros Hx. destruct (Hp1 x p Hx) as (i & dp & w' & Hi & Hbefore & Hdp & Hpos & He & Hdx).
      exists i, dp, w'. split; [done|]. split; [done|].
      assert (p <> v) as Hpv.
      { intros ->. apply Hvs. by apply list_elem_of_lookup_2 in Hi. }
      by rewrite !decide_False by done.
  - intros x y. destruct (decide (x = v)) as [->|Hxv].
    + intros _ _ _. by exists u.
    + apply Hp2.
Qed.

Lemma relax_edges_keep (tv : tview) routes (edges : list (_Edge ED)) :
  relaxing settled du dm0 tv ->
  Graph_edges_from g u = Ok routes ->
  (forall edge, edge ∈ edges ->
     Some edge ∈ Array_iter routes /\
     exists destination,
       deref (heap g) (_destination_vertex edge) = Ok destination /\
       _vertex_data destination ∈ datas) ->
  exists tv',
    foldM (view_relax (heap g) u) (Some <$> edges) tv = Ok tv' /\
    relaxing settled du dm0 tv' /\
    relaxed du tv.1.1 tv'.1.1 /\
    forall edge destination,
      edge ∈ edges -> deref (heap g) (_destination_vertex edge) = Ok destination ->
      exists y, tv'.1.1 (_vertex_data destination) = Some y /\ (0 <= y)%Q /\
                (y <= du + _weight edge)%Q.
Proof.
  intros Hinv Hroutes. revert tv Hinv.
  induction edges as [|edge edges IH]; intros tv Hinv Hedges.
  - exists tv. split; [done|]. split; [done|]. split; [apply relaxed_refl|].
    by intros edge destination ?%elem_of_nil.
  - destruct (Hedges edge ltac:(left)) as (Hin & destination & Hdest & Hdata).
    destruct (relax_edge_keeps tv routes edge destination Hinv Hroutes Hin Hdest Hdata)
      as (tv1 & Hrelax & Hinv1 & y & Hy & Hpos & Hle).
    destruct (IH tv1 Hinv1) as (tv' & Hfold & Hinv' & Hrel' & Hbounds).
    { intros edge' Hedge'. apply Hedges. by right. }
    exists tv'. rewrite fmap_cons. cbn [foldM]. rewrite Hrelax, bind_Ok.
    split; [done|]. split; [done|].
    assert (relaxed du tv.1.1 tv1.1.1) as Hrel1.
    { destruct tv as [dv pv]. destruct Hinv as (Hkeys & Hdist & Hrel & _).
      cbn [fst snd] in *. pose proof Hrel as (_ & _ & Hfix & _).
      assert (dv.1 u = Some du) as Hu by (apply Hfix; [done | done | lra]).
      destruct (relax_one u dv pv du routes edge destination
                  Hkeys Hdist Hu u_reached u_route Hroutes Hin Hdest Hdata)
        as (dv' & pv' & Hrelax' & _ & _ & Hrel1 & _).
      rewrite Hrelax in Hrelax'. injection Hrelax' as ->. exact Hrel1. }
    split; [by apply (relaxed_trans du _ tv1.1.1)|].
    intros edge' destination' [->|Hin']%elem_of_cons Hdest'.
    + assert (destination' = destination) as -> by congruence.
      destruct Hrel' as (_ & Hmono & _).
      destruct (Hmono _ y Hy Hpos) as (y' & Hy' & Hpos' & Hle').
      exists y'. split; [done|]. split; [done | lra].
    + by apply (Hbounds edge').
Qed.

End RelaxEdges.

(** What holds of the tables each time the loop of [find_shortest_paths]
    comes round: [l] are the vertices left in the working array and
    [settled] the ones selected, in order.  A selected vertex has a
    distance that no vertex left undercuts, and each of its edges has
    been accounted for at its end. *)
Definition sp_inv (tv : tview) (l settled : list Airport) : Prop :=
  (forall a, is_Some (tv.1.1 a) <-> a ∈ datas) /\
  dist_ok tv.1.1 /\
  tv.1.1 origin = Some 0%Q /\
  NoDup (settled ++ l) /\ (forall a, a ∈ datas <-> a ∈ settled ++ l) /\
  (forall s, s ∈ settled ->
     exists ds, tv.1.1 s = Some ds /\ (0 <= ds)%Q /\
       (forall v w, weighted_edge g s v w ->
          exists y, tv.1.1 v = Some y /\ (0 <= y)%Q /\ (y <= ds + w)%Q) /\
       (forall x dx, x ∈ l -> tv.1.1 x = Some dx -> (0 <= dx)%Q -> (ds <= dx)%Q)) /\
  prev_ok settled tv.1.1 tv.2.1 /\ conn_keys tv.2.

Lemma prev_ok_snoc (settled : list Airport) (u : Airport) dm pm :
  prev_ok settled dm pm -> prev_ok (settled ++ [u]) dm pm.
Proof.
  intros (H0 & H1 & H2). split; [done|]. split; [|done].
  intros v p Hp. destruct (H1 v p Hp) as (i & dp & w & Hi & Hbefore & Hrest).
  exists i, dp, w. split; [by apply lookup_app_l_Some|]. split; [|done].
  intros j Hj. pose proof (lookup_lt_Some _ _ _ Hi) as Hlt.
  destruct (decide (j < length settled)%nat) as [Hj'|Hj'].
  - apply Hbefore. by rewrite lookup_app_l in Hj.
  - lia.
Qed.

Lemma nonneg_above_sentinel (x : Q) : (0 <= x)%Q -> Qgtb x (-1) = true.
Proof. intros Hx. apply Qgtb_true. lra. Qed.

Lemma dist_ok_reached (dm : Airport -> option Q) v x :
  dist_ok dm -> dm v = Some x -> Qgtb x (-1) = true ->
  (0 <= x)%Q /\ route g origin v x.
Proof.
  intros Hdist Hv Hgt. destruct (Hdist v x Hv) as [->|?]; [|done].
  apply Qgtb_true in Hgt. lra.
Qed.

(** The loop of [find_shortest_paths] ends within as many rounds as the
    working array has slots; it keeps the invariant, and no vertex that
    it leaves in the array has a distance. *)
Lemma loop_shortest (fuel : nat) (tv : tview) vertex_array (l settled : list Airport) :
  working_array vertex_array l -> (length l <= fuel)%nat -> sp_inv tv l settled ->
  exists tv' l' settled',
    view_loop fuel (Graph_edges_from g) (heap g) tv vertex_array = Ok tv' /\
    sp_inv tv' l' settled' /\ argmin tv'.1.1 l' None.
Proof.
  revert tv vertex_array l settled.
  induction fuel as [|fuel IH]; intros tv vertex_array l settled Harr Hfuel Hinv;
    pose proof Harr as [Hitems Hsize];
    rewrite view_loop_unfold; unfold Array_len; rewrite Hsize;
    (destruct (Z.ltb_spec (Z.of_nat (length l)) 0); [lia|]); simpl;
    (destruct (Z.eqb_spec (Z.of_nat (length l)) 0) as [Hzero|Hpos];
     [exists tv, l, settled; split; [done|]; split; [done|];
      destruct l; [by intros x d ?%elem_of_nil | simpl in Hzero; lia]|]); [lia|].
  pose proof Hinv as (Hkeys & Hdist & Ho & Hnd & Hall & Hsettled & Hprev & Hck).
  assert (forall a, a ∈ l -> is_Some (tv.1.1 a)) as Hl.
  { intros a Ha. apply Hkeys, Hall, elem_of_app. by right. }
  destruct (select_minimum_argmin tv.1.1 [] l None Hl) as (minimum & Hsel & Hmin).
  { by intros x d ?%elem_of_nil. }
  rewrite app_nil_l in Hmin.
  assert (view_select_minimum tv.1.1 vertex_array = Ok minimum) as ->.
  { unfold view_select_minimum, Array_iter. by rewrite Hitems. }
  simpl. destruct minimum as [u|].
  - destruct Hmin as (Hu & du & Hdu & Hgt & Hleast).
    destruct (dist_ok_reached tv.1.1 u du Hdist Hdu Hgt) as [Hdupos Hroute].
    destruct (delete_selected_perm vertex_array l u (length l) Harr 0%nat)
      as (vertex_array' & l' & Hdel & Harr' & Hperm); [done | | done |].
    { simpl. apply not_elem_of_nil. }
    change (Z.of_nat 0) with 0 in Hdel. rewrite Hdel. simpl.
    assert (u ∈ datas) as Hu' by (apply Hall, elem_of_app; by right).
    destruct (edges_of_vertex g u g_closed (proj1 (datas_spec u) Hu'))
      as (routes & edges & Hroutes & Hiter & Hedges).
    rewrite Hroutes. simpl. rewrite Hiter.
    assert (forall s, s ∈ settled ++ [u] ->
              exists ds, tv.1.1 s = Some ds /\ (0 <= ds)%Q /\ (ds <= du)%Q) as Hbelow.
    { intros s [Hs| ->%list_elem_of_singleton]%elem_of_app.
      - destruct (Hsettled s Hs) as (ds & Hds & Hdspos & _ & Hle).
        exists ds. split; [done|]. split; [done|]. by apply (Hle u du).
      - exists du. split; [done|]. split; [done | lra]. }
    assert (u ∈ settled ++ [u]) as Hu'' by (apply elem_of_app; right; left).
    destruct (relax_edges_keep (settled ++ [u]) u du tv.1.1 Hbelow Hu'' Hdu Hdupos
                Hroute Ho tv routes edges) as (tv1 & -> & Hrel1 & _ & Hbounds);
      [| done | |].
    { split; [done|]. split; [done|]. split; [apply relaxed_refl|].
      split; [by apply prev_ok_snoc | done]. }
    { intros edge Hedge. split; [rewrite Hiter; by apply list_elem_of_fmap_2|].
      destruct (Hedges edge Hedge) as (destination & ? & ?). exists destination.
      split; [done|]. by apply datas_spec. }
    simpl. destruct Hrel1 as (Hkeys1 & Hdist1 & Hrel & Hprev1).
    pose proof Hrel as (_ & Hmono & Hfix & Hnew).
    assert (length l = S (length l')) as Hlen by (by rewrite Hperm).
    apply (IH tv1 vertex_array' l' (settled ++ [u])); [done | lia |].
    split; [done|]. split; [done|]. split; [apply Hfix; [done | lra | done]|].
    assert (settled ++ l ≡ₚ (settled ++ [u]) ++ l') as Hperm'.
    { rewrite Hperm, <- app_assoc. done. }
    split; [by rewrite <- Hperm'|]. split; [intros a; by rewrite <- Hperm'|].
    split; [|done].
    intros s [Hs| ->%list_elem_of_singleton]%elem_of_app.
    + destruct (Hsettled s Hs) as (ds & Hds & Hdspos & Hout & Hle).
      assert (ds <= du)%Q as Hsu by (by apply (Hle u du)).
      exists ds. split; [by apply Hfix|]. split; [done|]. split.
      * intros v w Hedge. destruct (Hout v w Hedge) as (y & Hy & Hypos & Hyle).
        destruct (Hmono v y Hy Hypos) as (y' & Hy' & Hypos' & Hyle').
        exists y'. split; [done|]. split; [done | lra].
      * intros x dx Hx Hdx Hdxpos.
        destruct (Hnew x dx Hdx Hdxpos) as [Hold|?]; [|lra].
        apply (Hle x dx); [|done|done]. rewrite Hperm. by right.
    + exists du. split; [apply Hfix; [done | done | lra]|]. split; [done|]. split.
      * intros v w (routes' & rt & destination & Hroutes' & Hrt & Hdest & <- & <-).
        assert (routes' = routes) as -> by congruence.
        rewrite Hiter in Hrt. apply list_elem_of_fmap in Hrt as (rt' & [= <-] & Hrt).
        by apply (Hbounds rt destination).
      * intros x dx Hx Hdx Hdxpos.
        destruct (Hnew x dx Hdx Hdxpos) as [Hold|?]; [|done].
        apply (Hleast x dx); [|done|by apply nonneg_above_sentinel].
        rewrite Hperm. by right.
  - rewrite (delete_selected_none vertex_array l) by
      (done || (intros i Hi%elem_of_seqZ; lia)).
    by exists tv, l, settled.
Qed.

(** When the loop has ended, the distance of every vertex that a route
    reaches is at most the length of the route. *)
Lemma sp_inv_shortest (tv : tview) (l settled : list Airport) v y :
  sp_inv tv l settled -> argmin tv.1.1 l None -> route g origin v y ->
  exists x, tv.1.1 v = Some x /\ (0 <= x)%Q /\ (x <= y)%Q.
Proof.
  intros (Hkeys & Hdist & Ho & Hnd & Hall & Hsettled & Hprev) Hend.
  induction 1 as [|v w x y _ (xv & Hv & Hxvpos & Hxvle) Hedge].
  - exists 0%Q. split; [done|]. split; lra.
  - assert (v ∈ settled) as Hs.
    { assert (v ∈ settled ++ l) as [?|Hv']%elem_of_app; [|done|].
      - apply Hall, Hkeys. by eexists.
      - pose proof (Hend v xv Hv' Hv) as Hgt.
        rewrite (nonneg_above_sentinel xv Hxvpos) in Hgt. done. }
    destruct (Hsettled v Hs) as (ds & Hds & _ & Hout & _).
    assert (ds = xv) as -> by congruence.
    destruct (Hout w y Hedge) as (yw & Hw & Hywpos & Hywle).
    exists yw. split; [done|]. split; [done | lra].
Qed.

(** When the loop has ended, every vertex with a distance was selected. *)
Lemma reached_settled (tv : tview) (l settled : list Airport) v x :
  sp_inv tv l settled -> argmin tv.1.1 l None ->
  tv.1.1 v = Some x -> (0 <= x)%Q -> v ∈ settled.
Proof.
  intros (Hkeys & _ & _ & _ & Hall & _) Hend Hv Hpos.
  assert (v ∈ settled ++ l) as [?|Hv']%elem_of_app; [|done|].
  - apply Hall, Hkeys. by eexists.
  - pose proof (Hend v x Hv' Hv) as Hgt.
    rewrite (nonneg_above_sentinel x Hpos) in Hgt. done.
Qed.

(** The selected vertices are no more than the keys of the table of
    connections. *)
Lemma settled_count (tv : tview) (l settled : list Airport) :
  NoDup datas -> sp_inv tv l settled -> Z.of_nat (length settled) <= tv.2.2.
Proof.
  intros Hnd (_ & _ & _ & Hnds & Hall & _ & _ & _ & ->).
  unfold view_connections. rewrite (view_fill_count (fun _ => @None Airport)); [|done|done].
  cbn [snd]. apply NoDup_app in Hnds as (Hnds & _ & _).
  assert (settled ⊆+ datas) as Hsub%submseteq_length; [|lia].
  apply NoDup_submseteq; [done|]. intros a Ha. apply Hall, elem_of_app. by left.
Qed.

(** Walking back from a selected vertex follows the connections to the
    origin: the codes pushed are, from the top of the stack down, those
    of the stops of a route from the origin whose length is the distance
    of the vertex. *)
Lemma walk_back_route (tv : tview) (l settled : list Airport) :
  sp_inv tv l settled ->
  forall (j fuel : nat) (v : Airport) (stack : ListStack string),
    settled !! j = Some v -> (j < fuel)%nat ->
    exists stops x,
      view_walk_back fuel tv.2.1 stack origin v
      = Ok (foldl ListStack_push stack (airport_code <$> reverse stops), true) /\
      tv.1.1 v = Some x /\ route_via g origin stops v x.
Proof.
  intros (_ & _ & Ho & _ & _ & Hsettled & (_ & Hp1 & Hp2) & _) j.
  induction j as [j IH] using lt_wf_ind. intros fuel v stack Hj Hfuel.
  rewrite view_walk_back_unfold. destruct (decide (v = origin)) as [->|Hne].
  - exists [], 0%Q. split; [done|]. split; [done | apply route_via_here].
  - destruct fuel as [|fuel]; [lia|]. cbn zeta.
    destruct (Hsettled v (list_elem_of_lookup_2 _ _ _ Hj)) as (x & Hx & Hxpos & _).
    destruct (Hp2 v x Hx Hxpos Hne) as [p Hp]. unfold view_get at 1. rewrite Hp, bind_Ok.
    destruct (Hp1 v p Hp) as (i & dp & w & Hi & Hbefore & Hdp & _ & Hedge & Hv).
    pose proof (Hbefore j Hj) as Hij.
    destruct (IH i Hij fuel p (ListStack_push stack (airport_code v)) Hi ltac:(lia))
      as (stops & dp' & -> & Hdp' & Hroute).
    assert (dp' = dp) as -> by congruence.
    exists (stops ++ [v]), (dp + w)%Q. split; [|split; [done|]].
    + by rewrite reverse_snoc, fmap_cons.
    + by apply (route_via_step g origin stops p v).
Qed.

(** [find_shortest_paths] on the tables as [Dijkstra.__init__] leaves
    them, when the working array holds every vertex once. *)
Lemma find_shortest_paths_sp (order : list Airport) :
  NoDup order -> (forall a, a ∈ order <-> a ∈ datas) ->
  exists tv' l settled,
    view_find_shortest_paths (Graph_edges_from g) (heap g) order origin
                             (view_distances datas, view_connections datas) = Ok tv' /\
    sp_inv tv' l settled /\ argmin tv'.1.1 l None.
Proof.
  intros Hnd Horder. unfold view_find_shortest_paths.
  apply (loop_shortest _ _ _ order []); [by split | simpl; lia |].
  unfold sp_inv, prev_ok, conn_keys. cbn [fst snd view_set app].
  repeat match goal with |- _ /\ _ => split end.
  - intros a. rewrite view_reset_lookup. cbn [view_set fst].
    rewrite view_distances_lookup.
    repeat case_decide; subst; split; try done; try (by eexists); intros; try tauto.
    apply Horder. tauto.
  - intros v x. rewrite view_reset_lookup. cbn [view_set fst].
    rewrite view_distances_lookup.
    repeat case_decide; subst; try done; intros [= <-]; try (by left).
    right. split; [lra | apply route_here].
  - rewrite view_reset_lookup. cbn [view_set fst].
    rewrite decide_False by tauto. by rewrite decide_True.
  - done.
  - intros a. by rewrite Horder.
  - by intros s ?%elem_of_nil.
  - by rewrite decide_True.
  - intros v p. rewrite view_connections_lookup. repeat case_decide; by subst.
  - intros v x. rewrite view_reset_lookup. cbn [view_set fst].
    rewrite view_distances_lookup.
    repeat case_decide; subst; try done; intros [= <-]; try lra.
    all: intros; exfalso; rewrite Horder in *; tauto.
  - intros a Ha. rewrite view_connections_lookup.
    repeat case_decide; try done; by eexists.
  - rewrite view_connections_lookup. by rewrite decide_True.
Qed.

End Distances.

(** *** Reading the hypotheses off a graph *)

Section GraphHypotheses.
Context {VD ED : Type} `{EqDecision VD} `{EqDecision ED}.

(** No edge that [edges_from] returns has a negative weight when no edge
    of a vertex object has one. *)
Lemma weights_of_store (g : Graph VD ED) :
  graph_closed g ->
  (forall vertex edge, vertex ∈ heap g -> edge ∈ _edges vertex ->
                       (0 <= _weight edge)%Q) ->
  forall u v w, weighted_edge g u v w -> (0 <= w)%Q.
Proof.
  intros Hclosed Hall u v w (routes & rt & destination & Hroutes & Hrt & _ & _ & <-).
  rewrite (Graph_edges_from_edges_at g Hclosed) in Hroutes. unfold edges_at in Hroutes.
  destruct (hm_get (_vertices g) u) as [r|]; [|done]. cbn in Hroutes.
  destruct (heap g !! r) as [vertex|] eqn:Hvertex; [|done]. cbn in Hroutes.
  injection Hroutes as <-. unfold Array_iter, edges_array in Hrt. cbn [_items] in Hrt.
  apply list_elem_of_fmap in Hrt as (rt' & [= <-] & Hrt).
  apply (Hall vertex rt); [|done]. by apply list_elem_of_lookup_2 in Hvertex.
Qed.

(** The vertices of a graph are the keys of its vertex map. *)
Lemma vertices_of_keys (g : Graph VD ED) (keys : list VD) :
  graph_closed g -> HashMap_keys (_vertices g) = Ok keys ->
  forall a, HashMap_contains (_vertices g) a = Ok true <-> a ∈ keys.
Proof.
  intros [Hex _] Hkeys a. pose proof (hm_exact_wf _ Hex) as Hwf.
  destruct (snapshots_wf _ Hwf) as (l & _ & Hk & _ & _ & Hin & _).
  rewrite Hk in Hkeys. injection Hkeys as <-. rewrite contains_wf by done.
  change (map fst l) with (fst <$> l). rewrite list_elem_of_fmap. split.
  - destruct (hm_get (_vertices g) a) as [r|] eqn:Ha; [|done]. intros _.
    exists (a, r). split; [done | by apply Hin].
  - intros ([a' r] & -> & Hl%Hin). cbn. by rewrite Hl.
Qed.

End GraphHypotheses.

(** *** The distances of the engine *)

Section ShortestDistances.
Context {ED : Type} `{EqDecision ED}.
Variables (pyhash_airport : Airport -> Z) (pyhash_str : string -> Z).

(** The engine of a graph in which no two vertices share an airport code
    visits every vertex once. *)
Lemma airports_order_all (ah : HashMap string Airport) (datas : list Airport) :
  map_view ah (view_airports datas) -> NoDup datas ->
  (forall a b, a ∈ datas -> b ∈ datas -> airport_code a = airport_code b -> a = b) ->
  exists order,
    HashMap_values ah = Ok order /\
    Z.of_nat (length order) = (view_airports datas).2 /\
    NoDup order /\ forall a, a ∈ order <-> a ∈ datas.
Proof.
  intros Ha Hnd Hcodes.
  destruct (airports_order ah datas Ha) as (order & Hvalues & Hlen & _ & Hperm).
  assert (order ≡ₚ datas) as Hp.
  { apply Hperm; [done|]. by apply NoDup_fmap_2_strong. }
  exists order. split; [done|]. split; [done|].
  split; [by rewrite Hp | intros a; by rewrite Hp].
Qed.

(** On a graph built from the empty graph by [add_vertex] and [add_edge]
    alone, with no negative weight and no airport code shared by two
    vertices, [find_shortest_paths(origin)] on a new engine returns, and
    afterwards the table of distances holds, for every vertex, the length
    of a route from the origin that no other route undercuts, or -1 when
    no route leads to the vertex. *)
Theorem find_shortest_paths_shortest (g : Graph Airport ED) :
  graph_built pyhash_airport g ->
  (forall u v w, weighted_edge g u v w -> (0 <= w)%Q) ->
  (forall a b, HashMap_contains (_vertices g) a = Ok true ->
               HashMap_contains (_vertices g) b = Ok true ->
               airport_code a = airport_code b -> a = b) ->
  exists self,
    Dijkstra_init pyhash_airport pyhash_str g = Ok self /\
    forall origin,
      HashMap_contains (_vertices g) origin = Ok true ->
      exists self',
        find_shortest_paths self origin = Ok self' /\
        forall v,
          HashMap_contains (_vertices g) v = Ok true ->
          exists d,
            HashMap_getitem (_distances_from_origin self') v = Ok d /\
            ((d = (-1)%Q /\ ~ connected g origin v) \/
             ((0 <= d)%Q /\ route g origin v d /\
              forall y, route g origin v y -> (d <= y)%Q)).
Proof.
  intros Hbuilt Hweights Hcodes.
  pose proof (graph_built_closed pyhash_airport g Hbuilt) as Hclosed.
  pose proof Hclosed as [Hex _]. pose proof (hm_exact_wf _ Hex) as Hwf.
  assert (forall a, HashMap_contains (_vertices g) a = Ok true <->
                    is_Some (hm_get (_vertices g) a)) as Hvertex.
  { intros a. rewrite contains_wf by done.
    destruct (hm_get (_vertices g) a); split; (done || by eexists || by intros []). }
  destruct (Dijkstra_init_view pyhash_airport pyhash_str g Hclosed)
    as (self & datas & Hinit & Hg & Hstack & Ha & Ht & Hnd & Hin).
  exists self. split; [done|]. intros origin Horigin%Hvertex%Hin.
  destruct (airports_order_all _ datas Ha Hnd)
    as (order & Hvalues & Hlen & Hndo & Horder).
  { intros a b Ha'%Hin%Hvertex Hb'%Hin%Hvertex. by apply Hcodes. }
  destruct (find_shortest_paths_sp g datas origin Hclosed Hin Horigin Hweights
              order Hndo Horder) as (tv' & l & settled & Hfsp & Hinv & Hend).
  pose proof (find_shortest_paths_view self (Graph_edges_from g) order
                (view_airports datas) (view_distances datas, view_connections datas)
                origin) as Hview.
  rewrite Hg in Hview. specialize (Hview ltac:(done) Ha Hvalues Hlen Ht).
  unfold refines in Hview. rewrite Hfsp in Hview.
  destruct Hview as (self' & Hrun & [Hd _] & _).
  exists self'. split; [done|]. intros v Hv%Hvertex%Hin.
  rewrite (getitem_view _ _ _ Hd). unfold view_get.
  pose proof Hinv as (Hkeys & Hdist & _).
  destruct (proj2 (Hkeys v) Hv) as [d Hdv]. rewrite Hdv. exists d. split; [done|].
  destruct (Hdist v d Hdv) as [->|[Hpos Hroute]].
  - left. split; [done|]. intros [y Hy]%connected_route.
    destruct (sp_inv_shortest g datas origin tv' l settled v y Hinv Hend Hy)
      as (x & Hx & Hxpos & _).
    rewrite Hdv in Hx. injection Hx as <-. lra.
  - right. split; [done|]. split; [done|]. intros y Hy.
    destruct (sp_inv_shortest g datas origin tv' l settled v y Hinv Hend Hy)
      as (x & Hx & _ & Hle).
    rewrite Hdv in Hx. by injection Hx as <-.
Qed.

(** On such a graph, when the lines typed are texts of ASCII characters,
    the codes typed name the airports [A] and [B] of a new engine and a
    chain of edges leads from [A] to [B], [run] prints the heading, one
    leg for each edge of a route from [A] to [B] that no other route
    undercuts, in order, and the length of that route rounded to two
    places; it leaves the stack empty and returns once the user declines
    to play again. *)
Theorem run_prints_shortest_route (g : Graph Airport ED) :
  graph_built pyhash_airport g ->
  (forall u v w, weighted_edge g u v w -> (0 <= w)%Q) ->
  (forall a b, HashMap_contains (_vertices g) a = Ok true ->
               HashMap_contains (_vertices g) b = Ok true ->
               airport_code a = airport_code b -> a = b) ->
  exists self,
    Dijkstra_init pyhash_airport pyhash_str g = Ok self /\
    forall (origin_line destination_line play_again : string) (A B : Airport),
      ascii_only origin_line = true -> ascii_only destination_line = true ->
      ascii_only play_again = true ->
      HashMap_getitem (_airports self) (upper origin_line) = Ok A ->
      HashMap_getitem (_airports self) (upper destination_line) = Ok B ->
      connected g A B ->
      lower play_again <> "yes"%string ->
      exists self' stops d,
        Dijkstra_run self [origin_line; destination_line; play_again]
        = Ok (self', [],
              ShortestRouteIs (airport_code A) (airport_code B)
              :: legs_from (airport_code A) (airport_code <$> stops)
              ++ [TotalMiles (round2 d)]) /\
        route_via g A stops B d /\
        (forall y, route g A B y -> (d <= y)%Q) /\
        _shortest_route self' = ListStack_init.
Proof.
  intros Hbuilt Hweights Hcodes.
  pose proof (graph_built_closed pyhash_airport g Hbuilt) as Hclosed.
  pose proof Hclosed as [Hex _]. pose proof (hm_exact_wf _ Hex) as Hwf.
  assert (forall a, HashMap_contains (_vertices g) a = Ok true <->
                    is_Some (hm_get (_vertices g) a)) as Hvertex.
  { intros a. rewrite contains_wf by done.
    destruct (hm_get (_vertices g) a); split; (done || by eexists || by intros []). }
  destruct (Dijkstra_init_view pyhash_airport pyhash_str g Hclosed)
    as (self & datas & Hinit & Hg & Hstack & Ha & Ht & Hnd & Hin).
  exists self. split; [done|].
  intros origin_line destination_line play_again A B _ _ _ HA HB Hreach Hplay.
  destruct (airports_order_all _ datas Ha Hnd)
    as (order & Hvalues & Hlen & Hndo & Horder).
  { intros a b Ha'%Hin%Hvertex Hb'%Hin%Hvertex. by apply Hcodes. }
  rewrite (getitem_view _ _ _ Ha) in HA. rewrite (getitem_view _ _ _ Ha) in HB.
  unfold view_get in HA, HB.
  destruct ((view_airports datas).1 (upper origin_line)) as [A'|] eqn:HA'; [|done].
  destruct ((view_airports datas).1 (upper destination_line)) as [B'|] eqn:HB'; [|done].
  injection HA as ->. injection HB as ->.
  pose proof (view_airports_Some _ _ _ HA') as [HAin _].
  pose proof (view_airports_Some _ _ _ HB') as [HBin _].
  destruct (find_shortest_paths_sp g datas A Hclosed Hin HAin Hweights
              order Hndo Horder) as (tv' & l & settled & Hfsp & Hinv & Hend).
  destruct (connected_route g A B Hreach) as [y0 Hy0].
  destruct (sp_inv_shortest g datas A tv' l settled B y0 Hinv Hend Hy0)
    as (d & Hd & Hdpos & _).
  pose proof (reached_settled g datas A tv' l settled B d Hinv Hend Hd Hdpos) as HBs.
  apply list_elem_of_lookup in HBs as [j Hj].
  pose proof (settled_count g datas A tv' l settled Hnd Hinv) as Hcount.
  pose proof (lookup_lt_Some _ _ _ Hj) as Hjlt.
  destruct (walk_back_route g datas A tv' l settled Hinv j (S (Z.to_nat tv'.2.2)) B
              ListStack_init Hj ltac:(lia)) as (stops & d' & Hwalk & Hd' & Hvia).
  assert (d' = d) as -> by congruence.
  pose proof (run_rec_view 3 self (Graph_edges_from g) order (view_airports datas)
                (view_distances datas, view_connections datas)
                [origin_line; destination_line; play_again]) as Hrun.
  rewrite Hg, Hstack in Hrun. specialize (Hrun ltac:(done) Ha Hvalues Hlen Ht).
  cbn [view_run_rec] in Hrun.
  rewrite (view_ask_found _ _ _ A HA'), bind_Ok in Hrun. cbv beta iota in Hrun.
  rewrite (view_ask_found _ _ _ B HB'), bind_Ok in Hrun. cbv beta iota in Hrun.
  rewrite Hfsp, bind_Ok in Hrun. rewrite Hwalk, bind_Ok in Hrun.
  cbv beta iota in Hrun.
  rewrite pushed_stack in Hrun. cbn [_stack] in Hrun.
  rewrite <- pushed_stack, print_legs_pushed, bind_Ok in Hrun. cbv beta iota in Hrun.
  unfold view_get in Hrun. rewrite Hd, !bind_Ok in Hrun. cbv beta iota in Hrun.
  rewrite decide_False in Hrun by done.
  destruct Hrun as ([[self' rest] printed] & Hrun & _ & Hs & _ & _ & Hrest & Hprinted).
  simpl in Hs, Hrest, Hprinted. subst rest printed.
  exists self', stops, d. split.
  { unfold Dijkstra_run. cbn [length]. rewrite Hrun. do 3 f_equal.
    by rewrite fmap_reverse, reverse_involutive. }
  split; [done|]. split; [|done]. intros y Hy.
  destruct (sp_inv_shortest g datas A tv' l settled B y Hinv Hend Hy)
    as (x & Hx & _ & Hle).
  rewrite Hd in Hx. by injection Hx as <-.
Qed.

End ShortestDistances.

(** ** The properties at concrete inputs *)

Lemma Array_setitem_then_getitem_witness :
  0 <= 1 < Z.of_nat (length (_items (Array_init 3 7))) /\
  exists self',
    Array_setitem (Array_init 3 7) 1 9 = Ok self' /\
    Array_getitem self' 1 = Ok 9 /\
    (forall j, j <> 1 -> Array_getitem self' j = Array_getitem (Array_init 3 7) j) /\
    Array_len self' = Array_len (Array_init 3 7).
Proof.
  assert (0 <= 1 < Z.of_nat (length (_items (Array_init 3 7)))) as Hi by (simpl; lia).
  split; [exact Hi|]. exact (Array_setitem_then_getitem (Array_init 3 7) 1 9 Hi).
Defined.

Lemma Array_delitem_shifts_witness :
  0 <= 1 < _logical_size (Array_init 3 7) /\
  _logical_size (Array_init 3 7) <= Z.of_nat (length (_items (Array_init 3 7))) /\
  exists self',
    Array_delitem (Array_init 3 7) 1 = Ok self' /\
    Array_len self' = Ok (_logical_size (Array_init 3 7) - 1) /\
    (forall j, 0 <= j < 1 -> Array_getitem self' j = Array_getitem (Array_init 3 7) j) /\
    (forall j, 1 <= j -> Array_getitem self' j = Array_getitem (Array_init 3 7) (j + 1)).
Proof.
  assert (0 <= 1 < _logical_size (Array_init 3 7)) as Hi by (simpl; lia).
  assert (_logical_size (Array_init 3 7)
          <= Z.of_nat (length (_items (Array_init 3 7)))) as Hl by (simpl; lia).
  split; [exact Hi|]. split; [exact Hl|].
  exact (Array_delitem_shifts (Array_init 3 7) 1 Hi Hl).
Defined.


Lemma three_in_four_hashmap_built : hashmap_built three_in_four.
Proof.
  pose proof three_in_four_built as Hb.
  apply bind_Ok_inv in Hb as (h0 & H0 & Hb).
  apply bind_Ok_inv in Hb as (h1 & H1 & Hb).
  apply bind_Ok_inv in Hb as (h2 & H2 & Hb).
  apply (hashmap_built_setitem h2 2 20); [|done].
  apply (hashmap_built_setitem h1 1 10); [|done].
  apply (hashmap_built_setitem h0 0 0); [|done].
  apply (hashmap_built_init 4 (default_hash_function int_hash) 0.6%Q);
    [apply default_hash_function_ok | lia | done].
Qed.

Lemma HashMap_setitem_then_getitem_witness :
  hashmap_built three_in_four /\
  exists h',
    HashMap_setitem three_in_four 3 30 = Ok h' /\
    HashMap_getitem h' 3 = Ok 30 /\ HashMap_contains h' 3 = Ok true /\
    forall k', k' <> 3 ->
      HashMap_getitem h' k' = HashMap_getitem three_in_four k' /\
      HashMap_contains h' k' = HashMap_contains three_in_four k'.
Proof.
  split; [exact three_in_four_hashmap_built|].
  exact (HashMap_setitem_then_getitem three_in_four 3 30 three_in_four_hashmap_built).
Defined.

Lemma HashMap_delitem_then_getitem_witness :
  hashmap_built three_in_four /\ HashMap_contains three_in_four 1 = Ok true /\
  exists h',
    HashMap_delitem three_in_four 1 = Ok h' /\
    HashMap_getitem h' 1 = Raise KeyError /\ HashMap_contains h' 1 = Ok false /\
    forall k', k' <> 1 ->
      HashMap_getitem h' k' = HashMap_getitem three_in_four k' /\
      HashMap_contains h' k' = HashMap_contains three_in_four k'.
Proof.
  assert (HashMap_contains three_in_four 1 = Ok true) as Hin by reflexivity.
  split; [exact three_in_four_hashmap_built|]. split; [exact Hin|].
  exact (HashMap_delitem_then_getitem three_in_four 1 three_in_four_hashmap_built Hin).
Defined.

Lemma missing_key_raises_KeyError_witness :
  hashmap_built three_in_four /\
  ((HashMap_contains three_in_four 5 = Ok true /\
    exists v, HashMap_getitem three_in_four 5 = Ok v) \/
   (HashMap_contains three_in_four 5 = Ok false /\
    HashMap_getitem three_in_four 5 = Raise KeyError /\
    HashMap_delitem three_in_four 5 = Raise KeyError)).
Proof.
  split; [exact three_in_four_hashmap_built|].
  exact (missing_key_raises_KeyError three_in_four 5 three_in_four_hashmap_built).
Defined.

Lemma clear_empties_witness :
  hashmap_built three_in_four /\
  exists h',
    HashMap_clear three_in_four = Ok h' /\ HashMap_len h' = 0 /\
    HashMap_keys h' = Ok [] /\
    HashMap_capacity h' = HashMap_capacity three_in_four /\
    forall k, HashMap_contains h' k = Ok false.
Proof.
  split; [exact three_in_four_hashmap_built|].
  exact (clear_empties three_in_four three_in_four_hashmap_built).
Defined.

Lemma resize_and_rehash_keeps_bindings_witness :
  hashmap_built three_in_four /\ hash_ok (default_hash_function int_hash) /\ 0 < 2 /\
  exists h',
    HashMap_resize_and_rehash three_in_four 2 (default_hash_function int_hash) = Ok h' /\
    _hash_function h' = default_hash_function int_hash /\ count_exact h' /\
    forall k, HashMap_getitem h' k = HashMap_getitem three_in_four k /\
              HashMap_contains h' k = HashMap_contains three_in_four k.
Proof.
  assert (0 < 2) as Hn by lia.
  split; [exact three_in_four_hashmap_built|].
  split; [exact (default_hash_function_ok int_hash)|]. split; [exact Hn|].
  exact (resize_and_rehash_keeps_bindings three_in_four 2 _ three_in_four_hashmap_built
           (default_hash_function_ok int_hash) Hn).
Defined.

Lemma snapshots_agree_witness :
  hashmap_built three_in_four /\
  exists items,
    HashMap_items three_in_four = Ok items /\ HashMap_keys three_in_four = Ok items.*1 /\
    HashMap_values three_in_four = Ok items.*2 /\ NoDup items.*1 /\
    (forall k v, (k, v) ∈ items <-> HashMap_getitem three_in_four k = Ok v) /\
    (forall k, k ∈ items.*1 <-> HashMap_contains three_in_four k = Ok true) /\
    Z.of_nat (length items) <= HashMap_len three_in_four.
Proof.
  split; [exact three_in_four_hashmap_built|].
  exact (snapshots_agree three_in_four three_in_four_hashmap_built).
Defined.

Lemma three_in_four_count_exact : count_exact three_in_four.
Proof. exists [0; 1; 2]. by split. Qed.

Lemma HashMap_eq_true_iff_witness :
  hashmap_built three_in_four /\ count_exact three_in_four /\
  (HashMap_eq three_in_four three_in_four = Ok true <->
   forall k, HashMap_getitem three_in_four k = HashMap_getitem three_in_four k).
Proof.
  split; [exact three_in_four_hashmap_built|]. split; [exact three_in_four_count_exact|].
  exact (HashMap_eq_true_iff three_in_four three_in_four
           three_in_four_hashmap_built three_in_four_hashmap_built
           three_in_four_count_exact three_in_four_count_exact).
Defined.

Lemma load_factor_bounded_witness :
  hashmap_built three_in_four /\
  exists capacity,
    HashMap_capacity three_in_four = Ok capacity /\ 0 < capacity /\
    0 <= HashMap_len three_in_four /\ 5 * (HashMap_len three_in_four - 1) <= 3 * capacity.
Proof.
  split; [exact three_in_four_hashmap_built|].
  exact (load_factor_bounded three_in_four three_in_four_hashmap_built).
Defined.

(** A stand-in for what an f-string makes of a small number: its last
    digit. *)
Definition fmt_digit (n : Z) : string :=
  String (ascii_of_nat (48 + Z.to_nat (n mod 10))) "".

Lemma HashMap_str_closed_witness :
  HashMap_items three_in_four = Ok [(0, 0); (1, 10); (2, 20)] /\
  HashMap_str fmt_digit fmt_digit three_in_four
  = Ok ("{" +:+ String.concat ", " (entry_of fmt_digit fmt_digit
                                      <$> [(0, 0); (1, 10); (2, 20)]) +:+ "}")%string.
Proof.
  assert (HashMap_items three_in_four = Ok [(0, 0); (1, 10); (2, 20)]) as Hitems
    by reflexivity.
  split; [exact Hitems|].
  exact (HashMap_str_closed fmt_digit fmt_digit three_in_four _ Hitems).
Defined.

Lemma nonpositive_capacity_unusable_witness :
  -1 <= 0 /\
  exists h : HashMap Z Z,
    HashMap_init (-1) (Some (default_hash_function int_hash)) 0.6%Q = Ok h /\
    HashMap_setitem h 1 10 = Raise ValueError /\
    HashMap_getitem h 1 = Raise ValueError /\
    HashMap_contains h 1 = Raise ValueError /\
    HashMap_delitem h 1 = Raise ValueError.
Proof.
  assert (-1 <= 0) as Hle by lia.
  split; [exact Hle|].
  exact (nonpositive_capacity_unusable int_hash (-1) 0.6%Q 1 10 Hle).
Defined.

Lemma graph_A_B_reached : graph_reached str_hash graph_A_B.
Proof. apply graph_built_reached, graph_A_B_built. Qed.

Lemma graph_B_A_reached : graph_reached airport_hash graph_B_A.
Proof. apply graph_built_reached, graph_B_A_built. Qed.

Lemma get_destination_vertex_never_returns_witness :
  graph_reached airport_hash graph_B_A /\
  exists keys,
    HashMap_keys (_vertices graph_B_A) = Ok keys /\
    Graph_get_destination_vertex graph_B_A "BA"%string
    = match keys with [] => Raise ValueError | _ :: _ => Raise AttributeError end.
Proof.
  split; [exact graph_B_A_reached|].
  exact (get_destination_vertex_never_returns airport_hash graph_B_A "BA"%string
           graph_B_A_reached).
Defined.

Lemma remove_vertex_keeps_other_edges_witness :
  graph_reached str_hash graph_A_B /\
  ((HashMap_contains (_vertices graph_A_B) "B" = Ok false /\
    Graph_remove_vertex graph_A_B "B" = Raise KeyError) \/
   (HashMap_contains (_vertices graph_A_B) "B" = Ok true /\
    exists g',
      Graph_remove_vertex graph_A_B "B" = Ok g' /\ heap g' = heap graph_A_B /\
      HashMap_contains (_vertices g') "B" = Ok false /\
      Graph_edges_from g' "B" = Raise ValueError /\
      forall d', d' <> "B"%string ->
                 Graph_edges_from g' d' = Graph_edges_from graph_A_B d')).
Proof.
  split; [exact graph_A_B_reached|].
  exact (remove_vertex_keeps_other_edges str_hash graph_A_B "B"%string graph_A_B_reached).
Defined.

Lemma vertices_lists_every_vertex_witness :
  graph_built str_hash graph_A_B /\
  exists vs : list (_Vertex string string),
    Graph_vertices graph_A_B
    = Ok (mkArray (Some <$> vs) (Z.of_nat (length vs)) (Z.of_nat (length vs)) None) /\
    NoDup (_vertex_data <$> vs) /\
    (forall d, d ∈ _vertex_data <$> vs <->
               HashMap_contains (_vertices graph_A_B) d = Ok true) /\
    forall vertex, vertex ∈ vs ->
      Graph_edges_from graph_A_B (_vertex_data vertex)
      = Ok (mkArray (Some <$> _edges vertex) (Z.of_nat (length (_edges vertex)))
                    (Z.of_nat (length (_edges vertex))) None).
Proof.
  split; [exact graph_A_B_built|].
  exact (vertices_lists_every_vertex str_hash graph_A_B graph_A_B_built).
Defined.

(** [graph_A_B] after [remove_vertex("B")]. *)
Definition graph_A_B_without_B : Graph string string :=
  mkGraph (table [[]; []; [mkPair "A" 0%nat]; []; []; []; []]
                 (default_hash_function str_hash) 2)
          [mkVertex "A" [mkEdge 1%nat "x" 5]; mkVertex "B" []].

Lemma vertices_after_remove_vertex_witness :
  graph_built str_hash graph_A_B /\
  Graph_remove_vertex graph_A_B "B" = Ok graph_A_B_without_B /\
  exists vs : list (_Vertex string string),
    Graph_vertices graph_A_B_without_B
    = Ok (mkArray ((Some <$> vs) ++ [None]) (Z.of_nat (S (length vs)))
                  (Z.of_nat (S (length vs))) None) /\
    forall d', d' ∈ _vertex_data <$> vs <->
               HashMap_contains (_vertices graph_A_B_without_B) d' = Ok true.
Proof.
  assert (Graph_remove_vertex graph_A_B "B" = Ok graph_A_B_without_B) as Hr
    by (vm_compute; reflexivity).
  split; [exact graph_A_B_built|]. split; [exact Hr|].
  exact (vertices_after_remove_vertex str_hash graph_A_B "B"%string graph_A_B_without_B
           graph_A_B_built Hr).
Defined.

Lemma add_edge_appends_edge_witness :
  graph_built str_hash graph_A_B /\
  exists g' r2 vertex2 edges1,
    Graph_add_edge graph_A_B "A" "C" "y" 7 = Ok g' /\
    HashMap_getitem (_vertices g') "C" = Ok r2 /\
    deref (heap g') r2 = Ok vertex2 /\ _vertex_data vertex2 = "C"%string /\
    (HashMap_contains (_vertices graph_A_B) "A" = Ok true /\
     Graph_edges_from graph_A_B "A" = Ok (edges_array edges1) \/
     HashMap_contains (_vertices graph_A_B) "A" = Ok false /\ edges1 = []) /\
    Graph_edges_from g' "A" = Ok (edges_array (edges1 ++ [mkEdge r2 "y"%string 7])) /\
    ("C"%string <> "A"%string -> HashMap_contains (_vertices graph_A_B) "C" = Ok false ->
     Graph_edges_from g' "C" = Ok (edges_array [])) /\
    (forall d, d <> "A"%string ->
               d <> "C"%string \/ HashMap_contains (_vertices graph_A_B) d = Ok true ->
               Graph_edges_from g' d = Graph_edges_from graph_A_B d).
Proof.
  split; [exact graph_A_B_built|].
  exact (add_edge_appends_edge str_hash graph_A_B "A"%string "C"%string "y"%string 7
           graph_A_B_built).
Defined.

Lemma Dijkstra_init_tables_witness :
  graph_built airport_hash graph_B_A /\
  exists self,
    Dijkstra_init airport_hash str_hash graph_B_A = Ok self /\
    _graph self = graph_B_A /\ _shortest_route self = ListStack_init /\
    (forall a, HashMap_contains (_vertices graph_B_A) a = Ok true ->
       HashMap_getitem (_distances_from_origin self) a = Ok (-1)%Q /\
       HashMap_getitem (_route_connections self) a = Ok None /\
       exists a', HashMap_getitem (_airports self) (airport_code a) = Ok a') /\
    (forall a, HashMap_contains (_vertices graph_B_A) a = Ok false ->
       HashMap_getitem (_distances_from_origin self) a = Raise KeyError /\
       HashMap_getitem (_route_connections self) a = Raise KeyError) /\
    (forall code a, HashMap_getitem (_airports self) code = Ok a ->
       airport_code a = code /\ HashMap_contains (_vertices graph_B_A) a = Ok true).
Proof.
  split; [exact graph_B_A_built|].
  exact (Dijkstra_init_tables airport_hash str_hash graph_B_A graph_B_A_built).
Defined.

(** [graph_B_A] after [remove_vertex(A)]. *)
Definition graph_B_A_without_A : Graph Airport string :=
  mkGraph (table [[]; []; [mkPair airport_B 0%nat]; []; []; []; []]
                 (default_hash_function airport_hash) 2)
          [mkVertex airport_B [mkEdge 1%nat "BA" 5]; mkVertex airport_A []].

Lemma Dijkstra_init_raises_after_remove_vertex_witness :
  graph_built airport_hash graph_B_A /\
  Graph_remove_vertex graph_B_A airport_A = Ok graph_B_A_without_A /\
  Dijkstra_init airport_hash str_hash graph_B_A_without_A = Raise AttributeError.
Proof.
  assert (Graph_remove_vertex graph_B_A airport_A = Ok graph_B_A_without_A) as Hr
    by (vm_compute; reflexivity).
  split; [exact graph_B_A_built|]. split; [exact Hr|].
  exact (Dijkstra_init_raises_after_remove_vertex airport_hash str_hash graph_B_A
           airport_A graph_B_A_without_A graph_B_A_built Hr).
Defined.

(** The table of airports that holds [airport_A] alone. *)
Definition airports_A : HashMap string Airport :=
  table [[]; []; [mkPair "A"%string airport_A]; []; []; []; []]
        (default_hash_function str_hash) 1.

Lemma airports_A_built : hashmap_built airports_A.
Proof.
  apply (hashmap_built_setitem
           (table (replicate 7 []) (default_hash_function str_hash) 0)
           "A"%string airport_A).
  - apply (hashmap_built_init 7 (default_hash_function str_hash) 0.6%Q);
      [apply default_hash_function_ok | lia | reflexivity].
  - vm_compute. reflexivity.
Qed.

Lemma ask_airport_reprompts_witness :
  hashmap_built airports_A /\
  Forall (fun line => ascii_only line = true /\
                      HashMap_contains airports_A (upper line) = Ok false)
         ["x"; "b"]%string /\
  ask_airport airports_A ["x"; "b"]%string = Raise EOFError /\
  ascii_only "a" = true /\
  HashMap_getitem airports_A (upper "a") = Ok airport_A /\
  ask_airport airports_A (["x"; "b"]%string ++ "a"%string :: ["no"%string])
  = Ok (airport_A, ["no"%string], NotAvailable <$> (upper <$> ["x"; "b"]%string)).
Proof.
  assert (Forall (fun line => ascii_only line = true /\
                              HashMap_contains airports_A (upper line) = Ok false)
                 ["x"; "b"]%string) as Hrej
    by (repeat constructor).
  assert (HashMap_getitem airports_A (upper "a") = Ok airport_A) as Hget
    by (vm_compute; reflexivity).
  destruct (ask_airport_reprompts airports_A ["x"; "b"]%string airports_A_built Hrej)
    as [Hnone Hsome].
  split; [exact airports_A_built|]. split; [exact Hrej|]. split; [exact Hnone|].
  split; [reflexivity|]. split; [exact Hget|].
  exact (Hsome "a"%string ["no"%string] airport_A eq_refl Hget).
Defined.

Lemma ListStack_push_then_pop_witness :
  stack_ok (ListStack_init (A:=string)) /\
  ListStack_pop (ListStack_push ListStack_init "A"%string)
  = Ok ("A"%string, ListStack_init).
Proof.
  assert (stack_ok (ListStack_init (A:=string))) as Hok by reflexivity.
  split; [exact Hok|]. exact (ListStack_push_then_pop ListStack_init "A"%string Hok).
Defined.

Lemma print_legs_empties_stack_witness :
  stack_ok (mkListStack ["C"; "B"]%string (Some "B"%string)) /\
  print_legs (S (length (_stack (mkListStack ["C"; "B"]%string (Some "B"%string)))))
             (mkListStack ["C"; "B"]%string (Some "B"%string)) "A"
  = Ok (ListStack_init,
        legs_from "A" (reverse (_stack (mkListStack ["C"; "B"]%string
                                                    (Some "B"%string))))).
Proof.
  assert (stack_ok (mkListStack ["C"; "B"]%string (Some "B"%string))) as Hok
    by reflexivity.
  split; [exact Hok|].
  exact (print_legs_empties_stack (mkListStack ["C"; "B"]%string (Some "B"%string))
           "A"%string Hok).
Defined.

Lemma no_route_leaves_code_on_stack_witness :
  graph_built airport_hash graph_B_A /\
  exists self,
    Dijkstra_init airport_hash str_hash graph_B_A = Ok self /\
    ascii_only "a" = true /\ ascii_only "b" = true /\ ascii_only "no" = true /\
    HashMap_getitem (_airports self) (upper "a") = Ok airport_A /\
    HashMap_getitem (_airports self) (upper "b") = Ok airport_B /\
    ~ connected graph_B_A airport_A airport_B /\
    lower "no" <> "yes"%string /\
    exists self',
      Dijkstra_run self ["a"; "b"; "no"]%string
      = Ok (self', [], [NoCompleteRoute "A" "B"]) /\
      _shortest_route self' = ListStack_push ListStack_init "B"%string /\
      ListStack_empty (_shortest_route self') = false.
Proof.
  split; [exact graph_B_A_built|].
  destruct (no_route_leaves_code_on_stack airport_hash str_hash graph_B_A
              graph_B_A_built) as (self & Hinit & Hrun).
  assert ((self ← Dijkstra_init airport_hash str_hash graph_B_A;
           HashMap_getitem (_airports self) (upper "a")) = Ok airport_A) as HA
    by (vm_compute; reflexivity).
  assert ((self ← Dijkstra_init airport_hash str_hash graph_B_A;
           HashMap_getitem (_airports self) (upper "b")) = Ok airport_B) as HB
    by (vm_compute; reflexivity).
  rewrite Hinit in HA, HB.
  assert (lower "no" <> "yes"%string) as Hplay by (vm_compute; discriminate).
  exists self. split; [exact Hinit|].
  split; [reflexivity|]. split; [reflexivity|]. split; [reflexivity|].
  split; [exact HA|]. split; [exact HB|].
  split; [exact graph_B_A_no_route|]. split; [exact Hplay|].
  exact (Hrun "a"%string "b"%string "no"%string airport_A airport_B
              eq_refl eq_refl eq_refl HA HB graph_B_A_no_route Hplay).
Defined.

(** The graph after [add_edge(A, B, "AB", 5.0)], [add_edge(A, C, "AC", 1.0)]
    and [add_edge(C, B, "CB", 1.0)]: the route from A to B through C is
    shorter than the edge from A to B. *)
Definition graph_detour : Graph Airport string :=
  mkGraph (table [[]; [mkPair airport_A 0%nat]; [mkPair airport_B 1%nat];
                  [mkPair airport_C 2%nat]; []; []; []]
                 (default_hash_function airport_hash) 3)
          [mkVertex airport_A [mkEdge 1%nat "AB" 5; mkEdge 2%nat "AC" 1];
           mkVertex airport_B [];
           mkVertex airport_C [mkEdge 1%nat "CB" 1]].

Lemma graph_detour_ops :
  (g ← Graph_init airport_hash;
   g ← Graph_add_edge g airport_A airport_B "AB" 5;
   g ← Graph_add_edge g airport_A airport_C "AC" 1;
   Graph_add_edge g airport_C airport_B "CB" 1) = Ok graph_detour.
Proof. vm_compute. reflexivity. Qed.

Lemma graph_detour_built : graph_built airport_hash graph_detour.
Proof.
  pose proof graph_detour_ops as Hb.
  apply bind_Ok_inv in Hb as (g0 & H0 & Hb).
  apply bind_Ok_inv in Hb as (g1 & H1 & Hb).
  apply bind_Ok_inv in Hb as (g2 & H2 & Hb).
  apply (built_add_edge airport_hash g2 airport_C airport_B "CB" 1); [|done].
  apply (built_add_edge airport_hash g1 airport_A airport_C "AC" 1); [|done].
  apply (built_add_edge airport_hash g0 airport_A airport_B "AB" 5); [|done].
  by apply built_init.
Qed.

Lemma graph_detour_weights :
  forall u v w, weighted_edge graph_detour u v w -> (0 <= w)%Q.
Proof.
  apply weights_of_store; [apply (graph_built_closed _ _ graph_detour_built)|].
  intros vertex edge Hv He. cbn [heap graph_detour] in Hv.
  repeat (apply elem_of_cons in Hv as [->|Hv];
          [cbn [_edges] in He;
           repeat (apply elem_of_cons in He as [->|He]; [by cbv|]);
           by apply elem_of_nil in He|]).
  by apply elem_of_nil in Hv.
Qed.

Lemma graph_detour_codes (a b : Airport) :
  HashMap_contains (_vertices graph_detour) a = Ok true ->
  HashMap_contains (_vertices graph_detour) b = Ok true ->
  airport_code a = airport_code b -> a = b.
Proof.
  assert (HashMap_keys (_vertices graph_detour) = Ok [airport_A; airport_B; airport_C])
    as Hkeys by (vm_compute; reflexivity).
  pose proof (vertices_of_keys graph_detour _
                (graph_built_closed _ _ graph_detour_built) Hkeys) as Hin.
  rewrite !Hin. intros Ha Hb.
  repeat (apply elem_of_cons in Ha as [->|Ha]);
    repeat (apply elem_of_cons in Hb as [->|Hb]);
    try (by apply elem_of_nil in Ha); try (by apply elem_of_nil in Hb); done.
Qed.

Lemma graph_detour_route : connected graph_detour airport_A airport_B.
Proof.
  apply (connected_step graph_detour airport_A airport_A airport_B);
    [apply connected_here|].
  exists (edges_array [mkEdge 1%nat "AB"%string 5; mkEdge 2%nat "AC"%string 1]),
         (mkEdge 1%nat "AB"%string 5), (mkVertex airport_B []).
  split; [vm_compute; reflexivity|]. split; [left|]. by split.
Qed.

Lemma find_shortest_paths_shortest_witness :
  graph_built airport_hash graph_detour /\
  (forall u v w, weighted_edge graph_detour u v w -> (0 <= w)%Q) /\
  (forall a b, HashMap_contains (_vertices graph_detour) a = Ok true ->
               HashMap_contains (_vertices graph_detour) b = Ok true ->
               airport_code a = airport_code b -> a = b) /\
  exists self,
    Dijkstra_init airport_hash str_hash graph_detour = Ok self /\
    HashMap_contains (_vertices graph_detour) airport_A = Ok true /\
    exists self',
      find_shortest_paths self airport_A = Ok self' /\
      HashMap_contains (_vertices graph_detour) airport_B = Ok true /\
      exists d,
        HashMap_getitem (_distances_from_origin self') airport_B = Ok d /\
        ((d = (-1)%Q /\ ~ connected graph_detour airport_A airport_B) \/
         ((0 <= d)%Q /\ route graph_detour airport_A airport_B d /\
          forall y, route graph_detour airport_A airport_B y -> (d <= y)%Q)).
Proof.
  split; [exact graph_detour_built|]. split; [exact graph_detour_weights|].
  split; [exact graph_detour_codes|].
  destruct (find_shortest_paths_shortest airport_hash str_hash graph_detour
              graph_detour_built graph_detour_weights graph_detour_codes)
    as (self & Hinit & Hrun).
  assert (HashMap_contains (_vertices graph_detour) airport_A = Ok true) as HA
    by (vm_compute; reflexivity).
  assert (HashMap_contains (_vertices graph_detour) airport_B = Ok true) as HB
    by (vm_compute; reflexivity).
  exists self. split; [exact Hinit|]. split; [exact HA|].
  destruct (Hrun airport_A HA) as (self' & Hfsp & Hall).
  exists self'. split; [exact Hfsp|]. split; [exact HB|]. exact (Hall airport_B HB).
Defined.

Lemma run_prints_shortest_route_witness :
  graph_built airport_hash graph_detour /\
  (forall u v w, weighted_edge graph_detour u v w -> (0 <= w)%Q) /\
  (forall a b, HashMap_contains (_vertices graph_detour) a = Ok true ->
               HashMap_contains (_vertices graph_detour) b = Ok true ->
               airport_code a = airport_code b -> a = b) /\
  exists self,
    Dijkstra_init airport_hash str_hash graph_detour = Ok self /\
    ascii_only "a" = true /\ ascii_only "b" = true /\ ascii_only "no" = true /\
    HashMap_getitem (_airports self) (upper "a") = Ok airport_A /\
    HashMap_getitem (_airports self) (upper "b") = Ok airport_B /\
    connected graph_detour airport_A airport_B /\
    lower "no" <> "yes"%string /\
    exists self' stops d,
      Dijkstra_run self ["a"; "b"; "no"]%string
      = Ok (self', [],
            ShortestRouteIs "A" "B"
            :: legs_from "A" (airport_code <$> stops) ++ [TotalMiles (round2 d)]) /\
      route_via graph_detour airport_A stops airport_B d /\
      (forall y, route graph_detour airport_A airport_B y -> (d <= y)%Q) /\
      _shortest_route self' = ListStack_init.
Proof.
  split; [exact graph_detour_built|]. split; [exact graph_detour_weights|].
  split; [exact graph_detour_codes|].
  destruct (run_prints_shortest_route airport_hash str_hash graph_detour
              graph_detour_built graph_detour_weights graph_detour_codes)
    as (self & Hinit & Hrun).
  assert ((self ← Dijkstra_init airport_hash str_hash graph_detour;
           HashMap_getitem (_airports self) (upper "a")) = Ok airport_A) as HA
    by (vm_compute; reflexivity).
  assert ((self ← Dijkstra_init airport_hash str_hash graph_detour;
           HashMap_getitem (_airports self) (upper "b")) = Ok airport_B) as HB
    by (vm_compute; reflexivity).
  rewrite Hinit in HA, HB.
  assert (lower "no" <> "yes"%string) as Hplay by (vm_compute; discriminate).
  exists self. split; [exact Hinit|].
  split; [reflexivity|]. split; [reflexivity|]. split; [reflexivity|].
  split; [exact HA|]. split; [exact HB|].
  split; [exact graph_detour_route|]. split; [exact Hplay|].
  exact (Hrun "a"%string "b"%string "no"%string airport_A airport_B
              eq_refl eq_refl eq_refl HA HB graph_detour_route Hplay).
Defined.
